(** * A shallow embedding of the tunneling gateway and agent

    The development follows the Go sources:
    - [internal/protocol/protocol.go]: the wire envelope and the gateway
      ([TunnelServer], its routing table, session registry and public
      HTTP path);
    - [internal/agent/config.go]: the agent's [ConfigStore] and the
      hostname / target normalizers;
    - [internal/agent/service.go]: the agent's proxy executor.

    Go strings are byte sequences and are modelled as [list ascii].
    The functions of Go's standard library that the program calls
    ([strings], [net], [net/textproto], [encoding/base64], [io],
    [unicode/utf8], [encoding/json]) are modelled on bytes.
    [strings.ToLower] and [strings.TrimSpace] are the ASCII paths of
    the Go functions: they agree with Go on strings whose bytes are all
    below 128, and a statement that depends on single bytes is made for
    such strings ([ascii_text]).  A JSON file is represented by the
    document it encodes; the strings of a document pass through
    [JSON.text] when they are written and when they are read, which
    replaces every byte that is not part of a valid UTF-8 encoding by
    U+FFFD, as [encoding/json] does.  The same holds for an envelope
    that crosses the control connection ([Wire.envelope]).  Where Go ranges over a map in an
    unspecified order, the model folds over the map in the order of
    [map_fold]. *)

From Stdlib Require Import ZArith Ascii String DecimalString DecimalN.
From stdpp Require Import gmap strings list sorting.

Local Open Scope Z_scope.

(** A Go string literal. *)
Definition go (s : string) : list ascii := list_ascii_of_string s.

(** Go's [error] results: a value or an error message. *)
Inductive result (A : Type) : Type :=
| Ok (a : A)
| Err (msg : string).
Arguments Ok {A} a.
Arguments Err {A} msg.

Definition is_ok {A} (r : result A) : bool :=
  match r with Ok _ => true | Err _ => false end.

(** ** Package [strings] *)
Module Strings.

Definition is_upper (c : ascii) : bool :=
  ((65 <=? N_of_ascii c) && (N_of_ascii c <=? 90))%N.

Definition lower (c : ascii) : ascii :=
  if is_upper c then ascii_of_N (N_of_ascii c + 32) else c.

(** [strings.ToLower]. *)
Definition ToLower (s : list ascii) : list ascii := lower <$> s.

(** The ASCII white space of [strings.TrimSpace]:
    tab, newline, vertical tab, form feed, carriage return, space. *)
Definition is_space (c : ascii) : bool := Ascii.is_space c.

Fixpoint trimLeft (s : list ascii) : list ascii :=
  match s with
  | [] => []
  | c :: s' => if is_space c then trimLeft s' else s
  end.

Definition trimRight (s : list ascii) : list ascii :=
  reverse (trimLeft (reverse s)).

(** [strings.TrimSpace]. *)
Definition TrimSpace (s : list ascii) : list ascii :=
  trimRight (trimLeft s).

(** [strings.HasPrefix]. *)
Fixpoint HasPrefix (s prefix : list ascii) : bool :=
  match prefix, s with
  | [], _ => true
  | _ :: _, [] => false
  | p :: prefix', c :: s' => bool_decide (p = c) && HasPrefix s' prefix'
  end.

(** [strings.HasSuffix]. *)
Definition HasSuffix (s suffix : list ascii) : bool :=
  (length suffix <=? length s)%nat
  && bool_decide (drop (length s - length suffix) s = suffix).

(** [strings.TrimSuffix]. *)
Definition TrimSuffix (s suffix : list ascii) : list ascii :=
  if HasSuffix s suffix then take (length s - length suffix) s else s.

(** [strings.Contains]. *)
Fixpoint Contains (s substr : list ascii) : bool :=
  HasPrefix s substr
  || match s with
     | [] => false
     | _ :: s' => Contains s' substr
     end.

(** [strings.Count] for a separator of one byte, the only use in the
    program ([strings.Count(host, ":")]). *)
Definition Count (s : list ascii) (sep : ascii) : nat :=
  length (filter (λ c, c = sep) s).

(** [strings.Split] for a separator of one byte
    ([strings.Split(host, ":")]). *)
Fixpoint Split_go (cur : list ascii) (s : list ascii) (sep : ascii)
  : list (list ascii) :=
  match s with
  | [] => [reverse cur]
  | c :: s' =>
      if bool_decide (c = sep) then reverse cur :: Split_go [] s' sep
      else Split_go (c :: cur) s' sep
  end.
Definition Split (s : list ascii) (sep : ascii) : list (list ascii) :=
  Split_go [] s sep.

(** [bytealg.IndexByteString] and [bytealg.LastIndexByteString];
    [None] stands for Go's [-1]. *)
Fixpoint IndexByte (s : list ascii) (c : ascii) : option nat :=
  match s with
  | [] => None
  | x :: s' => if bool_decide (x = c) then Some 0%nat
               else S <$> IndexByte s' c
  end.

Fixpoint LastIndexByte (s : list ascii) (c : ascii) : option nat :=
  match s with
  | [] => None
  | x :: s' =>
      match LastIndexByte s' c with
      | Some i => Some (S i)
      | None => if bool_decide (x = c) then Some 0%nat else None
      end
  end.

(** [strings.TrimPrefix]. *)
Definition TrimPrefix (s prefix : list ascii) : list ascii :=
  if HasPrefix s prefix then drop (length prefix) s else s.

End Strings.

(** ** Package [net] *)
Module Net.
Import Strings.

(** The last two checks of [net.SplitHostPort]: no [[] from position
    [j] on, no []] from position [k] on; the port starts after the
    last colon, at [i+1]. *)
Definition split_tail (hostport : list ascii) (j k i : nat)
    (host : list ascii) : result (list ascii * list ascii) :=
  if bool_decide (is_Some (IndexByte (drop j hostport) "["))
  then Err "unexpected '[' in address"
  else if bool_decide (is_Some (IndexByte (drop k hostport) "]"))
  then Err "unexpected ']' in address"
  else Ok (host, drop (S i) hostport).

(** [net.SplitHostPort]. *)
Definition SplitHostPort (hostport : list ascii)
  : result (list ascii * list ascii) :=
  match LastIndexByte hostport ":" with
  | None => Err "missing port in address"
  | Some i =>
      if bool_decide (hostport !! 0%nat = Some "["%char) then
        match IndexByte hostport "]" with
        | None => Err "missing ']' in address"
        | Some e =>
            if bool_decide (S e = length hostport)
            then Err "missing port in address"
            else if bool_decide (S e = i)
            then split_tail hostport 1 (S e) i
                   (take (e - 1) (drop 1 hostport))
            else if bool_decide (hostport !! S e = Some ":"%char)
            then Err "too many colons in address"
            else Err "missing port in address"
        end
      else
        let host := take i hostport in
        if bool_decide (is_Some (IndexByte host ":"))
        then Err "too many colons in address"
        else split_tail hostport 0 0 i host
  end.

End Net.

(** ** Package [encoding/base64] ([StdEncoding]) *)
Module Base64.

Definition alphabet : list ascii :=
  go "ABCDEFGHIJKLMNOPQRSTUVWXYZabcdefghijklmnopqrstuvwxyz0123456789+/".

Definition padChar : ascii := "="%char.

Definition enc6 (n : N) : ascii :=
  nth (N.to_nat (N.land n 63)) alphabet padChar.

(** [StdEncoding.EncodeToString]: three bytes give four symbols, the
    last quantum is padded. *)
Fixpoint EncodeToString (src : list ascii) : list ascii :=
  match src with
  | [] => []
  | [a] =>
      let v := N.shiftl (N_of_ascii a) 16 in
      [enc6 (N.shiftr v 18); enc6 (N.shiftr v 12); padChar; padChar]
  | [a; b] =>
      let v := N.lor (N.shiftl (N_of_ascii a) 16)
                     (N.shiftl (N_of_ascii b) 8) in
      [enc6 (N.shiftr v 18); enc6 (N.shiftr v 12); enc6 (N.shiftr v 6);
       padChar]
  | a :: b :: c :: rest =>
      let v := N.lor (N.lor (N.shiftl (N_of_ascii a) 16)
                            (N.shiftl (N_of_ascii b) 8))
                     (N_of_ascii c) in
      enc6 (N.shiftr v 18) :: enc6 (N.shiftr v 12)
        :: enc6 (N.shiftr v 6) :: enc6 v :: EncodeToString rest
  end.

(** The decode map: the position of a symbol in the alphabet. *)
Fixpoint index_of (c : ascii) (l : list ascii) (i : N) : option N :=
  match l with
  | [] => None
  | x :: l' => if bool_decide (x = c) then Some i
               else index_of c l' (N.succ i)
  end.
Definition dec6 (c : ascii) : option N := index_of c alphabet 0%N.

Definition byte_of (v : N) (shift : N) : ascii :=
  ascii_of_N (N.land (N.shiftr v shift) 255).

Definition val4 (x y z w : N) : N :=
  N.lor (N.lor (N.shiftl x 18) (N.shiftl y 12)) (N.lor (N.shiftl z 6) w).

(** Quanta of four symbols; padding only closes the input, and nothing
    may follow it.  [None] is a [CorruptInputError]. *)
Fixpoint decode_quanta (s : list ascii) : option (list ascii) :=
  match s with
  | [] => Some []
  | a :: b :: c :: d :: rest =>
      match dec6 a, dec6 b with
      | Some x, Some y =>
          match dec6 c, dec6 d with
          | Some z, Some w =>
              let v := val4 x y z w in
              (λ out, byte_of v 16 :: byte_of v 8 :: byte_of v 0 :: out)
                <$> decode_quanta rest
          | Some z, None =>
              if bool_decide (d = padChar ∧ rest = [])
              then let v := val4 x y z 0 in
                   Some [byte_of v 16; byte_of v 8]
              else None
          | None, _ =>
              if bool_decide (c = padChar ∧ d = padChar ∧ rest = [])
              then Some [byte_of (val4 x y 0 0) 16]
              else None
          end
      | _, _ => None
      end
  | _ => None
  end.

(** [StdEncoding.DecodeString]: carriage returns and newlines are
    skipped wherever they stand. *)
Definition DecodeString (s : list ascii) : option (list ascii) :=
  decode_quanta
    (filter (λ c, c ≠ "010"%char ∧ c ≠ "013"%char) s).

End Base64.

(** ** Package [unicode/utf8] *)
Module Utf8.

Definition inRange (lo hi : N) (c : ascii) : bool :=
  ((lo <=? N_of_ascii c) && (N_of_ascii c <=? hi))%N.

(** A continuation byte. *)
Definition cont (c : ascii) : bool := inRange 128 191 c.

(** The range accepted for the second byte after the first byte [b0]
    of an encoding of three or four bytes ([acceptRanges]). *)
Definition second (b0 c : ascii) : bool :=
  if bool_decide (N_of_ascii b0 = 224%N) then inRange 160 191 c
  else if bool_decide (N_of_ascii b0 = 237%N) then inRange 128 159 c
  else if bool_decide (N_of_ascii b0 = 240%N) then inRange 144 191 c
  else if bool_decide (N_of_ascii b0 = 244%N) then inRange 128 143 c
  else cont c.

(** [utf8.DecodeRuneInString] on a string that is not empty: the width
    of the encoding at its head; [None] stands for the result
    [(RuneError, 1)] on a byte that starts no valid encoding. *)
Definition DecodeRuneInString (s : list ascii) : option nat :=
  match s with
  | [] => None
  | b0 :: t =>
      if (N_of_ascii b0 <? 128)%N then Some 1%nat
      else if inRange 194 223 b0 then
        match t with
        | b1 :: _ => if cont b1 then Some 2%nat else None
        | _ => None
        end
      else if inRange 224 239 b0 then
        match t with
        | b1 :: b2 :: _ =>
            if second b0 b1 && cont b2 then Some 3%nat else None
        | _ => None
        end
      else if inRange 240 244 b0 then
        match t with
        | b1 :: b2 :: b3 :: _ =>
            if second b0 b1 && cont b2 && cont b3 then Some 4%nat else None
        | _ => None
        end
      else None
  end.

(** The encoding of [utf8.RuneError], U+FFFD. *)
Definition RuneError : list ascii := ["239"; "191"; "189"]%char.

Fixpoint valid (fuel : nat) (s : list ascii) : bool :=
  match s, fuel with
  | [], _ => true
  | _ :: _, S fuel' =>
      match DecodeRuneInString s with
      | Some w => valid fuel' (drop w s)
      | None => false
      end
  | _ :: _, O => false
  end.

(** [utf8.ValidString]. *)
Definition ValidString (s : list ascii) : bool := valid (length s) s.

End Utf8.

(** ** Package [encoding/json] *)
Module JSON.

Fixpoint coerce (fuel : nat) (s : list ascii) : list ascii :=
  match s, fuel with
  | _ :: t, S fuel' =>
      match Utf8.DecodeRuneInString s with
      | Some w => take w s ++ coerce fuel' (drop w s)
      | None => Utf8.RuneError ++ coerce fuel' t
      end
  | _, _ => []
  end.

(** A string after it has been written by [json.Marshal] or read by
    [json.Unmarshal]: every byte that starts no valid UTF-8 encoding
    has become U+FFFD; the escapes of the JSON text are undone by the
    reader and leave no trace. *)
Definition text (s : list ascii) : list ascii := coerce (length s) s.

End JSON.

(** ** Package [net/textproto] *)
Module Textproto.
Import Strings.

Definition is_lower_letter (c : ascii) : bool :=
  ((97 <=? N_of_ascii c) && (N_of_ascii c <=? 122))%N.

Definition is_digit (c : ascii) : bool :=
  ((48 <=? N_of_ascii c) && (N_of_ascii c <=? 57))%N.

Definition upper (c : ascii) : ascii :=
  if is_lower_letter c then ascii_of_N (N_of_ascii c - 32) else c.

(** The token bytes of a header field name. *)
Definition validHeaderFieldByte (c : ascii) : bool :=
  is_upper c || is_lower_letter c || is_digit c
  || bool_decide (c ∈ go "!#$%&'*+-.^_`|~").

(** First letter and every letter after a dash in upper case, the
    others in lower case. *)
Fixpoint canonicalize (up : bool) (a : list ascii) : list ascii :=
  match a with
  | [] => []
  | c :: a' =>
      let c' := if up then upper c else lower c in
      c' :: canonicalize (bool_decide (c' = "-"%char)) a'
  end.

(** [textproto.CanonicalMIMEHeaderKey]: a key with a byte that is not
    a token byte is returned unchanged. *)
Definition CanonicalMIMEHeaderKey (s : list ascii) : list ascii :=
  if forallb validHeaderFieldByte s then canonicalize true s else s.

End Textproto.

(** ** Package [io] *)
Module IO.

(** A stream as the program sees it: the bytes it yields, then end of
    file or a read error. *)
Record Reader := {
  data : list ascii;
  fails : bool;
}.

(** [io.ReadAll(io.LimitReader(r, n))]: once [n] bytes are read the
    limited reader reports end of file and the rest of [r] is never
    looked at. *)
Definition ReadAllLimit (r : Reader) (n : Z) : result (list ascii) :=
  if Z.of_nat (length (data r)) <? n
  then (if fails r then Err "unexpected read error" else Ok (data r))
  else Ok (take (Z.to_nat n) (data r)).

End IO.

(** ** Package [net/http]: headers and plain error replies *)
Module HTTP.

Definition StatusBadRequest : Z := 400.
Definition StatusNotFound : Z := 404.
Definition StatusBadGateway : Z := 502.
Definition StatusServiceUnavailable : Z := 503.
Definition StatusGatewayTimeout : Z := 504.

(** [http.Header.Add]: the key is canonicalized, the value appended. *)
Definition HeaderAdd (k v : list ascii)
    (h : gmap (list ascii) (list (list ascii)))
  : gmap (list ascii) (list (list ascii)) :=
  let key := Textproto.CanonicalMIMEHeaderKey k in
  <[key := default [] (h !! key) ++ [v]]> h.

(** What a handler wrote to its [http.ResponseWriter]. *)
Record Response := {
  status : Z;
  header : gmap (list ascii) (list (list ascii));
  body : list ascii;
}.

(** [http.Error]. *)
Definition Error (msg : string) (code : Z) : Response :=
  {| status := code;
     header :=
       <[go "X-Content-Type-Options" := [go "nosniff"]]>
         (<[go "Content-Type" := [go "text/plain; charset=utf-8"]]> ∅);
     body := go msg ++ go (String "010" "") |}.

(** [http.NotFound]. *)
Definition NotFound : Response := Error "404 page not found" StatusNotFound.

End HTTP.

(** ** Package [protocol]: the wire envelope *)
Module Protocol.

Definition TypeRegisterRoutes : list ascii := go "register_routes".
Definition TypeProxyRequest : list ascii := go "proxy_request".
Definition TypeProxyResponse : list ascii := go "proxy_response".
Definition TypeError : list ascii := go "error".

Record Route := {
  Hostname : list ascii;
  Target : list ascii;
}.

Global Instance Route_eq_dec : EqDecision Route.
Proof. solve_decision. Defined.

Record Envelope := {
  Type_ : list ascii;
  RequestID : list ascii;
  Method : list ascii;
  Path : list ascii;
  Query : list ascii;
  Headers : gmap (list ascii) (list (list ascii));
  Body : list ascii;
  Status : Z;
  EnvHostname : list ascii;
  EnvTarget : list ascii;
  Routes : list Route;
  Message : list ascii;
}.

(** The zero value of [Envelope]. *)
Definition zero : Envelope :=
  {| Type_ := []; RequestID := []; Method := []; Path := []; Query := [];
     Headers := ∅; Body := []; Status := 0; EnvHostname := [];
     EnvTarget := []; Routes := []; Message := [] |}.

(** [CloneHeaders]: a copy with the same keys and values. *)
Definition CloneHeaders (h : gmap (list ascii) (list (list ascii)))
  : gmap (list ascii) (list (list ascii)) :=
  if bool_decide (size h = 0%nat) then ∅ else (λ v, v) <$> h.

End Protocol.

(** ** Package [server]: the gateway *)
Module Server.
Import Strings Protocol.

Definition maxBodySize : Z := Z.shiftl 10 20.

Record routeBinding := {
  Token : list ascii;
  Target : list ascii;
}.

Global Instance routeBinding_eq_dec : EqDecision routeBinding.
Proof. solve_decision. Defined.

(** An [*AgentSession]: the pointer is identified with the control
    connection it wraps.  The pending response slots of a session are
    not part of the state: what a waiting handler receives is given
    by the [arrival] field of [Tunnel] below. *)
Record AgentSession := {
  SessionToken : list ascii;
  Conn : nat;
}.

Global Instance AgentSession_eq_dec : EqDecision AgentSession.
Proof. solve_decision. Defined.

(** The [TunnelServer] state: session registry, routing table and
    request counter, with the set of control connections on which
    [Close] was called. *)
Record TunnelServer := {
  agents : gmap (list ascii) AgentSession;
  routes : gmap (list ascii) routeBinding;
  requestSeq : Z;
  closed : gset nat;
}.

Definition New : TunnelServer :=
  {| agents := ∅; routes := ∅; requestSeq := 0; closed := ∅ |}.

Definition normalizeHost (host : list ascii) : list ascii :=
  let host := TrimSpace (ToLower host) in
  if bool_decide (host = []) then []
  else if Contains host (go ":") then
    match Net.SplitHostPort host with
    | Ok (h, _) => TrimSpace (ToLower h)
    | Err _ =>
        if bool_decide (Count host ":" = 1%nat)
        then TrimSpace (ToLower (default [] (Split host ":" !! 0%nat)))
        else host
    end
  else host.

(** The loop of [cleanupAgent] and [applyRoutes] that deletes every
    binding of [token]. *)
Definition purge (token : list ascii)
    (table : gmap (list ascii) routeBinding)
  : gmap (list ascii) routeBinding :=
  filter (λ hb, Token hb.2 ≠ token) table.

(** One iteration of the insertion loop of [applyRoutes]. *)
Definition applyRoute (token : list ascii)
    (table : gmap (list ascii) routeBinding) (route : Route)
  : gmap (list ascii) routeBinding :=
  let host := normalizeHost (Hostname route) in
  let target := TrimSpace (Protocol.Target route) in
  if bool_decide (host = []) || bool_decide (target = []) then table
  else <[host := {| Token := token; Target := target |}]> table.

Definition applyRoutes (token : list ascii) (rs : list Route)
    (s : TunnelServer) : TunnelServer :=
  {| agents := agents s;
     routes := foldl (applyRoute token) (purge token (routes s)) rs;
     requestSeq := requestSeq s;
     closed := closed s |}.

(** [swapAgent]: returns the previous session, [None] for [nil]. *)
Definition swapAgent (token : list ascii) (next : AgentSession)
    (s : TunnelServer) : option AgentSession * TunnelServer :=
  (agents s !! token,
   {| agents := <[token := next]> (agents s);
      routes := routes s;
      requestSeq := requestSeq s;
      closed := closed s |}).

Definition closeConn (c : nat) (s : TunnelServer) : TunnelServer :=
  {| agents := agents s; routes := routes s;
     requestSeq := requestSeq s; closed := {[c]} ∪ closed s |}.

Definition cleanupAgent (session : AgentSession) (s : TunnelServer)
  : TunnelServer :=
  if bool_decide (agents s !! SessionToken session = Some session) then
    {| agents := delete (SessionToken session) (agents s);
       routes := purge (SessionToken session) (routes s);
       requestSeq := requestSeq s;
       closed := closed s |}
  else s.

(** [HandleConnect] up to the call of [readLoop]: [rawToken] is the
    [token] query parameter, [upgrade] the connection obtained from
    the upgrader ([None] when the upgrade fails).  The reply is the
    plain HTTP answer that [HandleConnect] writes itself, if it writes
    one (the error reply that the upgrader writes when the upgrade
    fails is not part of the model); the session is the one whose
    reader then starts. *)
Definition HandleConnect (rawToken : list ascii) (upgrade : option nat)
    (s : TunnelServer)
  : option HTTP.Response * option AgentSession * TunnelServer :=
  let token := TrimSpace rawToken in
  if bool_decide (token = []) then
    (Some (HTTP.Error "missing token" HTTP.StatusBadRequest), None, s)
  else
    match upgrade with
    | None => (None, None, s)
    | Some conn =>
        let session := {| SessionToken := token; Conn := conn |} in
        let '(previous, s1) := swapAgent token session s in
        let s2 := match previous with
                  | Some p => closeConn (Conn p) s1
                  | None => s1
                  end in
        (None, Some session, s2)
    end.

(** One turn of the loop of [readLoop]: the dispatch on the type of a
    message read from [session]. *)
Definition dispatch (session : AgentSession) (env : Envelope)
    (s : TunnelServer) : TunnelServer :=
  if bool_decide (Type_ env = TypeRegisterRoutes)
  then applyRoutes (SessionToken session) (Routes env) s
  else s.

(** The deferred function of [readLoop], run when a read fails. *)
Definition readLoopExit (session : AgentSession) (s : TunnelServer)
  : TunnelServer :=
  closeConn (Conn session) (cleanupAgent session s).

(** What happens at the gateway's control endpoint, in the order in
    which the registry and the table are locked. *)
Inductive event :=
| Connect (rawToken : list ascii) (upgrade : option nat)
| Receive (session : AgentSession) (env : Envelope)
| ReadFailed (session : AgentSession).

Definition step (s : TunnelServer) (e : event) : TunnelServer :=
  match e with
  | Connect rawToken upgrade => (HandleConnect rawToken upgrade s).2
  | Receive session env => dispatch session env s
  | ReadFailed session => readLoopExit session s
  end.

Definition run (es : list event) : TunnelServer := foldl step New es.

Definition stripHopHeaders_keys : list (list ascii) :=
  [go "Connection"; go "Proxy-Connection"; go "Keep-Alive";
   go "Proxy-Authenticate"; go "Proxy-Authorization"; go "Te";
   go "Trailer"; go "Transfer-Encoding"; go "Upgrade"].

Definition stripHopHeaders (headers : gmap (list ascii) (list (list ascii)))
  : gmap (list ascii) (list (list ascii)) :=
  foldl (λ h key, delete (ToLower key) (delete key h))
        headers stripHopHeaders_keys.

Definition extractClientIP (remoteAddr : list ascii) : list ascii :=
  match Net.SplitHostPort remoteAddr with
  | Ok (host, _) => host
  | Err _ => remoteAddr
  end.

(** A public request as the handler reads it. *)
Record Request := {
  Host : list ascii;
  ReqMethod : list ascii;
  URLPath : list ascii;
  RawQuery : list ascii;
  Header : gmap (list ascii) (list (list ascii));
  ReqBody : IO.Reader;
  RemoteAddr : list ascii;
  TLS : bool;
}.

Definition appendXForwarded
    (headers : gmap (list ascii) (list (list ascii))) (r : Request)
  : gmap (list ascii) (list (list ascii)) :=
  let clientIP := extractClientIP (RemoteAddr r) in
  let h1 :=
    if bool_decide (clientIP ≠ [])
    then <[go "X-Forwarded-For" :=
             default [] (headers !! go "X-Forwarded-For") ++ [clientIP]]>
           headers
    else headers in
  let h2 := <[go "X-Forwarded-Host" := [normalizeHost (Host r)]]> h1 in
  <[go "X-Forwarded-Proto" := [if TLS r then go "https" else go "http"]]> h2.

(** [writeResponse]: the headers of the envelope are added one by one,
    the header is written with the status, and only then is the body
    decoded.  The reply is given for a status that [WriteHeader]
    accepts; on a status outside 100..999 [WriteHeader] panics, which
    is not part of the model. *)
Definition writeResponse (resp : Envelope) : HTTP.Response :=
  let status := if bool_decide (Status resp = 0)
                then HTTP.StatusBadGateway else Status resp in
  let hdr :=
    map_fold (λ k v w, foldl (λ w item, HTTP.HeaderAdd k item w) w v)
             ∅ (Headers resp) in
  {| HTTP.status := status;
     HTTP.header := hdr;
     HTTP.body :=
       if bool_decide (Body resp = []) then []
       else match Base64.DecodeString (Body resp) with
            | None => go "decode response body failed"
            | Some body => body
            end |}.

(** [strconv.FormatUint(n, 10)]. *)
Definition FormatUint (n : Z) : list ascii :=
  go (NilEmpty.string_of_uint (N.to_uint (Z.to_N n))).

(** What the tunnel does with one proxied request: whether the write
    of the envelope on the session succeeds, and the [proxy_response]
    that reaches the response slot before the request timeout
    ([None]: the timer fires first). *)
Record Tunnel := {
  write_ok : bool;
  arrival : option Envelope;
}.

(** The result of the public handler: the reply to the public client,
    the envelope handed to [session.Write] if that point is reached,
    and the server state. *)
Record Handled := {
  reply : HTTP.Response;
  sent : option Envelope;
  after : TunnelServer;
}.

Definition HandlePublicHTTP (s : TunnelServer) (t : Tunnel) (r : Request)
  : Handled :=
  let host := normalizeHost (Host r) in
  if bool_decide (host = []) then
    {| reply := HTTP.Error "invalid host" HTTP.StatusBadRequest;
       sent := None; after := s |}
  else
    match routes s !! host with
    | None => {| reply := HTTP.NotFound; sent := None; after := s |}
    | Some binding =>
        match agents s !! Token binding with
        | None =>
            {| reply := HTTP.Error "tunnel offline"
                          HTTP.StatusServiceUnavailable;
               sent := None; after := s |}
        | Some session =>
            match IO.ReadAllLimit (ReqBody r) maxBodySize with
            | Err _ =>
                {| reply := HTTP.Error "read request failed"
                              HTTP.StatusBadRequest;
                   sent := None; after := s |}
            | Ok body =>
                let headers :=
                  appendXForwarded
                    (stripHopHeaders (CloneHeaders (Header r))) r in
                let seq := (requestSeq s + 1) mod 2 ^ 64 in
                let s' := {| agents := agents s; routes := routes s;
                             requestSeq := seq; closed := closed s |} in
                let env :=
                  {| Type_ := TypeProxyRequest;
                     RequestID := FormatUint seq;
                     Method := ReqMethod r;
                     Path := URLPath r;
                     Query := RawQuery r;
                     Headers := headers;
                     Body := Base64.EncodeToString body;
                     Status := 0;
                     EnvHostname := host;
                     EnvTarget := Target binding;
                     Routes := [];
                     Message := [] |} in
                if negb (write_ok t) then
                  {| reply := HTTP.Error "send to tunnel failed"
                                HTTP.StatusBadGateway;
                     sent := Some env; after := s' |}
                else
                  match arrival t with
                  | Some resp =>
                      {| reply := writeResponse resp;
                         sent := Some env; after := s' |}
                  | None =>
                      {| reply := HTTP.Error "tunnel timeout"
                                    HTTP.StatusGatewayTimeout;
                         sent := Some env; after := s' |}
                  end
            end
        end
    end.

(** ** The pending response slots of a session

    A channel is identified by the order in which [HandlePublicHTTP]
    made it.  For each channel the model keeps the request id it was
    made for and every envelope sent on it; a channel has room for one
    envelope, so that a second send on the same channel would block
    the reader of the session. *)
Record Slots := {
  pending : gmap (list ascii) nat;
  chans : list (list ascii * list Envelope);
}.

Definition noSlots : Slots := {| pending := ∅; chans := [] |}.

Definition AddPending (requestID : list ascii) (ch : nat) (sl : Slots)
  : Slots :=
  {| pending := <[requestID := ch]> (pending sl); chans := chans sl |}.

Definition PopPending (requestID : list ascii) (sl : Slots)
  : option nat * Slots :=
  match pending sl !! requestID with
  | Some ch =>
      (Some ch, {| pending := delete requestID (pending sl);
                   chans := chans sl |})
  | None => (None, sl)
  end.

Definition RemovePending (requestID : list ascii) (sl : Slots) : Slots :=
  {| pending := delete requestID (pending sl); chans := chans sl |}.

(** [ch <- env]. *)
Definition chanSend (ch : nat) (env : Envelope) (sl : Slots) : Slots :=
  {| pending := pending sl;
     chans := alter (λ c, (c.1, c.2 ++ [env])) ch (chans sl) |}.

(** [HandlePublicHTTP]: [make(chan protocol.Envelope, 1)] and
    [AddPending]. *)
Definition awaitResponse (requestID : list ascii) (sl : Slots) : Slots :=
  AddPending requestID (length (chans sl))
    {| pending := pending sl; chans := chans sl ++ [(requestID, [])] |}.

(** The switch of [readLoop] on a message of the agent, on the slots. *)
Definition deliver (env : Envelope) (sl : Slots) : Slots :=
  if bool_decide (Type_ env = TypeRegisterRoutes) then sl
  else if bool_decide (Type_ env = TypeProxyResponse) then
    if bool_decide (RequestID env = []) then sl
    else match PopPending (RequestID env) sl with
         | (Some ch, sl') => chanSend ch env sl'
         | (None, sl') => sl'
         end
  else sl.

(** What happens to the slots of one session: a public handler starts
    to wait under a request id, a handler returns (the deferred
    [RemovePending]), the reader gets a message from the agent. *)
Inductive slotEvent :=
| Await (requestID : list ascii)
| Finished (requestID : list ascii)
| Reads (env : Envelope).

Definition slotStep (sl : Slots) (e : slotEvent) : Slots :=
  match e with
  | Await requestID => awaitResponse requestID sl
  | Finished requestID => RemovePending requestID sl
  | Reads env => deliver env sl
  end.

(** Public requests handled one after the other: the envelopes handed
    to [session.Write]. *)
Fixpoint serve (s : TunnelServer) (rs : list (Tunnel * Request))
  : list Envelope :=
  match rs with
  | [] => []
  | (t, r) :: rs' =>
      let out := HandlePublicHTTP s t r in
      match sent out with
      | Some env => env :: serve (after out) rs'
      | None => serve (after out) rs'
      end
  end.

End Server.

(** ** Package [agent]: normalizers and [ConfigStore] ([config.go]) *)
Module Agent.
Import Strings Protocol.

Definition NormalizeHostname (hostname : list ascii) : result (list ascii) :=
  let host := TrimSpace (ToLower hostname) in
  let host := TrimSuffix host (go ".") in
  if bool_decide (host = []) then Err "hostname is required"
  else if Contains host (go " ") then Err "hostname cannot contain spaces"
  else if Contains host (go ":") then Err "hostname cannot include port"
  else if negb (Contains host (go "."))
  then Err "hostname must be a domain, e.g. app.example.com"
  else Ok host.

Definition NormalizeTarget (target : list ascii) : result (list ascii) :=
  let t := TrimSpace target in
  if bool_decide (t = []) then Err "target is required"
  else if Contains t (go "http://") || Contains t (go "https://")
  then Err "target should be host:port, e.g. 127.0.0.1:3000"
  else if negb (Contains t (go ":"))
  then Err "target must include port, e.g. 127.0.0.1:3000"
  else Ok t.

(** Go's [<] on strings: bytewise lexicographic order. *)
Fixpoint bytes_lt (a b : list ascii) : bool :=
  match a, b with
  | _, [] => false
  | [], _ :: _ => true
  | x :: a', y :: b' =>
      (N_of_ascii x <? N_of_ascii y)%N
      || (bool_decide (x = y) && bytes_lt a' b')
  end.

(** The order that [sort.Slice] is asked to establish: [r2] is not
    less than [r1] by hostname. *)
Definition hostname_le (r1 r2 : Route) : Prop :=
  bytes_lt (Hostname r2) (Hostname r1) = false.

Global Instance hostname_le_dec : RelDecision hostname_le.
Proof. intros r1 r2. unfold hostname_le. apply _. Defined.

Record fileConfig := {
  FileRoutes : list Route;
}.

(** A route as [encoding/json] writes it and reads it. *)
Definition jsonRoute (r : Route) : Route :=
  {| Hostname := JSON.text (Hostname r); Target := JSON.text (Target r) |}.

(** A file on disk.  The JSON text is represented by the document it
    encodes, whose strings pass through [JSON.text] at each crossing
    ([jsonRoute]); [Corrupt] is a file that [json.Unmarshal] rejects. *)
Inductive content :=
| Json (cfg : fileConfig)
| Corrupt.

(** The system calls that may fail. *)
Inductive syscall := ReadFile | MkdirAll | WriteFile | Rename.

Global Instance syscall_eq_dec : EqDecision syscall.
Proof. solve_decision. Defined.

(** The file system: the files by path, and the call that fails, if
    one does. *)
Record Disk := {
  files : gmap (list ascii) content;
  failing : option syscall;
}.

Record ConfigStore := {
  path : list ascii;
  routes : gmap (list ascii) Route;
}.

(** One iteration of the loop of [load]. *)
Definition loadRoute (m : gmap (list ascii) Route) (route : Route)
  : gmap (list ascii) Route :=
  match NormalizeHostname (Hostname route) with
  | Err _ => m
  | Ok host =>
      match NormalizeTarget (Target route) with
      | Err _ => m
      | Ok target => <[host := {| Hostname := host; Target := target |}]> m
      end
  end.

(** [load]: the error, if any, and the store. *)
Definition load (s : ConfigStore) (d : Disk) : option string * ConfigStore :=
  match files d !! path s with
  | None => (None, s)
  | Some c =>
      if bool_decide (failing d = Some ReadFile)
      then (Some "read config", s)
      else match c with
           | Corrupt => (Some "parse config", s)
           | Json cfg =>
               (None, {| path := path s;
                         routes := foldl loadRoute (routes s)
                                         (jsonRoute <$> FileRoutes cfg) |})
           end
  end.

Definition NewConfigStore (p : list ascii) (d : Disk) : result ConfigStore :=
  match load {| path := p; routes := ∅ |} d with
  | (Some err, _) => Err err
  | (None, store) => Ok store
  end.

(** [snapshotLocked]: the routes of the map, sorted by hostname. *)
Definition snapshotLocked (s : ConfigStore) : list Route :=
  merge_sort hostname_le ((map_to_list (routes s)).*2).

Definition List (s : ConfigStore) : list Route :=
  merge_sort hostname_le ((map_to_list (routes s)).*2).

(** [saveLocked]: write to a temporary file, then rename. *)
Definition saveLocked (s : ConfigStore) (d : Disk) : option string * Disk :=
  let cfg := {| FileRoutes := jsonRoute <$> snapshotLocked s |} in
  if bool_decide (failing d = Some MkdirAll)
  then (Some "create config dir", d)
  else
    let tmp := path s ++ go ".tmp" in
    if bool_decide (failing d = Some WriteFile)
    then (Some "write temp config", d)
    else
      let d1 := {| files := <[tmp := Json cfg]> (files d);
                   failing := failing d |} in
      if bool_decide (failing d = Some Rename)
      then (Some "replace config", d1)
      else (None, {| files := <[path s := Json cfg]> (delete tmp (files d1));
                     failing := failing d |}).

Definition Upsert (hostname target : list ascii) (s : ConfigStore) (d : Disk)
  : option string * ConfigStore * Disk :=
  match NormalizeHostname hostname with
  | Err e => (Some e, s, d)
  | Ok host =>
      match NormalizeTarget target with
      | Err e => (Some e, s, d)
      | Ok normalizedTarget =>
          let s' := {| path := path s;
                       routes := <[host := {| Hostname := host;
                                              Target := normalizedTarget |}]>
                                   (routes s) |} in
          let '(err, d') := saveLocked s' d in
          (err, s', d')
      end
  end.

Definition Delete (hostname : list ascii) (s : ConfigStore) (d : Disk)
  : option string * ConfigStore * Disk :=
  match NormalizeHostname hostname with
  | Err e => (Some e, s, d)
  | Ok host =>
      let s' := {| path := path s; routes := delete host (routes s) |} in
      let '(err, d') := saveLocked s' d in
      (err, s', d')
  end.

(** The first loop of [ReplaceAll]: the map [next], or the error of
    the first route that does not normalize. *)
Fixpoint buildNext (next : gmap (list ascii) Route) (rs : list Route)
  : result (gmap (list ascii) Route) :=
  match rs with
  | [] => Ok next
  | route :: rs' =>
      match NormalizeHostname (Hostname route) with
      | Err e => Err e
      | Ok host =>
          match NormalizeTarget (Target route) with
          | Err e => Err e
          | Ok target =>
              buildNext (<[host := {| Hostname := host; Target := target |}]>
                           next) rs'
          end
      end
  end.

(** The comparison of [next] with the current routes. *)
Definition sameRoutes (next current : gmap (list ascii) Route) : bool :=
  bool_decide (size next = size current)
  && forallb (λ hr : list ascii * Route,
                match current !! hr.1 with
                | Some cur => bool_decide (Target cur = Target hr.2)
                | None => false
                end)
             (map_to_list next).

(** [ReplaceAll]: [(changed, err)], the store and the disk. *)
Definition ReplaceAll (rs : list Route) (s : ConfigStore) (d : Disk)
  : (bool * option string) * ConfigStore * Disk :=
  match buildNext ∅ rs with
  | Err e => ((false, Some e), s, d)
  | Ok next =>
      if sameRoutes next (routes s) then ((false, None), s, d)
      else
        let s' := {| path := path s; routes := next |} in
        match saveLocked s' d with
        | (Some e, d') => ((false, Some e), s', d')
        | (None, d') => ((true, None), s', d')
        end
  end.

End Agent.

(** ** The JSON coding of the control connection

    An envelope goes over the control connection as JSON
    ([WriteJSON], [ReadJSON]): what the reader gets is the envelope
    that was written with every string passed through [JSON.text]. *)
Module Wire.
Import Protocol.

Definition key_le (a b : list ascii * list (list ascii)) : Prop :=
  Agent.bytes_lt b.1 a.1 = false.

Global Instance key_le_dec : RelDecision key_le.
Proof. intros a b. unfold key_le. apply _. Defined.

(** A header map: [json.Marshal] writes the keys in ascending order,
    and on reading a key replaces an earlier one that has become equal
    to it. *)
Definition headers (h : gmap (list ascii) (list (list ascii)))
  : gmap (list ascii) (list (list ascii)) :=
  foldl (λ m kv, <[JSON.text kv.1 := JSON.text <$> kv.2]> m) ∅
        (merge_sort key_le (map_to_list h)).

Definition envelope (e : Envelope) : Envelope :=
  {| Type_ := JSON.text (Type_ e);
     RequestID := JSON.text (RequestID e);
     Method := JSON.text (Method e);
     Path := JSON.text (Path e);
     Query := JSON.text (Query e);
     Headers := headers (Headers e);
     Body := JSON.text (Body e);
     Status := Status e;
     EnvHostname := JSON.text (EnvHostname e);
     EnvTarget := JSON.text (EnvTarget e);
     Routes := Agent.jsonRoute <$> Routes e;
     Message := JSON.text (Message e) |}.

End Wire.

(** ** Package [net/url] *)
Module URL.

Definition ishex (c : ascii) : bool :=
  let n := N_of_ascii c in
  ((48 <=? n) && (n <=? 57) || (97 <=? n) && (n <=? 102)
   || (65 <=? n) && (n <=? 70))%N.

Definition unhex (c : ascii) : N :=
  let n := N_of_ascii c in
  (if (48 <=? n) && (n <=? 57) then n - 48
   else if (97 <=? n) && (n <=? 102) then n - 97 + 10
   else if (65 <=? n) && (n <=? 70) then n - 65 + 10
   else 0)%N.

(** [unescape] in the mode of a path segment: [%XX] is decoded, a [%]
    that is not followed by two hexadecimal digits is an error, every
    other byte is copied. *)
Fixpoint unescape (s : list ascii) : option (list ascii) :=
  match s with
  | [] => Some []
  | c :: rest =>
      if bool_decide (c = "%"%char) then
        match rest with
        | a :: b :: rest' =>
            if ishex a && ishex b
            then cons (ascii_of_N (N.lor (N.shiftl (unhex a) 4) (unhex b)))
                   <$> unescape rest'
            else None
        | _ => None
        end
      else cons c <$> unescape rest
  end.

(** [url.PathUnescape]. *)
Definition PathUnescape (s : list ascii) : option (list ascii) := unescape s.

End URL.

(** ** Package [agent]: the proxy executor ([service.go]) *)
Module Service.
Import Strings Protocol.

Definition maxProxyBodySize : Z := Z.shiftl 10 20.

Definition stripHopHeaders_keys : list (list ascii) :=
  [go "Connection"; go "Proxy-Connection"; go "Keep-Alive";
   go "Proxy-Authenticate"; go "Proxy-Authorization"; go "Te";
   go "Trailer"; go "Transfer-Encoding"; go "Upgrade"].

Definition stripHopHeaders (headers : gmap (list ascii) (list (list ascii)))
  : gmap (list ascii) (list (list ascii)) :=
  foldl (λ h key, delete (ToLower key) (delete key h))
        headers stripHopHeaders_keys.

(** The request sent to the local target. *)
Record LocalRequest := {
  LocalMethod : list ascii;
  LocalURL : list ascii;
  LocalHost : list ascii;
  LocalHeader : gmap (list ascii) (list (list ascii));
  LocalBody : list ascii;
}.

(** The reply of the local target. *)
Record LocalResponse := {
  StatusCode : Z;
  RespHeader : gmap (list ascii) (list (list ascii));
  RespBody : IO.Reader;
}.

(** The local side of the agent: [http.NewRequest] on a method and a
    URL gives the host of the parsed URL or fails; [httpClient.Do]
    gives a response or an error. *)
Record LocalSide := {
  NewRequest : list ascii → list ascii → option (list ascii);
  Do : LocalRequest → result LocalResponse;
}.

Definition plain : gmap (list ascii) (list (list ascii)) :=
  {[ go "Content-Type" := [go "text/plain; charset=utf-8"] ]}.

(** The URL and the headers of the local request (the lines between
    the decoding of the body and the call of the client). *)
Definition localRequest (req : Envelope) (urlHost body : list ascii)
  : LocalRequest :=
  let fullURL := go "http://" ++ EnvTarget req ++ Path req in
  let fullURL := if bool_decide (Query req ≠ [])
                 then fullURL ++ go "?" ++ Query req else fullURL in
  {| LocalMethod := Method req;
     LocalURL := fullURL;
     LocalHost := if bool_decide (EnvHostname req ≠ [])
                  then EnvHostname req else urlHost;
     LocalHeader :=
       stripHopHeaders
         (map_fold (λ k v h, foldl (λ h item, HTTP.HeaderAdd k item h) h v)
                   ∅ (Headers req));
     LocalBody := body |}.

Definition forwardToLocal (side : LocalSide) (req : Envelope)
  : Z * gmap (list ascii) (list (list ascii)) * list ascii :=
  if bool_decide (EnvTarget req = []) then
    (HTTP.StatusBadGateway, plain, go "missing target")
  else
    match Base64.DecodeString (Body req) with
    | None => (HTTP.StatusBadRequest, plain, go "invalid request body")
    | Some body =>
        let localReq := localRequest req [] body in
        match NewRequest side (Method req) (LocalURL localReq) with
        | None =>
            (HTTP.StatusBadGateway, plain, go "build local request failed")
        | Some urlHost =>
            let localReq := localRequest req urlHost body in
            match Do side localReq with
            | Err e =>
                (HTTP.StatusBadGateway, plain,
                 go "local request failed: " ++ go e)
            | Ok localResp =>
                match IO.ReadAllLimit (RespBody localResp)
                                      maxProxyBodySize with
                | Err _ =>
                    (HTTP.StatusBadGateway, plain,
                     go "read local response failed")
                | Ok respBody =>
                    (StatusCode localResp,
                     stripHopHeaders ((λ v, v) <$> RespHeader localResp),
                     respBody)
                end
            end
        end
    end.

(** [handleProxyRequest]: the [proxy_response] written back. *)
Definition handleProxyRequest (side : LocalSide) (req : Envelope)
  : Envelope :=
  let '(status, headers, body) := forwardToLocal side req in
  {| Type_ := TypeProxyResponse;
     RequestID := RequestID req;
     Method := []; Path := []; Query := [];
     Headers := headers;
     Body := Base64.EncodeToString body;
     Status := status;
     EnvHostname := []; EnvTarget := []; Routes := []; Message := [] |}.

(** The request that [forwardToLocal] hands to the client of the local
    target, when it gets that far. *)
Definition localCall (side : LocalSide) (req : Envelope)
  : option LocalRequest :=
  if bool_decide (EnvTarget req = []) then None
  else
    match Base64.DecodeString (Body req) with
    | None => None
    | Some body =>
        match NewRequest side (Method req)
                (LocalURL (localRequest req [] body)) with
        | None => None
        | Some urlHost => Some (localRequest req urlHost body)
        end
    end.

(** [tokenHint]. *)
Definition tokenHint (token : list ascii) : list ascii :=
  if (length token <=? 8)%nat then token
  else take 4 token ++ go "..." ++ drop (length token - 4) token.

(** A [time.Duration] is an [int64] of nanoseconds. *)
Definition Second : Z := 1000000000.

Definition int64 (z : Z) : Z := (z + 2 ^ 63) mod 2 ^ 64 - 2 ^ 63.

(** The update of [backoff] at the end of one turn of [connectLoop]. *)
Definition nextBackoff (backoff : Z) : Z :=
  if backoff <? 10 * Second then
    let backoff := int64 (backoff * 2) in
    if backoff >? 10 * Second then 10 * Second else backoff
  else backoff.

(** The wait of [connectLoop] after its [n+1]-th attempt. *)
Definition backoffAfter (n : nat) : Z := Nat.iter n nextBackoff Second.

(** The fields of [Service] that the admin handlers and the route sync
    use: the store with the disk under it, the control connection
    ([None]: offline; [Some w]: a connection on which [WriteJSON]
    succeeds if [w] holds), the address of the control plane, and the
    envelopes written on the control connection so far. *)
Record ServiceState := {
  store : Agent.ConfigStore;
  disk : Agent.Disk;
  conn : option bool;
  routeSyncURL : list ascii;
  wire : list Envelope;
}.

Definition withStore (st : ServiceState) (s : Agent.ConfigStore)
    (d : Agent.Disk) : ServiceState :=
  {| store := s; disk := d; conn := conn st;
     routeSyncURL := routeSyncURL st; wire := wire st |}.

Definition writeEnvelope (env : Envelope) (st : ServiceState)
  : option string * ServiceState :=
  match conn st with
  | None => (Some "tunnel is offline", st)
  | Some false => (Some "write websocket", st)
  | Some true =>
      (None, {| store := store st; disk := disk st; conn := conn st;
                routeSyncURL := routeSyncURL st;
                wire := wire st ++ [env] |})
  end.

Definition publishRoutes (st : ServiceState) : option string * ServiceState :=
  writeEnvelope
    {| Type_ := TypeRegisterRoutes; RequestID := []; Method := [];
       Path := []; Query := []; Headers := ∅; Body := []; Status := 0;
       EnvHostname := []; EnvTarget := [];
       Routes := Agent.List (store st); Message := [] |} st.

Definition SyncRoutes (st : ServiceState) : option string * ServiceState :=
  publishRoutes st.

Definition errText (err : option string) : list ascii :=
  match err with None => [] | Some e => go e end.

(** What an admin handler writes: a JSON object or a plain text. *)
Inductive AdminBody :=
| RoutesJSON (routes : list Route)
| MutationJSON (sync_ok : bool) (routes : list Route) (warning : list ascii)
| ErrorJSON (msg : list ascii)
| PlainText (msg : list ascii).

Record AdminReply := {
  adminStatus : Z;
  adminBody : AdminBody;
}.

Definition errorJSON (status : Z) (msg : string) : AdminReply :=
  {| adminStatus := status; adminBody := ErrorJSON (go msg) |}.

Definition methodNotAllowed : AdminReply :=
  {| adminStatus := 405; adminBody := PlainText (go "method not allowed") |}.

(** The reply of a mutation that has been applied to the store. *)
Definition mutated (st : ServiceState) : AdminReply * ServiceState :=
  let '(syncErr, st') := SyncRoutes st in
  ({| adminStatus := 200;
      adminBody := MutationJSON (bool_decide (syncErr = None))
                     (Agent.List (store st')) (errText syncErr) |}, st').

(** [handleRoutes]: [payload] is the decoded body of the request,
    [None] when it is not the JSON of a [routePayload]. *)
Definition handleRoutes (method : list ascii)
    (payload : option (list ascii * list ascii)) (st : ServiceState)
  : AdminReply * ServiceState :=
  if bool_decide (method = go "GET") then
    ({| adminStatus := 200;
        adminBody := RoutesJSON (Agent.List (store st)) |}, st)
  else if bool_decide (method = go "POST") then
    if bool_decide (routeSyncURL st ≠ []) then
      (errorJSON 403 "routes are managed by control plane", st)
    else
      match payload with
      | None => (errorJSON 400 "invalid json", st)
      | Some (hostname, target) =>
          match Agent.Upsert hostname target (store st) (disk st) with
          | (Some e, s', d') => (errorJSON 400 e, withStore st s' d')
          | (None, s', d') => mutated (withStore st s' d')
          end
      end
  else (methodNotAllowed, st).

(** [handleRouteByHost]: [urlPath] is [r.URL.Path]. *)
Definition handleRouteByHost (method urlPath : list ascii)
    (st : ServiceState) : AdminReply * ServiceState :=
  if bool_decide (method ≠ go "DELETE") then (methodNotAllowed, st)
  else if bool_decide (routeSyncURL st ≠ []) then
    (errorJSON 403 "routes are managed by control plane", st)
  else
    let host := TrimPrefix urlPath (go "/api/routes/") in
    let host := default [] (URL.PathUnescape host) in
    if bool_decide (host = []) then
      (errorJSON 400 "hostname is required", st)
    else
      match Agent.Delete host (store st) (disk st) with
      | (Some e, s', d') => (errorJSON 400 e, withStore st s' d')
      | (None, s', d') => mutated (withStore st s' d')
      end.

(** What the control plane does with the request of the route sync:
    no answer (the request cannot be built or fails), or an answer
    with a status and, if its body is the JSON of a
    [syncedRoutesPayload], the routes of that payload. *)
Inductive ControlAnswer :=
| NoAnswer
| Answer (status : Z) (payload : option (list Route)).

Definition syncRoutesFromControl (answer : ControlAnswer)
    (st : ServiceState) : ServiceState :=
  match answer with
  | NoAnswer => st
  | Answer status payload =>
      if bool_decide (status ≠ 200) then st
      else
        match payload with
        | None => st
        | Some routes =>
            match Agent.ReplaceAll routes (store st) (disk st) with
            | ((_, Some _), s', d') => withStore st s' d'
            | ((false, None), s', d') => withStore st s' d'
            | ((true, None), s', d') =>
                (publishRoutes (withStore st s' d')).2
            end
        end
  end.

End Service.


(** * Vocabulary of the statements *)

Section vocabulary.
Import Strings Protocol.

(** Every byte is its own lower case. *)
Definition lowered (s : list ascii) : Prop := Forall (λ c, lower c = c) s.

(** The first byte, if there is one, is not white space. *)
Definition starts_clean (s : list ascii) : Prop :=
  match s with [] => True | c :: _ => is_space c = false end.

(** No white space at either end. *)
Definition trimmed (s : list ascii) : Prop :=
  starts_clean s ∧ starts_clean (reverse s).

(** [t] is a contiguous piece of [s]. *)
Definition segment (t s : list ascii) : Prop := ∃ a b, s = a ++ t ++ b.


(** The route [r] of a [register_routes] payload asks for the table
    entry [h]: its hostname normalizes to [h] at the gateway and neither
    [h] nor the trimmed target is empty. *)
Definition claims (r : Route) (h : list ascii) : Prop :=
  Server.normalizeHost (Hostname r) = h ∧ h ≠ []
  ∧ TrimSpace (Target r) ≠ [].

Global Instance claims_dec r h : Decision (claims r h).
Proof. unfold claims. apply _. Defined.

Definition bindingOf (token : list ascii) (r : Route) : Server.routeBinding :=
  {| Server.Token := token; Server.Target := TrimSpace (Target r) |}.

(** [b] is what the payload [rs] of [token] publishes under [h]: the
    binding of the last route of [rs] that claims [h]. *)
Definition published (token : list ascii) (rs : list Route)
    (h : list ascii) (b : Server.routeBinding) : Prop :=
  ∃ rs1 r rs2,
    rs = rs1 ++ r :: rs2 ∧ claims r h ∧ b = bindingOf token r
    ∧ Forall (λ r', ¬ claims r' h) rs2.

(** Every session is registered under its own token. *)
Definition registry_ok (s : Server.TunnelServer) : Prop :=
  ∀ k a, Server.agents s !! k = Some a → Server.SessionToken a = k.

(** A [register_routes] envelope. *)
Definition register (rs : list Route) : Envelope :=
  {| Type_ := TypeRegisterRoutes; RequestID := []; Method := []; Path := [];
     Query := []; Headers := ∅; Body := []; Status := 0; EnvHostname := [];
     EnvTarget := []; Routes := rs; Message := [] |}.

(** A [proxy_response] envelope with a status and a body. *)
Definition response (status : Z) (body : list ascii) : Envelope :=
  {| Type_ := TypeProxyResponse; RequestID := go "1"; Method := [];
     Path := []; Query := []; Headers := ∅; Body := body;
     Status := status; EnvHostname := []; EnvTarget := []; Routes := [];
     Message := [] |}.

(** [k] names a hop-by-hop header, in whatever case it is written. *)
Definition is_hop (k : list ascii) : Prop :=
  ToLower k ∈ ToLower <$> Server.stripHopHeaders_keys.

Global Instance is_hop_dec k : Decision (is_hop k).
Proof. unfold is_hop. apply _. Defined.

(** The two spellings that [stripHopHeaders] deletes: as in the list,
    and all in lower case. *)
Definition is_hop_spelling (k : list ascii) : Prop :=
  k ∈ Server.stripHopHeaders_keys ∨ k ∈ ToLower <$> Server.stripHopHeaders_keys.

(** The keys of a header map are in canonical MIME form, as [net/http]
    delivers them. *)
Definition canonical_keys (h : gmap (list ascii) (list (list ascii))) : Prop :=
  ∀ k, is_Some (h !! k) → Textproto.CanonicalMIMEHeaderKey k = k.

(** A route that both normalizers of [config.go] leave as it is. *)
Definition normal (r : Route) : Prop :=
  Agent.NormalizeHostname (Hostname r) = Ok (Hostname r)
  ∧ Agent.NormalizeTarget (Target r) = Ok (Target r).

(** A valid [ConfigStore]: every route is stored under its hostname and
    is in normal form. *)
Definition valid_store (s : Agent.ConfigStore) : Prop :=
  ∀ h r, Agent.routes s !! h = Some r → Hostname r = h ∧ normal r.

(** The strings of the store are valid UTF-8, as every string is that
    [encoding/json] has decoded: the payloads of the admin interface
    and of the route sync, and the routes of the configuration file. *)
Definition utf8_store (s : Agent.ConfigStore) : Prop :=
  ∀ h r, Agent.routes s !! h = Some r →
    Utf8.ValidString (Hostname r) = true ∧ Utf8.ValidString (Target r) = true.

(** A string of ASCII text: every byte is below 128. *)
Definition ascii_text (s : list ascii) : Prop :=
  Forall (λ c, (N_of_ascii c < 128)%N) s.

(** A route that [ReplaceAll] cannot normalize. *)
Definition invalid (r : Route) : Prop :=
  is_ok (Agent.NormalizeHostname (Hostname r)) = false
  ∨ is_ok (Agent.NormalizeTarget (Target r)) = false.

End vocabulary.

(** ** Concrete inputs *)

Section inputs.
Import Protocol Server.

Definition route (h t : string) : Route :=
  {| Hostname := go h; Protocol.Target := go t |}.

Definition binding (tok t : string) : routeBinding :=
  {| Token := go tok; Target := go t |}.

Definition session (tok : string) (c : nat) : AgentSession :=
  {| SessionToken := go tok; Conn := c |}.

(** A gateway with one session and one binding. *)
Definition oneTunnel : TunnelServer :=
  run [Connect (go "t") (Some 1%nat);
       Receive (session "t" 1) (register [route "a.b" "x:1"])].

Definition request (host : string) (headers : gmap (list ascii) (list (list ascii)))
    (body : IO.Reader) : Request :=
  {| Host := go host; ReqMethod := go "POST"; URLPath := go "/";
     RawQuery := []; Header := headers; ReqBody := body;
     RemoteAddr := go "1.2.3.4:5"; TLS := false |}.

Definition bytes (s : string) : IO.Reader :=
  {| IO.data := go s; IO.fails := false |}.

(** A body of 10 MiB and one byte. *)
Definition oversized : list ascii :=
  replicate (Z.to_nat (maxBodySize + 1)) "a"%char.

Definition answered (status : Z) : Tunnel :=
  {| write_ok := true; arrival := Some (response status []) |}.

(** A local target that answers 200 with the given headers and body. *)
Definition localTarget (headers : gmap (list ascii) (list (list ascii)))
    (body : list ascii) : Service.LocalSide :=
  {| Service.NewRequest := λ _ _, Some (go "x:1");
     Service.Do := λ _, Ok {| Service.StatusCode := 200;
                              Service.RespHeader := headers;
                              Service.RespBody := {| IO.data := body;
                                                     IO.fails := false |} |} |}.

(** A [proxy_request] for the target [x:1]. *)
Definition proxied (headers : gmap (list ascii) (list (list ascii))) : Envelope :=
  {| Type_ := TypeProxyRequest; RequestID := go "1"; Method := go "GET";
     Path := go "/"; Query := []; Headers := headers; Body := [];
     Status := 0; EnvHostname := go "a.b"; EnvTarget := go "x:1";
     Routes := []; Message := [] |}.

End inputs.

(** ** Vocabulary of the further properties *)

Section invariants.
Import Strings Protocol.

(** Every entry of the routing table has a hostname key that is not
    empty, in lower case and without white space at its ends, and a
    target that is not empty and has no white space at its ends. *)
Definition table_ok (s : Server.TunnelServer) : Prop :=
  ∀ h b, Server.routes s !! h = Some b →
    h ≠ [] ∧ lowered h ∧ trimmed h
    ∧ Server.Target b ≠ [] ∧ trimmed (Server.Target b).

(** A request id that is pending waits on a channel made for it, on
    which nothing has been sent. *)
Definition pending_ok (sl : Server.Slots) : Prop :=
  ∀ id ch, Server.pending sl !! id = Some ch →
    Server.chans sl !! ch = Some (id, []).

(** Nothing, or one [proxy_response] with the request id of the
    channel, has been sent on each channel. *)
Definition answered_once (sl : Server.Slots) : Prop :=
  ∀ ch id l, Server.chans sl !! ch = Some (id, l) →
    l = [] ∨ ∃ env, l = [env] ∧ RequestID env = id
                    ∧ Type_ env = TypeProxyResponse.

(** What [NormalizeHostname] checks. *)
Definition checked_host (h : list ascii) : Prop :=
  h ≠ [] ∧ lowered h ∧ starts_clean h
  ∧ (" "%char ∉ h) ∧ (":"%char ∉ h) ∧ "."%char ∈ h.

(** What [NormalizeTarget] checks. *)
Definition checked_target (t : list ascii) : Prop :=
  t ≠ [] ∧ trimmed t ∧ ":"%char ∈ t
  ∧ Contains t (go "http://") = false ∧ Contains t (go "https://") = false.

(** Every route of the map is held under its hostname and has passed
    the checks of the normalizers. *)
Definition checked_map (m : gmap (list ascii) Route) : Prop :=
  ∀ h r, m !! h = Some r →
    Hostname r = h ∧ checked_host h ∧ checked_target (Target r).

Definition checked_store (s : Agent.ConfigStore) : Prop :=
  checked_map (Agent.routes s).

(** The calls that change a [ConfigStore]. *)
Inductive storeOp :=
| DoUpsert (hostname target : list ascii)
| DoDelete (hostname : list ascii)
| DoReplaceAll (routes : list Route).

(** One call on the store; [fault] is the system call that fails
    during it, if one does. *)
Definition storeStep (sd : Agent.ConfigStore * Agent.Disk)
    (call : option Agent.syscall * storeOp)
  : Agent.ConfigStore * Agent.Disk :=
  let d := {| Agent.files := Agent.files sd.2; Agent.failing := call.1 |} in
  match call.2 with
  | DoUpsert hostname target =>
      let '(_, s', d') := Agent.Upsert hostname target sd.1 d in (s', d')
  | DoDelete hostname =>
      let '(_, s', d') := Agent.Delete hostname sd.1 d in (s', d')
  | DoReplaceAll routes =>
      let '(_, s', d') := Agent.ReplaceAll routes sd.1 d in (s', d')
  end.

(** The map that [ReplaceAll] builds from a list of routes that all
    normalize. *)
Definition normalized (rs : list Route) (next : gmap (list ascii) Route)
  : Prop :=
  Agent.buildNext ∅ rs = Ok next.

(** A disk on which no call fails. *)
Definition healthy (d : Agent.Disk) : Prop := Agent.failing d = None.

End invariants.


Section more_inputs.
Import Protocol.

(** An agent store with two routes, and a disk without files. *)
Definition twoRoutes : Agent.ConfigStore :=
  {| Agent.path := go "/etc/agent.json";
     Agent.routes := <[go "b.c" := route "b.c" "y:2"]>
                       {[ go "a.b" := route "a.b" "x:1" ]} |}.

Definition emptyDisk : Agent.Disk :=
  {| Agent.files := ∅; Agent.failing := None |}.

(** An agent with that store; [url] is the address of the control
    plane and [c] the state of the control connection. *)
Definition agentState (url : string) (c : option bool)
  : Service.ServiceState :=
  {| Service.store := twoRoutes; Service.disk := emptyDisk;
     Service.conn := c; Service.routeSyncURL := go url;
     Service.wire := [] |}.

End more_inputs.


(** * The model on concrete inputs *)

Section examples.
Import Strings Protocol.

Example TrimSpace_ToLower_example :
  TrimSpace (ToLower (go "  App.Example.COM ")) = go "app.example.com".
Proof. reflexivity. Qed.

Example TrimSuffix_example :
  TrimSuffix (go "a.b.") (go ".") = go "a.b"
  ∧ TrimSuffix (go "a.b") (go ".") = go "a.b"
  ∧ TrimSuffix [] (go ".") = [].
Proof. repeat split; reflexivity. Qed.

Example Split_example :
  Split (go "a:b:") ":" = [go "a"; go "b"; go ""]
  ∧ Split (go "") ":" = [go ""].
Proof. split; reflexivity. Qed.

Example SplitHostPort_examples :
  Net.SplitHostPort (go "example.com:80") = Ok (go "example.com", go "80")
  ∧ Net.SplitHostPort (go "[::1]:443") = Ok (go "::1", go "443")
  ∧ Net.SplitHostPort (go "[a]:") = Ok (go "a", go "")
  ∧ Net.SplitHostPort (go "example.com") = Err "missing port in address"
  ∧ Net.SplitHostPort (go "a:b:c") = Err "too many colons in address"
  ∧ Net.SplitHostPort (go "[a]x:80") = Err "missing port in address"
  ∧ Net.SplitHostPort (go "[a]:8:0") = Err "too many colons in address"
  ∧ Net.SplitHostPort (go "[a:80") = Err "missing ']' in address"
  ∧ Net.SplitHostPort (go "a[b:80") = Err "unexpected '[' in address"
  ∧ Net.SplitHostPort (go "a]:80") = Err "unexpected ']' in address".
Proof. repeat split; reflexivity. Qed.

Example base64_examples :
  Base64.EncodeToString (go "ok") = go "b2s="
  ∧ Base64.EncodeToString (go "hello world!") = go "aGVsbG8gd29ybGQh"
  ∧ Base64.DecodeString (go "b2s=") = Some (go "ok")
  ∧ Base64.DecodeString (go "aGVsbG8gd29ybGQh") = Some (go "hello world!")
  ∧ Base64.DecodeString (go "YQ==") = Some (go "a")
  ∧ Base64.DecodeString (go "YQ=") = None
  ∧ Base64.DecodeString (go "YQ==YQ==") = None
  ∧ Base64.DecodeString (go "%%%") = None.
Proof. repeat split; reflexivity. Qed.

Example CanonicalMIMEHeaderKey_examples :
  Textproto.CanonicalMIMEHeaderKey (go "content-type") = go "Content-Type"
  ∧ Textproto.CanonicalMIMEHeaderKey (go "CONNECTION") = go "Connection"
  ∧ Textproto.CanonicalMIMEHeaderKey (go "x-forwarded-FOR")
    = go "X-Forwarded-For"
  ∧ Textproto.CanonicalMIMEHeaderKey (go "a b") = go "a b".
Proof. repeat split; reflexivity. Qed.

Example ReadAllLimit_examples :
  IO.ReadAllLimit {| IO.data := go "hello"; IO.fails := false |} 3
  = Ok (go "hel")
  ∧ IO.ReadAllLimit {| IO.data := go "hello"; IO.fails := true |} 5
    = Ok (go "hello")
  ∧ IO.ReadAllLimit {| IO.data := go "hello"; IO.fails := false |} 10
    = Ok (go "hello")
  ∧ is_ok (IO.ReadAllLimit {| IO.data := go "hello"; IO.fails := true |} 10)
    = false.
Proof. repeat split; reflexivity. Qed.

Example normalizeHost_examples :
  Server.normalizeHost (go "App.Example.COM:8080") = go "app.example.com"
  ∧ Server.normalizeHost (go "[::1]:80") = go "::1"
  ∧ Server.normalizeHost (go " a.b ") = go "a.b"
  ∧ Server.normalizeHost (go ":80") = []
  ∧ Server.normalizeHost (go "a:b:c") = go "a:b:c"
  ∧ Server.normalizeHost (go "a]:80") = go "a]".
Proof. repeat split; reflexivity. Qed.

Example NormalizeHostname_examples :
  Agent.NormalizeHostname (go " App.Example.com. ") = Ok (go "app.example.com")
  ∧ Agent.NormalizeHostname (go "localhost")
    = Err "hostname must be a domain, e.g. app.example.com"
  ∧ Agent.NormalizeHostname (go "a.b:80") = Err "hostname cannot include port"
  ∧ Agent.NormalizeHostname (go "a .b") = Err "hostname cannot contain spaces"
  ∧ Agent.NormalizeHostname (go ".") = Err "hostname is required"
  ∧ Agent.NormalizeTarget (go " 127.0.0.1:3000 ") = Ok (go "127.0.0.1:3000")
  ∧ Agent.NormalizeTarget (go "http://x:1")
    = Err "target should be host:port, e.g. 127.0.0.1:3000"
  ∧ Agent.NormalizeTarget (go "x")
    = Err "target must include port, e.g. 127.0.0.1:3000".
Proof. repeat split; reflexivity. Qed.

(** The first scenario of the design: the agent of token [t] has
    published [a.b → x:1]; a request for [a.b] is sent to the agent
    with that hostname and target, the local target answers 200 [ok],
    and the public client receives 200 [ok]. *)
Example happy_path :
  EnvHostname <$> Server.sent (Server.HandlePublicHTTP oneTunnel (answered 200)
                                 (request "A.B:80" ∅ (bytes "hi")))
  = Some (go "a.b")
  ∧ EnvTarget <$> Server.sent (Server.HandlePublicHTTP oneTunnel (answered 200)
                                 (request "A.B:80" ∅ (bytes "hi")))
    = Some (go "x:1")
  ∧ Body <$> Server.sent (Server.HandlePublicHTTP oneTunnel (answered 200)
                            (request "A.B:80" ∅ (bytes "hi")))
    = Some (go "aGk=")
  ∧ Server.sent (Server.HandlePublicHTTP oneTunnel (answered 200)
                   (request "A.B:80" ∅ (bytes "hi")))
      ≫= (λ env, Headers env !! go "X-Forwarded-Host")
    = Some [go "a.b"]
  ∧ (λ env, Server.writeResponse
              (Service.handleProxyRequest (localTarget ∅ (go "ok")) env))
      <$> Server.sent (Server.HandlePublicHTTP oneTunnel (answered 200)
                         (request "A.B:80" ∅ (bytes "hi")))
    = Some {| HTTP.status := 200; HTTP.header := ∅; HTTP.body := go "ok" |}.
Proof. repeat split; vm_compute; reflexivity. Qed.

End examples.


(** * Facts about the string functions and the normalizers *)

Section normalizers.
Import Strings Net Server Agent.

Lemma lower_idemp c : lower (lower c) = lower c.
Proof. by destruct c as [[] [] [] [] [] [] [] []]. Qed.

Lemma is_space_lower c : is_space (lower c) = is_space c.
Proof. by destruct c as [[] [] [] [] [] [] [] []]. Qed.

Lemma lower_inv c d :
  Textproto.is_lower_letter d = false → lower c = d → c = d.
Proof.
  intros Hd <-.
  destruct c as [[] [] [] [] [] [] [] []]; try reflexivity;
    vm_compute in Hd; discriminate.
Qed.

(** ToLower *)
Lemma ToLower_idemp s : ToLower (ToLower s) = ToLower s.
Proof.
  unfold ToLower. rewrite <-list_fmap_compose.
  apply list_fmap_ext. intros _ c _. apply lower_idemp.
Qed.

Lemma ToLower_length s : length (ToLower s) = length s.
Proof. apply length_fmap. Qed.

Lemma ToLower_app s1 s2 : ToLower (s1 ++ s2) = ToLower s1 ++ ToLower s2.
Proof. apply fmap_app. Qed.

Lemma lowered_ToLower s : lowered (ToLower s).
Proof.
  unfold lowered, ToLower. apply Forall_fmap, Forall_true.
  intros c. apply lower_idemp.
Qed.

Lemma ToLower_lowered s : lowered s → ToLower s = s.
Proof.
  unfold ToLower. induction 1 as [|c s Hc _ IH]; csimpl; [done|].
  by rewrite Hc, IH.
Qed.

Lemma ToLower_elem_of c s :
  Textproto.is_lower_letter c = false → lower c = c →
  c ∈ ToLower s ↔ c ∈ s.
Proof.
  intros Hc Hl. unfold ToLower. rewrite list_elem_of_fmap. split.
  - intros (d & Hd & Hin). symmetry in Hd.
    apply lower_inv in Hd; [by subst|done].
  - intros Hin. by exists c.
Qed.

Lemma trimLeft_suffix s : trimLeft s `suffix_of` s.
Proof.
  induction s as [|c s IH]; simpl; [done|].
  destruct (is_space c); [by apply suffix_cons_r|done].
Qed.

Lemma trimLeft_starts_clean s : starts_clean (trimLeft s).
Proof.
  induction s as [|c s IH]; simpl; [done|].
  destruct (is_space c) eqn:E; [done|]. simpl. done.
Qed.

Lemma trimLeft_clean s : starts_clean s → trimLeft s = s.
Proof. destruct s as [|c s]; simpl; [done|]. by intros ->. Qed.

Lemma trimRight_prefix s : trimRight s `prefix_of` s.
Proof.
  unfold trimRight. rewrite <-(reverse_involutive s) at 2.
  apply suffix_prefix_reverse, trimLeft_suffix.
Qed.

Lemma starts_clean_prefix s t :
  t `prefix_of` s → starts_clean s → starts_clean t.
Proof.
  intros [k ->]. destruct t; simpl; done.
Qed.

Lemma TrimSpace_trimmed s : trimmed (TrimSpace s).
Proof.
  unfold TrimSpace. split.
  - eapply starts_clean_prefix; [apply trimRight_prefix|].
    apply trimLeft_starts_clean.
  - unfold trimRight. rewrite reverse_involutive.
    apply trimLeft_starts_clean.
Qed.

Lemma TrimSpace_id s : trimmed s → TrimSpace s = s.
Proof.
  intros [H1 H2]. unfold TrimSpace, trimRight.
  rewrite (trimLeft_clean s) by done.
  rewrite (trimLeft_clean (reverse s)) by done.
  apply reverse_involutive.
Qed.

Lemma TrimSpace_idemp s : TrimSpace (TrimSpace s) = TrimSpace s.
Proof. apply TrimSpace_id, TrimSpace_trimmed. Qed.

Lemma segment_refl s : segment s s.
Proof. exists [], []. by rewrite app_nil_r. Qed.

Lemma segment_trans t u s : segment t u → segment u s → segment t s.
Proof.
  intros (a & b & ->) (a' & b' & ->). exists (a' ++ a), (b ++ b').
  by rewrite <-!app_assoc.
Qed.

Lemma prefix_segment t s : t `prefix_of` s → segment t s.
Proof. intros [k ->]. by exists [], k. Qed.

Lemma suffix_segment t s : t `suffix_of` s → segment t s.
Proof. intros [k ->]. exists k, []. by rewrite app_nil_r. Qed.



Lemma segment_elem_of c t s : segment t s → c ∈ t → c ∈ s.
Proof. intros (a & b & ->) Hc. rewrite !elem_of_app. auto. Qed.

Lemma segment_length t s : segment t s → (length t ≤ length s)%nat.
Proof. intros (a & b & ->). rewrite !length_app. lia. Qed.

Lemma segment_lowered t s : segment t s → lowered s → lowered t.
Proof.
  intros (a & b & ->). unfold lowered. rewrite !Forall_app. tauto.
Qed.

Lemma TrimSpace_segment s : segment (TrimSpace s) s.
Proof.
  unfold TrimSpace. eapply segment_trans.
  - apply prefix_segment, trimRight_prefix.
  - apply suffix_segment, trimLeft_suffix.
Qed.

Lemma TrimSpace_length s : (length (TrimSpace s) ≤ length s)%nat.
Proof. apply segment_length, TrimSpace_segment. Qed.

(** The string that [normalizeHost] and the agent's normalizers work
    on: lower case, no white space around it. *)
Lemma lower_trim_fix x :
  let h := TrimSpace (ToLower x) in
  lowered h ∧ trimmed h ∧ TrimSpace (ToLower h) = h.
Proof.
  intros h.
  assert (lowered h) as Hl.
  { eapply segment_lowered; [apply TrimSpace_segment|apply lowered_ToLower]. }
  split; [done|]. split; [apply TrimSpace_trimmed|].
  rewrite ToLower_lowered by done. apply TrimSpace_idemp.
Qed.

(** bytes *)
Lemma IndexByte_None s c : IndexByte s c = None ↔ c ∉ s.
Proof.
  induction s as [|x s IH]; simpl.
  - split; [intros _; apply not_elem_of_nil|done].
  - rewrite not_elem_of_cons. case_bool_decide as Hx.
    + split; [done|]. intros [? _]. by subst.
    + rewrite fmap_None, IH. split; [intros; split; [congruence|done]|tauto].
Qed.

Lemma IndexByte_is_Some s c : is_Some (IndexByte s c) ↔ c ∈ s.
Proof.
  rewrite <-not_eq_None_Some, IndexByte_None.
  destruct (decide (c ∈ s)); tauto.
Qed.

Lemma IndexByte_Some s c i :
  IndexByte s c = Some i → s !! i = Some c ∧ c ∉ take i s.
Proof.
  revert i. induction s as [|x s IH]; intros i; simpl; [done|].
  case_bool_decide as Hx.
  - intros [= <-]. subst. split; [done|]. simpl. apply not_elem_of_nil.
  - intros Hi. apply fmap_Some in Hi as (j & Hj & ->).
    apply IH in Hj as [? ?]. split; [done|]. simpl.
    rewrite not_elem_of_cons. split; [congruence|done].
Qed.

Lemma LastIndexByte_None s c : LastIndexByte s c = None ↔ c ∉ s.
Proof.
  induction s as [|x s IH]; simpl.
  - split; [intros _; apply not_elem_of_nil|done].
  - rewrite not_elem_of_cons. destruct (LastIndexByte s c) as [i|].
    + split; [done|]. intros [_ Hs]. by apply IH in Hs.
    + case_bool_decide as Hx.
      * split; [done|]. intros [? _]. by subst.
      * split; [|done]. intros _. split; [congruence|by apply IH].
Qed.


Lemma Contains_byte s c : Contains s [c] = true ↔ c ∈ s.
Proof.
  induction s as [|x s IH]; simpl.
  - split; [done|]. intros H. by apply elem_of_nil in H.
  - rewrite elem_of_cons, orb_true_iff, IH.
    assert (HasPrefix s [] = true) as -> by (by destruct s).
    rewrite andb_true_r, bool_decide_eq_true.
    split; (intros [?|?]; [left; congruence|by right]).
Qed.

Lemma Contains_byte_false s c : Contains s [c] = false ↔ c ∉ s.
Proof. rewrite <-Contains_byte. by destruct (Contains s [c]). Qed.






(** [net.SplitHostPort] *)




(** [normalizeHost] *)

Lemma normalizeHost_clean y :
  TrimSpace (ToLower y) = y →
  normalizeHost y =
    if bool_decide (y = []) then []
    else if Contains y (go ":") then
      match SplitHostPort y with
      | Ok (h, _) => TrimSpace (ToLower h)
      | Err _ =>
          if bool_decide (Count y ":" = 1%nat)
          then TrimSpace (ToLower (default [] (Split y ":" !! 0%nat)))
          else y
      end
    else y.
Proof. intros Hy. unfold normalizeHost. by rewrite Hy. Qed.

Lemma lower_trim_not_elem_of c s :
  Textproto.is_lower_letter c = false → lower c = c →
  c ∉ s → c ∉ TrimSpace (ToLower s).
Proof.
  intros Hc Hl Hs Hin. apply Hs, (ToLower_elem_of c s Hc Hl).
  eapply segment_elem_of; [apply TrimSpace_segment|done].
Qed.

Lemma lower_trim_length s : (length (TrimSpace (ToLower s)) ≤ length s)%nat.
Proof. rewrite <-(ToLower_length s). apply TrimSpace_length. Qed.


Lemma normalizeHost_no_colon y :
  TrimSpace (ToLower y) = y → (":"%char) ∉ y → normalizeHost y = y.
Proof.
  intros Hy Hc. rewrite normalizeHost_clean by done.
  case_bool_decide; [done|].
  apply Contains_byte_false in Hc. unfold go. simpl. by rewrite Hc.
Qed.



(** suffixes of one byte *)
Lemma HasSuffix_snoc s x c : HasSuffix (s ++ [x]) [c] = bool_decide (x = c).
Proof.
  unfold HasSuffix. rewrite length_app. cbn [length].
  rewrite Nat.add_sub, drop_app_length.
  rewrite (proj2 (Nat.leb_le 1 (length s + 1))) by lia.
  rewrite andb_true_l. apply bool_decide_ext. split; congruence.
Qed.

Lemma TrimSuffix_nil c : TrimSuffix [] [c] = [].
Proof. done. Qed.

Lemma TrimSuffix_snoc s x c :
  TrimSuffix (s ++ [x]) [c] = if bool_decide (x = c) then s else s ++ [x].
Proof.
  unfold TrimSuffix. rewrite HasSuffix_snoc. case_bool_decide; [|done].
  rewrite length_app. cbn [length].
  by rewrite Nat.add_sub, take_app_length.
Qed.

Lemma TrimSuffix_prefix s c : TrimSuffix s [c] `prefix_of` s.
Proof.
  destruct s as [|x s _] using rev_ind; [done|].
  rewrite TrimSuffix_snoc. case_bool_decide; [by apply prefix_app_r|done].
Qed.

Lemma NormalizeHostname_Ok x y :
  NormalizeHostname x = Ok y ↔
  y = TrimSuffix (TrimSpace (ToLower x)) (go ".")
  ∧ y ≠ [] ∧ Contains y (go " ") = false ∧ Contains y (go ":") = false
  ∧ Contains y (go ".") = true.
Proof.
  unfold NormalizeHostname.
  generalize (TrimSuffix (TrimSpace (ToLower x)) (go ".")). intros h.
  case_bool_decide as Hnil.
  { split; [done|]. intros (-> & ? & _). done. }
  destruct (Contains h (go " ")) eqn:Hsp.
  { split; [done|]. intros (-> & _ & Hf & _). by rewrite Hf in Hsp. }
  destruct (Contains h (go ":")) eqn:Hco.
  { split; [done|]. intros (-> & _ & _ & Hf & _). by rewrite Hf in Hco. }
  destruct (Contains h (go ".")) eqn:Hdot; cbn [negb].
  - split; [by intros [= <-]|]. by intros (-> & _).
  - split; [done|]. intros (-> & _ & _ & _ & Hf). by rewrite Hf in Hdot.
Qed.




(** trimming around a byte that is not white space *)
Lemma trimLeft_app s c t :
  is_space c = false → trimLeft (s ++ c :: t) = trimLeft s ++ c :: t.
Proof.
  intros Hc. induction s as [|x s IH]; simpl; [by rewrite Hc|].
  by destruct (is_space x).
Qed.

Lemma trimRight_app s c t :
  is_space c = false → trimRight (s ++ c :: t) = s ++ c :: trimRight t.
Proof.
  intros Hc. unfold trimRight.
  rewrite reverse_app, reverse_cons, <-app_assoc. simpl.
  rewrite trimLeft_app by done.
  by rewrite reverse_app, reverse_cons, reverse_involutive, <-app_assoc.
Qed.

Lemma TrimSpace_app s c t :
  is_space c = false →
  TrimSpace (s ++ c :: t) = trimLeft s ++ c :: trimRight t.
Proof.
  intros Hc. unfold TrimSpace. by rewrite trimLeft_app, trimRight_app.
Qed.

Lemma TrimSpace_cons c t :
  is_space c = false → TrimSpace (c :: t) = c :: trimRight t.
Proof. apply (TrimSpace_app [] c t). Qed.

Lemma ToLower_trimLeft s : ToLower (trimLeft s) = trimLeft (ToLower s).
Proof.
  induction s as [|x s IH]; [done|]. cbn [trimLeft ToLower fmap list_fmap].
  rewrite is_space_lower. by destruct (is_space x).
Qed.

Lemma TrimSpace_trimLeft s : TrimSpace (trimLeft s) = TrimSpace s.
Proof.
  unfold TrimSpace. f_equal. apply trimLeft_clean, trimLeft_starts_clean.
Qed.

Lemma trimLeft_not_elem_of c s : c ∉ s → c ∉ trimLeft s.
Proof.
  intros Hs Hin. apply Hs. eapply segment_elem_of; [|done].
  apply suffix_segment, trimLeft_suffix.
Qed.

Lemma trimRight_not_elem_of c s : c ∉ s → c ∉ trimRight s.
Proof.
  intros Hs Hin. apply Hs. eapply segment_elem_of; [|done].
  apply prefix_segment, trimRight_prefix.
Qed.

Lemma ToLower_not_elem_of c s :
  Textproto.is_lower_letter c = false → lower c = c → c ∉ s → c ∉ ToLower s.
Proof. intros Hc Hl Hs Hin. by apply Hs, (ToLower_elem_of c s Hc Hl). Qed.

Lemma IndexByte_app s c t : c ∉ s → IndexByte (s ++ c :: t) c = Some (length s).
Proof.
  induction s as [|x s IH]; simpl.
  - intros _. by rewrite bool_decide_eq_true_2.
  - rewrite not_elem_of_cons. intros [Hx Hs].
    rewrite bool_decide_eq_false_2 by congruence. by rewrite IH.
Qed.

Lemma LastIndexByte_app s c t :
  c ∉ t → LastIndexByte (s ++ c :: t) c = Some (length s).
Proof.
  intros Ht. induction s as [|x s IH]; simpl.
  - apply LastIndexByte_None in Ht. rewrite Ht.
    by rewrite bool_decide_eq_true_2.
  - by rewrite IH.
Qed.

Lemma drop_S_app (s : list ascii) c t : drop (S (length s)) (s ++ c :: t) = t.
Proof. induction s as [|x s IH]; simpl; [by rewrite drop_0|done]. Qed.

(** [host:port] without brackets. *)
Lemma SplitHostPort_plain h p :
  (":"%char) ∉ h → ("["%char) ∉ h → ("]"%char) ∉ h →
  (":"%char) ∉ p → ("["%char) ∉ p → ("]"%char) ∉ p →
  SplitHostPort (h ++ ":"%char :: p) = Ok (h, p).
Proof.
  intros Hh1 Hh2 Hh3 Hp1 Hp2 Hp3. unfold SplitHostPort.
  rewrite LastIndexByte_app by done.
  rewrite bool_decide_eq_false_2.
  2:{ destruct h as [|x h]; simpl; [done|]. intros [= ->].
      apply Hh2. by left. }
  rewrite take_app_length.
  rewrite bool_decide_eq_false_2
    by (by rewrite IndexByte_is_Some).
  unfold split_tail. rewrite !drop_0.
  rewrite bool_decide_eq_false_2.
  2:{ rewrite IndexByte_is_Some, elem_of_app, elem_of_cons. intros [?|[?|?]]; done. }
  rewrite bool_decide_eq_false_2.
  2:{ rewrite IndexByte_is_Some, elem_of_app, elem_of_cons. intros [?|[?|?]]; done. }
  f_equal. f_equal. apply drop_S_app.
Qed.

(** [[host]:port]. *)
Lemma SplitHostPort_bracket h p :
  ("["%char) ∉ h → ("]"%char) ∉ h →
  (":"%char) ∉ p → ("["%char) ∉ p → ("]"%char) ∉ p →
  SplitHostPort ("["%char :: h ++ "]"%char :: ":"%char :: p) = Ok (h, p).
Proof.
  intros Hh2 Hh3 Hp1 Hp2 Hp3. unfold SplitHostPort.
  assert (LastIndexByte ("["%char :: h ++ "]"%char :: ":"%char :: p) ":"
          = Some (S (S (length h)))) as ->.
  { replace ("["%char :: h ++ "]"%char :: ":"%char :: p)
      with (("["%char :: h ++ ["]"%char]) ++ ":"%char :: p)
      by (by simpl; rewrite <-app_assoc).
    rewrite LastIndexByte_app by done. simpl.
    by rewrite length_app, Nat.add_1_r. }
  rewrite bool_decide_eq_true_2 by done.
  assert (IndexByte ("["%char :: h ++ "]"%char :: ":"%char :: p) "]"
          = Some (S (length h))) as ->.
  { change ("["%char :: h ++ "]"%char :: ":"%char :: p)
      with (("["%char :: h) ++ "]"%char :: ":"%char :: p).
    rewrite IndexByte_app; [done|].
    rewrite not_elem_of_cons. by split. }
  rewrite bool_decide_eq_false_2.
  2:{ simpl. rewrite length_app. simpl. lia. }
  rewrite bool_decide_eq_true_2 by done.
  unfold split_tail. simpl. rewrite drop_0, Nat.sub_0_r.
  rewrite take_app_length.
  rewrite bool_decide_eq_false_2.
  2:{ rewrite IndexByte_is_Some, elem_of_app, !elem_of_cons.
      intros [?|[?|[?|?]]]; done. }
  rewrite drop_S_app.
  rewrite bool_decide_eq_false_2.
  2:{ rewrite IndexByte_is_Some, !elem_of_cons. intros [?|?]; done. }
  do 2 f_equal.
  replace (h ++ "]"%char :: ":"%char :: p)
    with ((h ++ ["]"%char]) ++ ":"%char :: p) by (by rewrite <-app_assoc).
  replace (S (S (length h))) with (S (length (h ++ ["]"%char])))
    by (by rewrite length_app, Nat.add_1_r).
  apply drop_S_app.
Qed.

Lemma normalizeHost_plain x :
  (":"%char) ∉ x → normalizeHost x = TrimSpace (ToLower x).
Proof.
  intros Hx. unfold normalizeHost.
  case_bool_decide as Hnil; [done|].
  assert ((":"%char) ∉ TrimSpace (ToLower x)) as Hc
    by (by apply lower_trim_not_elem_of).
  apply Contains_byte_false in Hc. unfold go. simpl. by rewrite Hc.
Qed.

Lemma normalizeHost_host_port h p :
  (":"%char) ∉ h → ("["%char) ∉ h → ("]"%char) ∉ h →
  (":"%char) ∉ p → ("["%char) ∉ p → ("]"%char) ∉ p →
  normalizeHost (h ++ ":"%char :: p) = TrimSpace (ToLower h).
Proof.
  intros Hh1 Hh2 Hh3 Hp1 Hp2 Hp3. unfold normalizeHost.
  rewrite ToLower_app. cbn [ToLower fmap list_fmap].
  change (lower ":") with (":"%char). rewrite TrimSpace_app by done.
  fold (ToLower p).
  set (A := trimLeft (ToLower h)). set (B := trimRight (ToLower p)).
  rewrite bool_decide_eq_false_2 by (by destruct A).
  assert (Contains (A ++ ":"%char :: B) (go ":") = true) as ->.
  { apply Contains_byte. rewrite elem_of_app, elem_of_cons. auto. }
  rewrite SplitHostPort_plain.
  - unfold A. rewrite ToLower_trimLeft, ToLower_idemp.
    apply TrimSpace_trimLeft.
  - by apply trimLeft_not_elem_of, ToLower_not_elem_of.
  - by apply trimLeft_not_elem_of, ToLower_not_elem_of.
  - by apply trimLeft_not_elem_of, ToLower_not_elem_of.
  - by apply trimRight_not_elem_of, ToLower_not_elem_of.
  - by apply trimRight_not_elem_of, ToLower_not_elem_of.
  - by apply trimRight_not_elem_of, ToLower_not_elem_of.
Qed.

Lemma normalizeHost_bracket h p :
  ("["%char) ∉ h → ("]"%char) ∉ h →
  (":"%char) ∉ p → ("["%char) ∉ p → ("]"%char) ∉ p →
  normalizeHost ("["%char :: h ++ "]"%char :: ":"%char :: p)
  = TrimSpace (ToLower h).
Proof.
  intros Hh2 Hh3 Hp1 Hp2 Hp3. unfold normalizeHost.
  assert (TrimSpace (ToLower ("["%char :: h ++ "]"%char :: ":"%char :: p))
          = "["%char :: ToLower h ++ "]"%char :: ":"%char :: trimRight (ToLower p))
    as ->.
  { cbn [ToLower fmap list_fmap]. rewrite fmap_app.
    cbn [ToLower fmap list_fmap].
    change (lower "[") with ("["%char). change (lower "]") with ("]"%char).
    change (lower ":") with (":"%char).
    rewrite TrimSpace_cons by done. f_equal.
    replace ((lower <$> h) ++ "]"%char :: ":"%char :: (lower <$> p))
      with (((lower <$> h) ++ ["]"%char]) ++ ":"%char :: (lower <$> p))
      by (by rewrite <-app_assoc).
    rewrite trimRight_app by done. by rewrite <-app_assoc. }
  rewrite bool_decide_eq_false_2 by done.
  assert (Contains ("["%char :: ToLower h ++ "]"%char :: ":"%char
                      :: trimRight (ToLower p)) (go ":") = true) as ->.
  { apply Contains_byte. rewrite elem_of_cons, elem_of_app, !elem_of_cons.
    auto. }
  rewrite SplitHostPort_bracket.
  - by rewrite ToLower_idemp.
  - by apply ToLower_not_elem_of.
  - by apply ToLower_not_elem_of.
  - by apply trimRight_not_elem_of, ToLower_not_elem_of.
  - by apply trimRight_not_elem_of, ToLower_not_elem_of.
  - by apply trimRight_not_elem_of, ToLower_not_elem_of.
Qed.

End normalizers.

(** * Facts about the gateway *)

Section gateway.
Import Strings Protocol Server.

Lemma applyRoute_lookup t m r h b :
  applyRoute t m r !! h = Some b ↔
  (claims r h ∧ b = bindingOf t r) ∨ (¬ claims r h ∧ m !! h = Some b).
Proof.
  unfold applyRoute, claims, bindingOf.
  destruct (decide (normalizeHost (Hostname r) = h)) as [<-|Hne].
  - repeat case_bool_decide; simpl.
    + split; [intros; right; split; [|done]; tauto|]. intros [[(_ & ? & _) _]|[_ ?]]; done.
    + split; [intros; right; split; [|done]; tauto|]. intros [[(_ & ? & _) _]|[_ ?]]; done.
    + split; [intros; right; split; [|done]; tauto|]. intros [[(_ & _ & ?) _]|[_ ?]]; done.
    + rewrite lookup_insert_eq. split.
      * intros [= <-]. by left.
      * intros [[_ ->]|[Hn _]]; [done|]. destruct Hn. done.
  - assert (applyRoute t m r !! h = m !! h) as Heq.
    { unfold applyRoute. destruct (_ || _); [done|]. by rewrite lookup_insert_ne. }
    unfold applyRoute in Heq. rewrite Heq. split.
    + intros ?. right. split; [|done]. intros [? _]. done.
    + intros [[[? _] _]|[_ ?]]; done.
Qed.

Lemma published_nil t h b : ¬ published t [] h b.
Proof. intros (rs1 & r & rs2 & Heq & _). by destruct rs1. Qed.

Lemma published_cons t r rs h b :
  published t (r :: rs) h b ↔
  published t rs h b
  ∨ (claims r h ∧ b = bindingOf t r ∧ Forall (λ r', ¬ claims r' h) rs).
Proof.
  split.
  - intros (rs1 & r0 & rs2 & Heq & Hc & Hb & Hall).
    destruct rs1 as [|x rs1]; simplify_eq/=.
    + by right.
    + left. by exists rs1, r0, rs2.
  - intros [(rs1 & r0 & rs2 & -> & Hc & Hb & Hall)|(Hc & Hb & Hall)].
    + by exists (r :: rs1), r0, rs2.
    + by exists [], r, rs.
Qed.

Lemma foldl_applyRoute_lookup t rs m h b :
  foldl (applyRoute t) m rs !! h = Some b ↔
  published t rs h b ∨ (m !! h = Some b ∧ Forall (λ r, ¬ claims r h) rs).
Proof.
  revert m. induction rs as [|r rs IH]; intros m; simpl.
  - split; [by right|]. intros [?%published_nil|[? _]]; done.
  - rewrite IH, published_cons, applyRoute_lookup, Forall_cons.
    destruct (decide (claims r h)); tauto.
Qed.

Lemma purge_lookup t m h b :
  purge t m !! h = Some b ↔ m !! h = Some b ∧ Token b ≠ t.
Proof. unfold purge. by rewrite map_lookup_filter_Some. Qed.

Lemma applyRoutes_table t rs s h b :
  routes (applyRoutes t rs s) !! h = Some b ↔
  published t rs h b
  ∨ (routes s !! h = Some b ∧ Token b ≠ t ∧ Forall (λ r, ¬ claims r h) rs).
Proof.
  unfold applyRoutes. simpl. rewrite foldl_applyRoute_lookup, purge_lookup.
  tauto.
Qed.

Lemma published_token t rs h b : published t rs h b → Token b = t.
Proof. by intros (? & ? & ? & _ & _ & -> & _). Qed.

(** ** Session registry *)

Lemma agents_applyRoutes t rs s : agents (applyRoutes t rs s) = agents s.
Proof. done. Qed.

Lemma agents_closeConn c s : agents (closeConn c s) = agents s.
Proof. done. Qed.

Lemma registry_ok_step s e : registry_ok s → registry_ok (step s e).
Proof.
  intros Hok. destruct e as [raw up|sess env|sess]; simpl.
  - unfold HandleConnect. case_bool_decide; [done|].
    destruct up as [conn|]; [|done]. simpl.
    assert (registry_ok
      {| agents := <[TrimSpace raw := {| SessionToken := TrimSpace raw;
                                         Conn := conn |}]> (agents s);
         routes := routes s; requestSeq := requestSeq s;
         closed := closed s |}) as Hok'.
    { intros k a. simpl. rewrite lookup_insert. case_decide.
      - intros [= <-]. done.
      - apply Hok. }
    destruct (agents s !! TrimSpace raw); simpl; done.
  - unfold dispatch. case_bool_decide; done.
  - unfold readLoopExit, cleanupAgent. case_bool_decide; [|done].
    intros k a. simpl. rewrite lookup_delete. case_decide; [done|]. apply Hok.
Qed.

Lemma registry_ok_run es : registry_ok (run es).
Proof.
  unfold run. induction es as [|e es IH] using rev_ind.
  - intros k a. simpl. by rewrite lookup_empty.
  - rewrite foldl_app. simpl. by apply registry_ok_step.
Qed.

(** At most one session of a token is registered. *)
Lemma session_unique es k1 k2 a1 a2 :
  agents (run es) !! k1 = Some a1 → agents (run es) !! k2 = Some a2 →
  SessionToken a1 = SessionToken a2 → k1 = k2 ∧ a1 = a2.
Proof.
  intros H1 H2 Heq.
  pose proof (registry_ok_run es _ _ H1). pose proof (registry_ok_run es _ _ H2).
  assert (k1 = k2) as -> by congruence. split; [done|congruence].
Qed.

Lemma cleanupAgent_successor prev s :
  agents s !! SessionToken prev ≠ Some prev → cleanupAgent prev s = s.
Proof. intros Hne. unfold cleanupAgent. by rewrite bool_decide_eq_false_2. Qed.

Lemma cleanupAgent_current a s h b :
  agents s !! SessionToken a = Some a →
  routes (cleanupAgent a s) !! h = Some b → Token b ≠ SessionToken a.
Proof.
  intros Ha. unfold cleanupAgent. rewrite bool_decide_eq_true_2 by done.
  simpl. by intros [_ ?]%purge_lookup.
Qed.

Lemma reconnect_session es rawToken conn prev :
  let s := run es in
  let token := TrimSpace rawToken in
  let next := {| SessionToken := token; Conn := conn |} in
  let s' := (HandleConnect rawToken (Some conn) s).2 in
  token ≠ [] → agents s !! token = Some prev → Conn prev ≠ conn →
  (HandleConnect rawToken (Some conn) s).1 = (None, Some next)
  ∧ agents s' = <[token := next]> (agents s)
  ∧ Conn prev ∈ closed s'
  ∧ routes s' = routes s
  ∧ agents (readLoopExit prev s') = agents s'
  ∧ routes (readLoopExit prev s') = routes s'
  ∧ (∀ rs h b, routes (dispatch next (register rs) s') !! h = Some b →
               Token b = token → published token rs h b)
  ∧ (∀ h b, routes (readLoopExit next s') !! h = Some b → Token b ≠ token).
Proof.
  intros s token next s' Htok Hprev Hconn.
  assert (SessionToken prev = token) as Hpt by (by eapply registry_ok_run).
  assert (s' = closeConn (Conn prev)
                 {| agents := <[token := next]> (agents s);
                    routes := routes s; requestSeq := requestSeq s;
                    closed := closed s |}) as Hs'.
  { unfold s', HandleConnect. fold token.
    rewrite bool_decide_eq_false_2 by done. unfold swapAgent.
    by rewrite Hprev. }
  assert ((HandleConnect rawToken (Some conn) s).1 = (None, Some next)) as H1.
  { unfold HandleConnect. fold token.
    rewrite bool_decide_eq_false_2 by done. unfold swapAgent.
    by rewrite Hprev. }
  assert (agents s' !! token = Some next) as Hnext.
  { rewrite Hs'. simpl. apply lookup_insert_eq. }
  assert (cleanupAgent prev s' = s') as Hclean.
  { apply cleanupAgent_successor. rewrite Hpt, Hnext.
    intros [= Heq]. apply Hconn. by rewrite <-Heq. }
  split; [done|]. split; [by rewrite Hs'|].
  split; [rewrite Hs'; simpl; set_solver|].
  split; [by rewrite Hs'|].
  split; [unfold readLoopExit; by rewrite Hclean|].
  split; [unfold readLoopExit; by rewrite Hclean|].
  split.
  { intros rs h b.
    change (dispatch next (register rs) s') with (applyRoutes token rs s').
    intros [?|(_ & ? & _)]%applyRoutes_table ?; done. }
  intros h b. unfold readLoopExit. simpl.
  by apply (cleanupAgent_current next s' h b).
Qed.

(** ** The public HTTP path *)

Lemma public_status s t r :
  let host := normalizeHost (Host r) in
  let out := HandlePublicHTTP s t r in
  (host = [] → HTTP.status (reply out) = 400)
  ∧ (host ≠ [] → routes s !! host = None → HTTP.status (reply out) = 404)
  ∧ (∀ b, host ≠ [] → routes s !! host = Some b →
          agents s !! Token b = None → HTTP.status (reply out) = 503)
  ∧ (∀ b a body, host ≠ [] → routes s !! host = Some b →
          agents s !! Token b = Some a →
          IO.ReadAllLimit (ReqBody r) maxBodySize = Ok body →
          write_ok t = false → HTTP.status (reply out) = 502)
  ∧ (∀ b a body, host ≠ [] → routes s !! host = Some b →
          agents s !! Token b = Some a →
          IO.ReadAllLimit (ReqBody r) maxBodySize = Ok body →
          write_ok t = true → arrival t = None →
          HTTP.status (reply out) = 504).
Proof.
  intros host out. unfold out, HandlePublicHTTP. fold host.
  repeat split.
  - intros ->. done.
  - intros Hh Hr. rewrite bool_decide_eq_false_2 by done. by rewrite Hr.
  - intros b Hh Hr Ha. rewrite bool_decide_eq_false_2 by done.
    by rewrite Hr, Ha.
  - intros b a body Hh Hr Ha Hb Hw. rewrite bool_decide_eq_false_2 by done.
    by rewrite Hr, Ha, Hb, Hw.
  - intros b a body Hh Hr Ha Hb Hw Harr.
    rewrite bool_decide_eq_false_2 by done.
    by rewrite Hr, Ha, Hb, Hw, Harr.
Qed.

(** The envelope that is sent names the normalized host and the target
    of the binding found under it. *)
Lemma public_lookup s t r env :
  sent (HandlePublicHTTP s t r) = Some env →
  ∃ b, routes s !! normalizeHost (Host r) = Some b
       ∧ EnvHostname env = normalizeHost (Host r)
       ∧ EnvTarget env = Target b.
Proof.
  unfold HandlePublicHTTP. case_bool_decide; [done|].
  destruct (routes s !! normalizeHost (Host r)) as [b|]; [|done].
  destruct (agents s !! Token b); [|done].
  destruct (IO.ReadAllLimit _ _); [|done].
  destruct (write_ok t); simpl; [destruct (arrival t)|]; simpl;
    intros [= <-]; by exists b.
Qed.

Lemma writeResponse_status resp :
  HTTP.status (writeResponse resp)
  = if bool_decide (Status resp = 0) then 502 else Status resp.
Proof. done. Qed.

Lemma writeResponse_decode_failure resp :
  Body resp ≠ [] → Base64.DecodeString (Body resp) = None →
  HTTP.status (writeResponse resp)
  = (if bool_decide (Status resp = 0) then 502 else Status resp)
  ∧ HTTP.body (writeResponse resp) = go "decode response body failed".
Proof.
  intros Hb Hd. split; [done|]. unfold writeResponse. simpl.
  rewrite bool_decide_eq_false_2 by done. by rewrite Hd.
Qed.

(** ** The body cap *)
Lemma ReadAllLimit_long r n :
  0 ≤ n → n ≤ Z.of_nat (length (IO.data r)) →
  IO.ReadAllLimit r n = Ok (take (Z.to_nat n) (IO.data r)).
Proof.
  intros H0 Hn. unfold IO.ReadAllLimit.
  destruct (Z.ltb_spec (Z.of_nat (length (IO.data r))) n); [lia|done].
Qed.

Lemma ReadAllLimit_Err r n :
  is_ok (IO.ReadAllLimit r n) = false ↔
  Z.of_nat (length (IO.data r)) < n ∧ IO.fails r = true.
Proof.
  unfold IO.ReadAllLimit.
  destruct (Z.ltb_spec (Z.of_nat (length (IO.data r))) n).
  - destruct (IO.fails r); simpl; [done|].
    split; [done|]. by intros [_ ?].
  - simpl. split; [done|]. lia.
Qed.

Lemma body_cap_gateway s t r b a :
  let out := HandlePublicHTTP s t r in
  let host := normalizeHost (Host r) in
  host ≠ [] → routes s !! host = Some b → agents s !! Token b = Some a →
  maxBodySize < Z.of_nat (length (IO.data (ReqBody r))) →
  (∃ env, sent out = Some env
          ∧ Body env = Base64.EncodeToString
                         (take (Z.to_nat maxBodySize) (IO.data (ReqBody r))))
  ∧ HTTP.status (reply out)
    = (if write_ok t
       then match arrival t with
            | Some resp => HTTP.status (writeResponse resp)
            | None => 504
            end
       else 502).
Proof.
  intros out host Hh Hr Ha Hlen. unfold out, HandlePublicHTTP. fold host.
  rewrite bool_decide_eq_false_2 by done. rewrite Hr, Ha.
  assert (0 ≤ maxBodySize) as H0 by (by vm_compute).
  rewrite ReadAllLimit_long by lia.
  destruct (write_ok t); cbn [negb]; [destruct (arrival t)|];
    (split; [eexists; split; reflexivity|reflexivity]).
Qed.

End gateway.

(** * Facts about the agent's proxy executor *)

Section executor.
Import Strings Protocol Service.

Lemma body_cap_agent side req body urlHost resp :
  EnvTarget req ≠ [] →
  Base64.DecodeString (Body req) = Some body →
  NewRequest side (Method req) (LocalURL (localRequest req [] body))
    = Some urlHost →
  Do side (localRequest req urlHost body) = Ok resp →
  (maxProxyBodySize < Z.of_nat (length (IO.data (RespBody resp))) →
   forwardToLocal side req
   = (StatusCode resp, stripHopHeaders ((λ v, v) <$> RespHeader resp),
      take (Z.to_nat maxProxyBodySize) (IO.data (RespBody resp))))
  ∧ (is_ok (IO.ReadAllLimit (RespBody resp) maxProxyBodySize) = false →
     (forwardToLocal side req).1.1 = 502).
Proof.
  intros Ht Hd Hn Hdo. unfold forwardToLocal.
  rewrite bool_decide_eq_false_2 by done. rewrite Hd, Hn, Hdo. split.
  - intros Hlen. assert (0 ≤ maxProxyBodySize) as H0 by (by vm_compute).
    by rewrite ReadAllLimit_long by lia.
  - by destruct (IO.ReadAllLimit _ _).
Qed.

End executor.

(** * Facts about hop-by-hop headers *)

Section headers.
Import Strings Protocol Textproto.

Lemma delete_pair_lookup {V} (a b : list ascii)
    (m : gmap (list ascii) V) k :
  delete a (delete b m) !! k
  = if decide (k = b ∨ k = a) then None else m !! k.
Proof.
  case_decide as Hk.
  - destruct (decide (a = k)) as [->|Ha]; [by rewrite lookup_delete_eq|].
    rewrite lookup_delete_ne by done.
    destruct Hk as [->| ->]; [|done]. by rewrite lookup_delete_eq.
  - rewrite !lookup_delete_ne; [done| |]; intros ->; apply Hk; auto.
Qed.

Lemma foldl_delete_lookup {V} (f : list ascii → list ascii)
    (ks : list (list ascii)) (m : gmap (list ascii) V) k :
  foldl (λ h key, delete (f key) (delete key h)) m ks !! k
  = if decide (k ∈ ks ∨ k ∈ f <$> ks) then None else m !! k.
Proof.
  revert m. induction ks as [|x ks IH]; intros m; cbn [foldl].
  - case_decide as Hin; [|done]. rewrite fmap_nil in Hin.
    destruct Hin as [?%elem_of_nil|?%elem_of_nil]; done.
  - rewrite IH, delete_pair_lookup.
    assert ((k ∈ x :: ks ∨ k ∈ f <$> x :: ks)
            ↔ (k = x ∨ k = f x) ∨ (k ∈ ks ∨ k ∈ f <$> ks)) as Hiff.
    { rewrite fmap_cons, !elem_of_cons. tauto. }
    repeat case_decide; try done; tauto.
Qed.

Lemma server_strip_lookup h k :
  Server.stripHopHeaders h !! k
  = if decide (is_hop_spelling k) then None else h !! k.
Proof. apply (foldl_delete_lookup ToLower). Qed.

Lemma agent_strip_lookup h k :
  Service.stripHopHeaders h !! k
  = if decide (is_hop_spelling k) then None else h !! k.
Proof. apply (foldl_delete_lookup ToLower). Qed.

(** canonical keys *)
Lemma upper_lower c : upper (lower c) = upper c.
Proof. by destruct c as [[] [] [] [] [] [] [] []]. Qed.

Lemma upper_idemp c : upper (upper c) = upper c.
Proof. by destruct c as [[] [] [] [] [] [] [] []]. Qed.

Lemma lower_upper c : lower (upper c) = lower c.
Proof. by destruct c as [[] [] [] [] [] [] [] []]. Qed.

Lemma valid_lower c : validHeaderFieldByte (lower c) = validHeaderFieldByte c.
Proof. by destruct c as [[] [] [] [] [] [] [] []]. Qed.

Lemma valid_upper c : validHeaderFieldByte (upper c) = validHeaderFieldByte c.
Proof. by destruct c as [[] [] [] [] [] [] [] []]. Qed.

Lemma canonicalize_ToLower up s :
  canonicalize up (ToLower s) = canonicalize up s.
Proof.
  revert up. induction s as [|c s IH]; intros up; [done|].
  cbn [ToLower fmap list_fmap canonicalize].
  rewrite upper_lower, lower_idemp. f_equal. apply IH.
Qed.

Lemma canonicalize_idemp up s :
  canonicalize up (canonicalize up s) = canonicalize up s.
Proof.
  revert up. induction s as [|c s IH]; intros up; [done|].
  cbn [canonicalize]. destruct up.
  - rewrite upper_idemp. f_equal. apply IH.
  - rewrite lower_idemp. f_equal. apply IH.
Qed.

Lemma canonicalize_valid up s :
  forallb validHeaderFieldByte (canonicalize up s)
  = forallb validHeaderFieldByte s.
Proof.
  revert up. induction s as [|c s IH]; intros up; [done|].
  cbn [canonicalize forallb]. rewrite IH. f_equal.
  destruct up; [apply valid_upper|apply valid_lower].
Qed.

Lemma ToLower_valid s :
  forallb validHeaderFieldByte (ToLower s) = forallb validHeaderFieldByte s.
Proof.
  induction s as [|c s IH]; [done|].
  cbn [ToLower fmap list_fmap forallb]. by rewrite valid_lower, <-IH.
Qed.

Lemma Canonical_idemp k :
  CanonicalMIMEHeaderKey (CanonicalMIMEHeaderKey k) = CanonicalMIMEHeaderKey k.
Proof.
  unfold CanonicalMIMEHeaderKey.
  destruct (forallb validHeaderFieldByte k) eqn:Hv.
  - by rewrite canonicalize_valid, Hv, canonicalize_idemp.
  - by rewrite Hv.
Qed.

Lemma Canonical_same_lower k key :
  ToLower k = ToLower key → forallb validHeaderFieldByte key = true →
  CanonicalMIMEHeaderKey k = canonicalize true (ToLower key).
Proof.
  intros Heq Hv. unfold CanonicalMIMEHeaderKey.
  rewrite <-ToLower_valid, Heq, ToLower_valid, Hv.
  by rewrite <-Heq, canonicalize_ToLower.
Qed.

(** In canonical form, a hop-by-hop header name is one of the nine keys
    as they are spelled in the list. *)
Lemma Canonical_hop k : is_hop k → CanonicalMIMEHeaderKey k ∈ Server.stripHopHeaders_keys.
Proof.
  unfold is_hop. intros (key & Heq & Hkey)%list_elem_of_fmap.
  assert (forallb validHeaderFieldByte key = true
          ∧ canonicalize true (ToLower key) = key) as [Hv Hc].
  { revert Hkey. unfold Server.stripHopHeaders_keys, Server.stripHopHeaders_keys.
    rewrite !elem_of_cons, elem_of_nil.
    intros [->|[->|[->|[->|[->|[->|[->|[->|[->|[]]]]]]]]]];
      split; reflexivity. }
  by rewrite (Canonical_same_lower k key Heq Hv), Hc.
Qed.

Lemma canonical_hop_spelling k :
  CanonicalMIMEHeaderKey k = k → is_hop k → is_hop_spelling k.
Proof. intros Hk Hh. left. rewrite <-Hk. by apply Canonical_hop. Qed.

Lemma hop_spelling_is_hop k : is_hop_spelling k → is_hop k.
Proof.
  unfold is_hop_spelling, is_hop. intros [Hk|Hk].
  - by apply list_elem_of_fmap_2.
  - apply list_elem_of_fmap in Hk as (key & -> & Hkey).
    rewrite ToLower_idemp. by apply list_elem_of_fmap_2.
Qed.

Lemma server_strip_canonical h k :
  canonical_keys h → is_hop k → Server.stripHopHeaders h !! k = None.
Proof.
  intros Hcan Hk. rewrite server_strip_lookup. case_decide; [done|].
  destruct (h !! k) eqn:E; [|done].
  exfalso. apply H. apply canonical_hop_spelling; [|done].
  apply Hcan. by rewrite E.
Qed.

Lemma agent_strip_canonical h k :
  canonical_keys h → is_hop k → Service.stripHopHeaders h !! k = None.
Proof.
  intros Hcan Hk. rewrite agent_strip_lookup. case_decide; [done|].
  destruct (h !! k) eqn:E; [|done].
  exfalso. apply H. apply canonical_hop_spelling; [|done].
  apply Hcan. by rewrite E.
Qed.

Lemma CloneHeaders_lookup h k : CloneHeaders h !! k = h !! k.
Proof.
  unfold CloneHeaders. case_bool_decide as Hs.
  - apply map_size_empty_iff in Hs. by subst.
  - rewrite lookup_fmap. by destruct (h !! k).
Qed.

Lemma appendXForwarded_lookup_hop headers r k :
  is_hop k → Server.appendXForwarded headers r !! k = headers !! k.
Proof.
  intros Hk. unfold Server.appendXForwarded.
  assert (k ≠ go "X-Forwarded-Proto") as H1
    by (intros ->; revert Hk; by apply (bool_decide_eq_false_1 _)).
  assert (k ≠ go "X-Forwarded-Host") as H2
    by (intros ->; revert Hk; by apply (bool_decide_eq_false_1 _)).
  assert (k ≠ go "X-Forwarded-For") as H3
    by (intros ->; revert Hk; by apply (bool_decide_eq_false_1 _)).
  rewrite !lookup_insert_ne by done.
  case_bool_decide; [by rewrite lookup_insert_ne|done].
Qed.

Lemma gateway_leg s t r env k :
  Server.sent (Server.HandlePublicHTTP s t r) = Some env →
  canonical_keys (Server.Header r) → is_hop k → Headers env !! k = None.
Proof.
  intros Hsent Hcan Hk.
  assert (Headers env = Server.appendXForwarded
            (Server.stripHopHeaders (CloneHeaders (Server.Header r))) r) as ->.
  { revert Hsent. unfold Server.HandlePublicHTTP.
    case_bool_decide; [done|].
    destruct (Server.routes s !! _) as [b|]; [|done].
    destruct (Server.agents s !! _); [|done].
    destruct (IO.ReadAllLimit _ _); [|done].
    destruct (Server.write_ok t); cbn [negb];
      [destruct (Server.arrival t)|]; by intros [= <-]. }
  rewrite appendXForwarded_lookup_hop by done.
  apply server_strip_canonical; [|done].
  intros k'. rewrite CloneHeaders_lookup. apply Hcan.
Qed.

Lemma HeaderAdd_canonical k v h :
  canonical_keys h → canonical_keys (HTTP.HeaderAdd k v h).
Proof.
  intros Hcan k'. unfold HTTP.HeaderAdd. rewrite lookup_insert.
  case_decide as Hk; [|apply Hcan].
  intros _. rewrite <-Hk. apply Canonical_idemp.
Qed.

Lemma added_canonical (m : gmap (list ascii) (list (list ascii))) :
  canonical_keys
    (map_fold (λ k v h, foldl (λ h item, HTTP.HeaderAdd k item h) h v) ∅ m).
Proof.
  apply (map_fold_weak_ind (λ r _, canonical_keys r)).
  - intros k. rewrite lookup_empty. by intros [? ?].
  - intros k v _ r _ Hr. revert r Hr.
    induction v as [|item v IH]; intros r Hr; simpl; [done|].
    apply IH. by apply HeaderAdd_canonical.
Qed.

Lemma agent_request_leg req urlHost body k :
  is_hop k →
  Service.LocalHeader (Service.localRequest req urlHost body) !! k = None.
Proof.
  intros Hk. unfold Service.localRequest. cbn [Service.LocalHeader].
  apply agent_strip_canonical; [apply added_canonical|done].
Qed.

Lemma plain_no_hop k : is_hop k → Service.plain !! k = None.
Proof.
  intros Hk. unfold Service.plain. apply lookup_singleton_None.
  intros <-. revert Hk. by apply (bool_decide_eq_false_1 _).
Qed.

Lemma agent_response_leg side req k :
  (∀ lr resp, Service.Do side lr = Ok resp →
              canonical_keys (Service.RespHeader resp)) →
  is_hop k → (Service.forwardToLocal side req).1.2 !! k = None.
Proof.
  intros Hcan Hk. unfold Service.forwardToLocal.
  case_bool_decide; [by apply plain_no_hop|].
  destruct (Base64.DecodeString _); [|by apply plain_no_hop].
  destruct (Service.NewRequest _ _ _); [|by apply plain_no_hop].
  destruct (Service.Do _ _) as [resp|e] eqn:Hdo; [|by apply plain_no_hop].
  destruct (IO.ReadAllLimit _ _); [|by apply plain_no_hop].
  cbn [fst snd]. apply agent_strip_canonical; [|done].
  intros k'. rewrite lookup_fmap. intros Hs. eapply Hcan; [done|].
  by destruct (Service.RespHeader resp !! k').
Qed.

End headers.

(** * Facts about the agent's ConfigStore *)

Section config_store.
Import Strings Protocol Agent.

Lemma buildNext_invalid rs next :
  Exists invalid rs → ∃ e, buildNext next rs = Err e.
Proof.
  intros Hex. revert next. induction Hex as [r rs Hr|r rs _ IH]; intros next; simpl.
  - unfold invalid in Hr.
    destruct (NormalizeHostname (Hostname r)) as [host|e]; [|by eexists].
    destruct (NormalizeTarget (Target r)) as [t|e]; [|by eexists].
    by destruct Hr.
  - destruct (NormalizeHostname (Hostname r)) as [host|e]; [|by eexists].
    destruct (NormalizeTarget (Target r)) as [t|e]; [|by eexists].
    apply IH.
Qed.

Lemma ReplaceAll_rejects rs s d :
  Exists invalid rs →
  ∃ e, ReplaceAll rs s d = ((false, Some e), s, d).
Proof.
  intros [e He]%(buildNext_invalid rs ∅). exists e.
  unfold ReplaceAll. by rewrite He.
Qed.






Lemma DecodeRuneInString_width s w :
  Utf8.DecodeRuneInString s = Some w → (1 ≤ w ≤ length s)%nat.
Proof.
  unfold Utf8.DecodeRuneInString. intros H.
  repeat match type of H with
         | match ?l with [] => _ | _ :: _ => _ end = _ => destruct l
         | (if ?b then _ else _) = _ => destruct b
         end;
    try discriminate; injection H as <-; cbn [length]; lia.
Qed.

Lemma coerce_valid fuel s :
  (length s ≤ fuel)%nat → Utf8.valid fuel s = true → JSON.coerce fuel s = s.
Proof.
  revert s. induction fuel as [|fuel IH]; intros [|c s] Hlen Hv;
    cbn [length] in Hlen; try done; try lia.
  cbn [Utf8.valid JSON.coerce] in *.
  destruct (Utf8.DecodeRuneInString (c :: s)) as [w|] eqn:Hw; [|done].
  apply DecodeRuneInString_width in Hw. cbn [length] in Hw.
  rewrite IH; [apply take_drop|rewrite length_drop; cbn [length]; lia|done].
Qed.

Lemma valid_mono fuel s :
  (length s ≤ fuel)%nat →
  Utf8.valid fuel s = Utf8.valid (length s) s.
Proof.
  revert s fuel.
  assert (∀ n s fuel, (length s ≤ n)%nat → (length s ≤ fuel)%nat →
            Utf8.valid fuel s = Utf8.valid n s) as H.
  { induction n as [|n IH]; intros [|c s] [|fuel] Hn Hf;
      cbn [length] in *; try done; try lia.
    cbn [Utf8.valid].
    destruct (Utf8.DecodeRuneInString (c :: s)) as [w|] eqn:Hw; [|done].
    apply DecodeRuneInString_width in Hw. cbn [length] in Hw.
    apply IH; rewrite length_drop; cbn [length]; lia. }
  intros s fuel Hf. by apply H.
Qed.

(** [encoding/json] writes and reads back a string of valid UTF-8 as
    it is. *)
Lemma JSON_text_valid s : Utf8.ValidString s = true → JSON.text s = s.
Proof. intros H. by apply coerce_valid. Qed.

Lemma ValidString_app_ascii c s :
  (N_of_ascii c < 128)%N →
  Utf8.ValidString (c :: s) = Utf8.ValidString s.
Proof.
  intros Hc. unfold Utf8.ValidString. cbn [length Utf8.valid].
  unfold Utf8.DecodeRuneInString.
  rewrite (proj2 (N.ltb_lt _ _) Hc). reflexivity.
Qed.

Lemma ValidString_ascii_text s : ascii_text s → Utf8.ValidString s = true.
Proof.
  induction 1 as [|c s Hc _ IH]; [done|].
  rewrite ValidString_app_ascii by done. exact IH.
Qed.

Lemma jsonRoute_utf8 r :
  Utf8.ValidString (Hostname r) = true → Utf8.ValidString (Target r) = true →
  jsonRoute r = r.
Proof.
  intros Hh Ht. unfold jsonRoute.
  rewrite !JSON_text_valid by done. by destruct r.
Qed.

Lemma snapshot_json s :
  utf8_store s → jsonRoute <$> snapshotLocked s = snapshotLocked s.
Proof.
  intros Hu. rewrite <- (list_fmap_id (snapshotLocked s)) at 2.
  apply Forall_fmap_ext, Forall_forall. intros r Hr.
  unfold snapshotLocked in Hr. rewrite merge_sort_Permutation in Hr.
  apply list_elem_of_fmap in Hr as ([h r'] & -> & Hin%elem_of_map_to_list).
  destruct (Hu h r' Hin). by apply jsonRoute_utf8.
Qed.


End config_store.

(** * The gateway's routing table *)

Section routing_table.
Import Strings Protocol Server.

(** Claim C1, as the code has it.  After [applyRoutes token rs] the
    table holds [b] under [h] exactly when [b] is the binding that the
    payload publishes under [h] (hostname through the gateway's own
    [normalizeHost], target trimmed, entries with an empty host or
    target skipped, the last entry of a host winning), or [b] was there
    before, belongs to another token and no entry of the payload claims
    [h].  So the bindings of [token] are those of the payload, its
    earlier bindings are gone unless published again, and the bindings
    of other tokens under other hostnames are untouched. *)
Theorem applyRoutes_replaces_bindings token rs s h b :
  routes (applyRoutes token rs s) !! h = Some b ↔
  published token rs h b
  ∨ (routes s !! h = Some b ∧ Token b ≠ token
     ∧ Forall (λ r, ¬ claims r h) rs).
Proof. apply applyRoutes_table. Qed.

(** Claim C1 as stated fails: the table is not keyed by the hostname
    rules of the data model ([NormalizeHostname]).  A trailing dot
    stays in the key, and a hostname without a dot, which those rules
    reject, is bound. *)
Lemma applyRoutes_not_section3_normalization :
  Agent.NormalizeHostname (go "a.b.") = Ok (go "a.b")
  ∧ routes (applyRoutes (go "t") [route "a.b." "x:1"; route "localhost" "y:2"]
                        New) !! go "a.b" = None
  ∧ routes (applyRoutes (go "t") [route "a.b." "x:1"; route "localhost" "y:2"]
                        New) !! go "a.b." = Some (binding "t" "x:1")
  ∧ is_ok (Agent.NormalizeHostname (go "localhost")) = false
  ∧ routes (applyRoutes (go "t") [route "a.b." "x:1"; route "localhost" "y:2"]
                        New) !! go "localhost" = Some (binding "t" "y:2").
Proof. repeat split; by vm_compute. Qed.

End routing_table.

(** * The gateway's public HTTP path *)

Section public_path.
Import Strings Protocol Server.

(** A gateway whose table still binds [a.b] although no session is
    registered: the reader of a replaced session applies a payload
    after its successor has gone. *)
Lemma offline_reachable :
  agents (run [Connect (go "t") (Some 1%nat); Connect (go "t") (Some 2%nat);
               ReadFailed (session "t" 2);
               Receive (session "t" 1) (register [route "a.b" "x:1"])])
    !! go "t" = None
  ∧ routes (run [Connect (go "t") (Some 1%nat); Connect (go "t") (Some 2%nat);
                 ReadFailed (session "t" 2);
                 Receive (session "t" 1) (register [route "a.b" "x:1"])])
      !! go "a.b" = Some (binding "t" "x:1").
Proof. split; by vm_compute. Qed.

(** Claim C2.  The public handler answers 400 when the normalized host
    is empty, 404 when the host has no binding, 503 when the token of
    the binding has no session, 502 when the envelope cannot be written
    to the session, and 504 when no response arrives before the
    timeout. *)
Theorem public_http_status_codes s t r :
  (normalizeHost (Host r) = [] →
   HTTP.status (reply (HandlePublicHTTP s t r)) = 400)
  ∧ (normalizeHost (Host r) ≠ [] →
     routes s !! normalizeHost (Host r) = None →
     HTTP.status (reply (HandlePublicHTTP s t r)) = 404)
  ∧ (∀ b, normalizeHost (Host r) ≠ [] →
          routes s !! normalizeHost (Host r) = Some b →
          agents s !! Token b = None →
          HTTP.status (reply (HandlePublicHTTP s t r)) = 503)
  ∧ (∀ b a body, normalizeHost (Host r) ≠ [] →
          routes s !! normalizeHost (Host r) = Some b →
          agents s !! Token b = Some a →
          IO.ReadAllLimit (ReqBody r) maxBodySize = Ok body →
          write_ok t = false →
          HTTP.status (reply (HandlePublicHTTP s t r)) = 502)
  ∧ (∀ b a body, normalizeHost (Host r) ≠ [] →
          routes s !! normalizeHost (Host r) = Some b →
          agents s !! Token b = Some a →
          IO.ReadAllLimit (ReqBody r) maxBodySize = Ok body →
          write_ok t = true → arrival t = None →
          HTTP.status (reply (HandlePublicHTTP s t r)) = 504).
Proof. apply public_status. Qed.

Lemma public_http_status_codes_witness :
  HTTP.status (reply (HandlePublicHTTP oneTunnel (answered 200)
                        (request "  " ∅ (bytes "")))) = 400
  ∧ HTTP.status (reply (HandlePublicHTTP oneTunnel (answered 200)
                          (request "nope.example.com" ∅ (bytes "")))) = 404
  ∧ HTTP.status
      (reply (HandlePublicHTTP
                (run [Connect (go "t") (Some 1%nat);
                      Connect (go "t") (Some 2%nat);
                      ReadFailed (session "t" 2);
                      Receive (session "t" 1) (register [route "a.b" "x:1"])])
                (answered 200) (request "a.b" ∅ (bytes "")))) = 503
  ∧ HTTP.status (reply (HandlePublicHTTP oneTunnel
                          {| write_ok := false; arrival := None |}
                          (request "A.B:80" ∅ (bytes "hi")))) = 502
  ∧ HTTP.status (reply (HandlePublicHTTP oneTunnel
                          {| write_ok := true; arrival := None |}
                          (request "A.B:80" ∅ (bytes "hi")))) = 504.
Proof.
  split.
  { apply (proj1 (public_http_status_codes _ _ _)). by vm_compute. }
  split.
  { apply (proj1 (proj2 (public_http_status_codes _ _ _))); by vm_compute. }
  split.
  { apply (proj1 (proj2 (proj2 (public_http_status_codes _ _ _)))
             (binding "t" "x:1")); by vm_compute. }
  split.
  { apply (proj1 (proj2 (proj2 (proj2 (public_http_status_codes _ _ _))))
             (binding "t" "x:1") (session "t" 1) (go "hi")); by vm_compute. }
  apply (proj2 (proj2 (proj2 (proj2 (public_http_status_codes _ _ _))))
           (binding "t" "x:1") (session "t" 1) (go "hi")); by vm_compute.
Defined.

(** Claim C4 fails on the code at a body that is not base64:
    [writeResponse] has already written the header with the status of
    the envelope when it decodes the body, so the diagnostic goes out
    under that status (here 200), not under 502. *)
Theorem writeResponse_decode_failure_keeps_status :
  Base64.DecodeString (go "%%%") = None
  ∧ writeResponse (response 200 (go "%%%"))
    = {| HTTP.status := 200; HTTP.header := ∅;
         HTTP.body := go "decode response body failed" |}
  ∧ HTTP.status
      (reply (HandlePublicHTTP oneTunnel
                {| write_ok := true;
                   arrival := Some (response 200 (go "%%%")) |}
                (request "a.b" ∅ (bytes "")))) = 200.
Proof. repeat split; by vm_compute. Qed.

End public_path.

(** * The gateway's session registry *)

Section registry.
Import Strings Protocol Server.

(** Claim C3, as the code has it.  On any reachable state, when a
    connection [conn] is accepted for a token that has a session
    [prev]: the new session is the one registered for the token, the
    connection of [prev] is closed, the routing table is left as it is,
    and the exit of the reader of [prev] changes neither the registry
    nor the table.  In the state reached by the reconnect, a
    [register_routes] of the new session leaves the token owning only
    what that message publishes, and the exit of the new session's own
    reader leaves the token owning nothing.  On every reachable state
    two registered sessions never share a token. *)
Theorem reconnect_replaces_session es rawToken conn prev :
  TrimSpace rawToken ≠ [] →
  agents (run es) !! TrimSpace rawToken = Some prev →
  Conn prev ≠ conn →
  (HandleConnect rawToken (Some conn) (run es)).1
  = (None, Some {| SessionToken := TrimSpace rawToken; Conn := conn |})
  ∧ agents (HandleConnect rawToken (Some conn) (run es)).2
    = <[TrimSpace rawToken :=
          {| SessionToken := TrimSpace rawToken; Conn := conn |}]>
        (agents (run es))
  ∧ Conn prev ∈ closed (HandleConnect rawToken (Some conn) (run es)).2
  ∧ routes (HandleConnect rawToken (Some conn) (run es)).2 = routes (run es)
  ∧ agents (readLoopExit prev (HandleConnect rawToken (Some conn) (run es)).2)
    = agents (HandleConnect rawToken (Some conn) (run es)).2
  ∧ routes (readLoopExit prev (HandleConnect rawToken (Some conn) (run es)).2)
    = routes (run es)
  ∧ (∀ rs h b,
       routes (dispatch {| SessionToken := TrimSpace rawToken; Conn := conn |}
                        (register rs)
                        (HandleConnect rawToken (Some conn) (run es)).2)
         !! h = Some b →
       Token b = TrimSpace rawToken →
       published (TrimSpace rawToken) rs h b)
  ∧ (∀ h b,
       routes (readLoopExit {| SessionToken := TrimSpace rawToken;
                               Conn := conn |}
                            (HandleConnect rawToken (Some conn) (run es)).2)
         !! h = Some b →
       Token b ≠ TrimSpace rawToken)
  ∧ (∀ es' k1 k2 a1 a2,
       agents (run es') !! k1 = Some a1 →
       agents (run es') !! k2 = Some a2 →
       SessionToken a1 = SessionToken a2 → k1 = k2 ∧ a1 = a2).
Proof.
  intros Htok Hprev Hconn.
  destruct (reconnect_session es rawToken conn prev Htok Hprev Hconn)
    as (H1 & H2 & H3 & H4 & H5 & H6 & H7 & H8).
  split; [done|]. split; [done|]. split; [done|]. split; [done|].
  split; [done|]. split; [by rewrite H6|]. split; [done|]. split; [done|].
  apply session_unique.
Qed.

Lemma reconnect_replaces_session_witness :
  TrimSpace (go " t ") ≠ []
  ∧ agents oneTunnel !! TrimSpace (go " t ") = Some (session "t" 1)
  ∧ Conn (session "t" 1) ≠ 2%nat
  ∧ routes (readLoopExit (session "t" 1)
              (HandleConnect (go " t ") (Some 2%nat) oneTunnel).2)
    = routes oneTunnel
  ∧ Conn (session "t" 1)
    ∈ closed (HandleConnect (go " t ") (Some 2%nat) oneTunnel).2.
Proof.
  assert (TrimSpace (go " t ") ≠ []) as H1 by (by vm_compute).
  assert (agents oneTunnel !! TrimSpace (go " t ") = Some (session "t" 1))
    as H2 by (by vm_compute).
  assert (Conn (session "t" 1) ≠ 2%nat) as H3 by (by vm_compute).
  destruct (reconnect_replaces_session
              [Connect (go "t") (Some 1%nat);
               Receive (session "t" 1) (register [route "a.b" "x:1"])]
              (go " t ") 2%nat (session "t" 1) H1 H2 H3)
    as (_ & _ & Hc & _ & _ & Hr & _).
  repeat split; assumption.
Defined.

(** Claim C3 as stated fails: after the second connection of the token
    is accepted and the reader of the first session has exited, the
    first connection is closed and the second session is registered,
    but the binding published by the first session is still in the
    table although the second session has published nothing. *)
Lemma reconnect_keeps_old_bindings :
  agents (run [Connect (go "t") (Some 1%nat);
               Receive (session "t" 1) (register [route "a.b" "x:1"]);
               Connect (go "t") (Some 2%nat);
               ReadFailed (session "t" 1)]) !! go "t"
  = Some (session "t" 2)
  ∧ 1%nat ∈ closed (run [Connect (go "t") (Some 1%nat);
                         Receive (session "t" 1) (register [route "a.b" "x:1"]);
                         Connect (go "t") (Some 2%nat);
                         ReadFailed (session "t" 1)])
  ∧ routes (run [Connect (go "t") (Some 1%nat);
                 Receive (session "t" 1) (register [route "a.b" "x:1"]);
                 Connect (go "t") (Some 2%nat);
                 ReadFailed (session "t" 1)]) !! go "a.b"
    = Some (binding "t" "x:1").
Proof.
  split; [by vm_compute|]. split; [|by vm_compute].
  apply (bool_decide_unpack _). by vm_compute.
Qed.

End registry.

(** * The lookup key *)

Section lookup_key.
Import Strings Protocol Server.

(** Claim C5, as the code has it.  [normalizeHost] lower-cases and
    trims a host without a colon and does nothing else to it (a
    trailing dot stays); it drops the port of [host:port] and of a
    bracketed [[host]:port]; and the public handler looks the table up
    under the normalized host, which is also the hostname of the
    envelope it sends. *)
Theorem normalizeHost_lookup_key :
  (∀ x, (":"%char) ∉ x → normalizeHost x = TrimSpace (ToLower x))
  ∧ (∀ h p,
       (":"%char) ∉ h → ("["%char) ∉ h → ("]"%char) ∉ h →
       (":"%char) ∉ p → ("["%char) ∉ p → ("]"%char) ∉ p →
       normalizeHost (h ++ ":"%char :: p) = TrimSpace (ToLower h))
  ∧ (∀ h p,
       ("["%char) ∉ h → ("]"%char) ∉ h →
       (":"%char) ∉ p → ("["%char) ∉ p → ("]"%char) ∉ p →
       normalizeHost ("["%char :: h ++ "]"%char :: ":"%char :: p)
       = TrimSpace (ToLower h))
  ∧ (∀ s t r env,
       sent (HandlePublicHTTP s t r) = Some env →
       ∃ b, routes s !! normalizeHost (Host r) = Some b
            ∧ EnvHostname env = normalizeHost (Host r)
            ∧ EnvTarget env = Target b).
Proof.
  split; [apply normalizeHost_plain|].
  split; [apply normalizeHost_host_port|].
  split; [apply normalizeHost_bracket|apply public_lookup].
Qed.

Lemma normalizeHost_lookup_key_witness :
  normalizeHost (go " App.Example.COM ") = go "app.example.com"
  ∧ normalizeHost (go "App.Example.COM" ++ ":"%char :: go "8080")
    = go "app.example.com"
  ∧ normalizeHost ("["%char :: go "2001:DB8::1" ++ "]"%char :: ":"%char :: go "443")
    = go "2001:db8::1".
Proof.
  destruct normalizeHost_lookup_key as (Ha & Hb & Hc & _).
  split; [|split].
  - rewrite Ha; [by vm_compute|].
    apply (bool_decide_unpack _). by vm_compute.
  - rewrite Hb; [by vm_compute|..]; apply (bool_decide_unpack _); by vm_compute.
  - rewrite Hc; [by vm_compute|..]; apply (bool_decide_unpack _); by vm_compute.
Defined.

(** Claim C5 as stated fails: a trailing dot is not stripped, so a
    request for [a.b.] misses the binding of [a.b]. *)
Lemma normalizeHost_keeps_trailing_dot :
  normalizeHost (go "example.com.") = go "example.com."
  ∧ normalizeHost (go "example.com.") ≠ go "example.com"
  ∧ routes oneTunnel !! go "a.b" = Some (binding "t" "x:1")
  ∧ HTTP.status (reply (HandlePublicHTTP oneTunnel (answered 200)
                          (request "a.b." ∅ (bytes "")))) = 404.
Proof. repeat split; by vm_compute. Qed.

End lookup_key.

(** * The body cap *)

Section body_cap.
Import Strings Protocol Server.

Lemma oversized_length : Z.of_nat (length oversized) = maxBodySize + 1.
Proof.
  unfold oversized. rewrite length_replicate. apply Z2Nat.id. by vm_compute.
Qed.

Lemma public_read_error s t r b a :
  normalizeHost (Host r) ≠ [] →
  routes s !! normalizeHost (Host r) = Some b →
  agents s !! Token b = Some a →
  is_ok (IO.ReadAllLimit (ReqBody r) maxBodySize) = false →
  HTTP.status (reply (HandlePublicHTTP s t r)) = 400
  ∧ sent (HandlePublicHTTP s t r) = None.
Proof.
  intros Hh Hr Ha Hb. unfold HandlePublicHTTP.
  rewrite bool_decide_eq_false_2 by done. rewrite Hr, Ha.
  by destruct (IO.ReadAllLimit _ _).
Qed.

(** Claim C6, as the code has it.  A body longer than the cap is not
    refused.  At the gateway the request goes on with the first 10 MiB
    of the body, which are what the envelope carries, and the status is
    the one the tunnel gives; the gateway answers 400 when reading the
    body fails, which a limited read does only when the stream breaks
    before the cap.  At the agent the response of the local target is
    returned with its own status and the first 10 MiB of its body, and
    a failed read gives 502. *)
Theorem body_over_cap_truncated :
  (∀ s t r b a,
     normalizeHost (Host r) ≠ [] →
     routes s !! normalizeHost (Host r) = Some b →
     agents s !! Token b = Some a →
     maxBodySize < Z.of_nat (length (IO.data (ReqBody r))) →
     (∃ env, sent (HandlePublicHTTP s t r) = Some env
             ∧ Body env = Base64.EncodeToString
                            (take (Z.to_nat maxBodySize)
                                  (IO.data (ReqBody r))))
     ∧ HTTP.status (reply (HandlePublicHTTP s t r))
       = (if write_ok t
          then match arrival t with
               | Some resp => HTTP.status (writeResponse resp)
               | None => 504
               end
          else 502))
  ∧ (∀ s t r b a,
       normalizeHost (Host r) ≠ [] →
       routes s !! normalizeHost (Host r) = Some b →
       agents s !! Token b = Some a →
       is_ok (IO.ReadAllLimit (ReqBody r) maxBodySize) = false →
       HTTP.status (reply (HandlePublicHTTP s t r)) = 400
       ∧ sent (HandlePublicHTTP s t r) = None)
  ∧ (∀ r n,
       is_ok (IO.ReadAllLimit r n) = false ↔
       Z.of_nat (length (IO.data r)) < n ∧ IO.fails r = true)
  ∧ (∀ side req body urlHost resp,
       EnvTarget req ≠ [] →
       Base64.DecodeString (Body req) = Some body →
       Service.NewRequest side (Method req)
         (Service.LocalURL (Service.localRequest req [] body)) = Some urlHost →
       Service.Do side (Service.localRequest req urlHost body) = Ok resp →
       (Service.maxProxyBodySize
          < Z.of_nat (length (IO.data (Service.RespBody resp))) →
        Service.forwardToLocal side req
        = (Service.StatusCode resp,
           Service.stripHopHeaders ((λ v, v) <$> Service.RespHeader resp),
           take (Z.to_nat Service.maxProxyBodySize)
                (IO.data (Service.RespBody resp))))
       ∧ (is_ok (IO.ReadAllLimit (Service.RespBody resp)
                                 Service.maxProxyBodySize) = false →
          (Service.forwardToLocal side req).1.1 = 502)).
Proof.
  split; [apply body_cap_gateway|]. split; [apply public_read_error|].
  split; [apply ReadAllLimit_Err|apply body_cap_agent].
Qed.

Lemma body_over_cap_truncated_witness :
  maxBodySize < Z.of_nat (length oversized)
  ∧ HTTP.status
      (reply (HandlePublicHTTP oneTunnel {| write_ok := true; arrival := None |}
                (request "a.b" ∅ {| IO.data := oversized;
                                    IO.fails := false |}))) = 504
  ∧ (Service.forwardToLocal (localTarget ∅ oversized) (proxied ∅)).1.1 = 200.
Proof.
  assert (maxBodySize < Z.of_nat (length oversized)) as Hlen
    by (rewrite oversized_length; lia).
  destruct body_over_cap_truncated as (Hgw & _ & _ & Hag).
  split; [done|]. split.
  - destruct (Hgw oneTunnel {| write_ok := true; arrival := None |}
                (request "a.b" ∅ {| IO.data := oversized; IO.fails := false |})
                (binding "t" "x:1") (session "t" 1)) as [_ Hs].
    + change (normalizeHost (go "a.b") ≠ []). by vm_compute.
    + change (routes oneTunnel !! normalizeHost (go "a.b")
              = Some (binding "t" "x:1")). by vm_compute.
    + by vm_compute.
    + exact Hlen.
    + exact Hs.
  - destruct (Hag (localTarget ∅ oversized) (proxied ∅) [] (go "x:1")
                {| Service.StatusCode := 200; Service.RespHeader := ∅;
                   Service.RespBody := {| IO.data := oversized;
                                          IO.fails := false |} |})
      as [Hcut _].
    + by vm_compute.
    + by vm_compute.
    + reflexivity.
    + reflexivity.
    + rewrite Hcut; [reflexivity|exact Hlen].
Defined.

(** Claim C6 as stated fails: a request whose body is one byte over the
    cap is answered with the status of the tunnel (here 200), and the
    envelope sent to the agent carries the first 10 MiB of the body. *)
Lemma oversized_body_forwarded :
  maxBodySize < Z.of_nat (length oversized)
  ∧ HTTP.status
      (reply (HandlePublicHTTP oneTunnel (answered 200)
                (request "a.b" ∅ {| IO.data := oversized;
                                    IO.fails := false |}))) = 200
  ∧ ∃ env,
      sent (HandlePublicHTTP oneTunnel (answered 200)
              (request "a.b" ∅ {| IO.data := oversized; IO.fails := false |}))
      = Some env
      ∧ Body env = Base64.EncodeToString (take (Z.to_nat maxBodySize) oversized).
Proof.
  assert (maxBodySize < Z.of_nat (length oversized)) as Hlen
    by (rewrite oversized_length; lia).
  split; [done|].
  destruct (body_cap_gateway oneTunnel (answered 200)
              (request "a.b" ∅ {| IO.data := oversized; IO.fails := false |})
              (binding "t" "x:1") (session "t" 1)) as [He Hs].
  - change (normalizeHost (go "a.b") ≠ []). by vm_compute.
  - change (routes oneTunnel !! normalizeHost (go "a.b")
            = Some (binding "t" "x:1")). by vm_compute.
  - by vm_compute.
  - exact Hlen.
  - split; [exact Hs|exact He].
Qed.

End body_cap.

(** * Hop-by-hop headers on the three legs *)

Section hop_headers.
Import Strings Protocol Textproto.

Lemma canonical_keys_empty : canonical_keys ∅.
Proof. intros k. rewrite lookup_empty. by intros [? ?]. Qed.

Lemma canonical_keys_insert k v h :
  CanonicalMIMEHeaderKey k = k → canonical_keys h →
  canonical_keys (<[k := v]> h).
Proof.
  intros Hk Hh k'. rewrite lookup_insert. case_decide; [by subst|apply Hh].
Qed.

(** Claim C7.  The header maps that reach the program have their keys
    in canonical form: [net/http] delivers the headers of a public
    request so, the client of the agent delivers the headers of the
    local response so, and [Header.Add] makes the keys of the local
    request canonical.  On the three legs none of the nine hop-by-hop
    headers remains, in whatever case its name is asked for: in the
    envelope that the gateway builds, in the request that the agent
    sends to the local target, and in the response that the agent
    returns.  [stripHopHeaders], at the gateway and at the agent, does
    it by deleting the nine names under two spellings, the one of the
    list and the one in lower case, and leaves every other key
    alone. *)
Theorem hop_headers_stripped :
  (∀ h k, Server.stripHopHeaders h !! k
          = if decide (is_hop_spelling k) then None else h !! k)
  ∧ (∀ h k, Service.stripHopHeaders h !! k
            = if decide (is_hop_spelling k) then None else h !! k)
  ∧ (∀ s t r env k,
       Server.sent (Server.HandlePublicHTTP s t r) = Some env →
       canonical_keys (Server.Header r) → is_hop k → Headers env !! k = None)
  ∧ (∀ req urlHost body k,
       is_hop k →
       Service.LocalHeader (Service.localRequest req urlHost body) !! k = None)
  ∧ (∀ side req k,
       (∀ lr resp, Service.Do side lr = Ok resp →
                   canonical_keys (Service.RespHeader resp)) →
       is_hop k → (Service.forwardToLocal side req).1.2 !! k = None).
Proof.
  split; [apply server_strip_lookup|]. split; [apply agent_strip_lookup|].
  split; [apply gateway_leg|]. split; [apply agent_request_leg|].
  apply agent_response_leg.
Qed.

Lemma hop_headers_stripped_witness :
  canonical_keys (<[go "Keep-Alive" := [go "5"]]> (<[go "Accept" := [go "*"]]> ∅))
  ∧ is_hop (go "KEEP-alive")
  ∧ (∃ env,
       Server.sent
         (Server.HandlePublicHTTP oneTunnel (answered 200)
            (request "a.b"
               (<[go "Keep-Alive" := [go "5"]]> (<[go "Accept" := [go "*"]]> ∅))
               (bytes ""))) = Some env
       ∧ Headers env !! go "KEEP-alive" = None
       ∧ Headers env !! go "Keep-Alive" = None)
  ∧ Service.LocalHeader
      (Service.localRequest (proxied {[ go "TRANSFER-ENCODING" := [go "chunked"] ]})
                            (go "x:1") []) !! go "Transfer-Encoding" = None
  ∧ (Service.forwardToLocal
       (localTarget (<[go "Keep-Alive" := [go "5"]]> (<[go "Accept" := [go "*"]]> ∅))
                    (go "ok"))
       (proxied ∅)).1.2 !! go "Keep-Alive" = None.
Proof.
  assert (canonical_keys
            (<[go "Keep-Alive" := [go "5"]]> (<[go "Accept" := [go "*"]]> ∅)))
    as Hcan.
  { apply canonical_keys_insert; [by vm_compute|].
    apply canonical_keys_insert; [by vm_compute|apply canonical_keys_empty]. }
  assert (is_hop (go "KEEP-alive")) as Hk1
    by (apply (bool_decide_unpack _); by vm_compute).
  assert (is_hop (go "Keep-Alive")) as Hk2
    by (apply (bool_decide_unpack _); by vm_compute).
  assert (is_hop (go "Transfer-Encoding")) as Hk3
    by (apply (bool_decide_unpack _); by vm_compute).
  destruct hop_headers_stripped as (_ & _ & Hgw & Hreq & Hresp).
  split; [done|]. split; [done|]. split; [|split].
  - destruct (Server.sent
                (Server.HandlePublicHTTP oneTunnel (answered 200)
                   (request "a.b"
                      (<[go "Keep-Alive" := [go "5"]]>
                         (<[go "Accept" := [go "*"]]> ∅))
                      (bytes "")))) as [env|] eqn:Hsent;
      [|by vm_compute in Hsent].
    exists env. split; [done|].
    split; [exact (Hgw _ _ _ _ _ Hsent Hcan Hk1)
           |exact (Hgw _ _ _ _ _ Hsent Hcan Hk2)].
  - by apply Hreq.
  - apply Hresp; [|exact Hk2]. intros lr resp [= <-]. exact Hcan.
Defined.

(** The canonical form of the keys is what makes the removal
    independent of the case: on a map built by hand with the key
    [CONNECTION], which no leg delivers, [stripHopHeaders] keeps the
    key. *)
Lemma stripHopHeaders_exact_spelling :
  is_hop (go "CONNECTION")
  ∧ Server.stripHopHeaders {[ go "CONNECTION" := [go "close"] ]}
      !! go "CONNECTION" = Some [go "close"]
  ∧ Service.stripHopHeaders {[ go "CONNECTION" := [go "close"] ]}
      !! go "CONNECTION" = Some [go "close"].
Proof.
  split; [apply (bool_decide_unpack _); vm_compute; exact I|].
  repeat split; vm_compute; reflexivity.
Qed.

End hop_headers.

(** * The agent's ConfigStore and normalizers *)

Section agent_store.
Import Strings Protocol Agent.



(** The first hypothesis of the round trip is needed: a store can hold
    a hostname that [NormalizeHostname] accepted but does not leave as
    it is.  [Upsert] of [a.b..] stores [a.b.], and the store opened on
    the saved file has [a.b] instead. *)
Lemma round_trip_needs_normal_form :
  ∃ s d s',
    Upsert (go "a.b..") (go "x:1")
           {| path := go "/etc/agent.json"; routes := ∅ |}
           {| files := ∅; failing := None |} = (None, s, d)
    ∧ routes s !! go "a.b." = Some (route "a.b." "x:1")
    ∧ NewConfigStore (go "/etc/agent.json") d = Ok s'
    ∧ routes s' !! go "a.b." = None
    ∧ routes s' !! go "a.b" = Some (route "a.b" "x:1").
Proof.
  eexists _, _, _. split; [by vm_compute|].
  split; [by vm_compute|]. split; [by vm_compute|]. split; by vm_compute.
Qed.

(** The second hypothesis is needed as well: a target that is not
    valid UTF-8 is left as it is by [NormalizeTarget], but the JSON
    file holds U+FFFD in place of the offending byte, and so does the
    store opened on it. *)
Lemma round_trip_needs_utf8 :
  valid_store {| path := go "/etc/agent.json";
                 routes := {[ go "a.b" :=
                                {| Hostname := go "a.b";
                                   Target := ["255"; ":"; "1"]%char |} ]} |}
  ∧ (let '(_, d) :=
       saveLocked {| path := go "/etc/agent.json";
                     routes := {[ go "a.b" :=
                                    {| Hostname := go "a.b";
                                       Target := ["255"; ":"; "1"]%char |} ]} |}
                  {| files := ∅; failing := None |} in
     NewConfigStore (go "/etc/agent.json") d)
    = Ok {| path := go "/etc/agent.json";
            routes := {[ go "a.b" :=
                           {| Hostname := go "a.b";
                              Target := ["239"; "191"; "189"; ":"; "1"]%char |} ]} |}.
Proof.
  split; [|vm_compute; reflexivity].
  intros h r Hr. cbn [routes] in Hr.
  apply lookup_singleton_Some in Hr as [<- <-].
  split; [reflexivity|]. split; by vm_compute.
Qed.

(** Claim C10.  When some route of the list does not normalize,
    [ReplaceAll] returns an error with [changed = false] and leaves the
    routes in memory and the disk as they were. *)
Theorem ReplaceAll_rejects_invalid rs s d :
  Exists invalid rs →
  ∃ e, ReplaceAll rs s d = ((false, Some e), s, d).
Proof. apply ReplaceAll_rejects. Qed.

Lemma ReplaceAll_rejects_invalid_witness :
  Exists invalid [route "a.b" "x:1"; route "localhost" "y:2"]
  ∧ ∃ e, ReplaceAll [route "a.b" "x:1"; route "localhost" "y:2"]
           {| path := go "/etc/agent.json";
              routes := {[ go "c.d" := route "c.d" "z:3" ]} |}
           {| files := ∅; failing := None |}
         = ((false, Some e),
            {| path := go "/etc/agent.json";
               routes := {[ go "c.d" := route "c.d" "z:3" ]} |},
            {| files := ∅; failing := None |}).
Proof.
  assert (Exists invalid [route "a.b" "x:1"; route "localhost" "y:2"]) as Hex.
  { apply Exists_cons_tl, Exists_cons_hd. left. by vm_compute. }
  split; [exact Hex|]. by apply ReplaceAll_rejects_invalid.
Defined.




End agent_store.

(** * Further properties of the gateway *)

(** ** The base64 coding of the bodies *)

Section base64_coding.
Import Base64.

(** Linear arithmetic with division and remainder by constants. *)
Ltac divlia := zify; Z.to_euclidean_division_equations; lia.

Ltac pow2 :=
  change (2 ^ 18)%N with 262144%N; change (2 ^ 16)%N with 65536%N;
  change (2 ^ 12)%N with 4096%N; change (2 ^ 8)%N with 256%N;
  change (2 ^ 6)%N with 64%N.

Lemma lor_disjoint (x y n : N) :
  (x mod 2 ^ n = 0)%N → (y < 2 ^ n)%N → N.lor x y = (x + y)%N.
Proof.
  intros Hx Hy.
  assert (N.land x y = 0%N) as Hl.
  { apply N.bits_inj. intros i. rewrite N.land_spec, N.bits_0.
    destruct (N.lt_ge_cases i n) as [Hi|Hi].
    - rewrite <- (N.mod_pow2_bits_low x n i Hi), Hx, N.bits_0. done.
    - rewrite <- (N.mod_small y (2 ^ n) Hy), N.mod_pow2_bits_high by done.
      apply andb_false_r. }
  by rewrite (N.add_nocarry_lxor _ _ Hl), (N.lxor_lor _ _ Hl).
Qed.

Lemma dec6_enc6 n : dec6 (enc6 n) = Some (n mod 64)%N.
Proof.
  unfold enc6. change 63%N with (N.ones 6). rewrite N.land_ones.
  change (2 ^ 6)%N with 64%N.
  assert (∀ i, (i < 64)%nat →
            dec6 (nth i alphabet padChar) = Some (N.of_nat i)) as H.
  { intros i Hi.
    do 64 (destruct i as [|i]; [vm_compute; reflexivity|]). lia. }
  rewrite H by (pose proof (N.mod_upper_bound n 64); lia).
  f_equal. lia.
Qed.

Lemma dec6_padChar : dec6 padChar = None.
Proof. reflexivity. Qed.

Lemma enc6_plain n : enc6 n ≠ "010"%char ∧ enc6 n ≠ "013"%char.
Proof.
  pose proof (dec6_enc6 n) as H.
  split; intros Heq; rewrite Heq in H; vm_compute in H; discriminate.
Qed.

Lemma val4_sum x y z w :
  (x < 64 → y < 64 → z < 64 → w < 64 →
   val4 x y z w = x * 262144 + y * 4096 + z * 64 + w)%N.
Proof.
  intros Hx Hy Hz Hw. unfold val4. rewrite !N.shiftl_mul_pow2. pow2.
  rewrite (lor_disjoint (z * 64) w 6) by (pow2; divlia).
  rewrite (lor_disjoint (x * 262144) (y * 4096) 18) by (pow2; divlia).
  rewrite (lor_disjoint _ _ 12) by (pow2; divlia).
  lia.
Qed.

Lemma pack2 a b :
  N.lor (N.shiftl (N_of_ascii a) 16) (N.shiftl (N_of_ascii b) 8)
  = (N_of_ascii a * 65536 + N_of_ascii b * 256)%N.
Proof.
  pose proof (N_ascii_bounded a). pose proof (N_ascii_bounded b).
  rewrite !N.shiftl_mul_pow2. pow2.
  by rewrite (lor_disjoint (_ * 65536) _ 16) by (pow2; divlia).
Qed.

Lemma pack3 a b c :
  N.lor (N.lor (N.shiftl (N_of_ascii a) 16) (N.shiftl (N_of_ascii b) 8))
        (N_of_ascii c)
  = (N_of_ascii a * 65536 + N_of_ascii b * 256 + N_of_ascii c)%N.
Proof.
  pose proof (N_ascii_bounded a). pose proof (N_ascii_bounded b).
  pose proof (N_ascii_bounded c).
  rewrite pack2. by rewrite (lor_disjoint _ _ 8) by (pow2; divlia).
Qed.

Lemma byte_of_spec v s :
  byte_of v s = ascii_of_N ((v / 2 ^ s) mod 256)%N.
Proof.
  unfold byte_of. change 255%N with (N.ones 8).
  by rewrite N.land_ones, N.shiftr_div_pow2.
Qed.

Lemma quantum1 a :
  let v := (N_of_ascii a * 65536)%N in
  byte_of (val4 ((v / 262144) mod 64) ((v / 4096) mod 64) 0 0) 16 = a.
Proof.
  intros v. pose proof (N_ascii_bounded a).
  rewrite val4_sum by (try apply N.mod_upper_bound; lia).
  rewrite byte_of_spec. pow2.
  match goal with |- ascii_of_N ?n = _ =>
    replace n with (N_of_ascii a) by (unfold v; divlia) end.
  apply ascii_N_embedding.
Qed.

Lemma quantum2 a b :
  let v := (N_of_ascii a * 65536 + N_of_ascii b * 256)%N in
  let u := val4 ((v / 262144) mod 64) ((v / 4096) mod 64)
                ((v / 64) mod 64) 0 in
  byte_of u 16 = a ∧ byte_of u 8 = b.
Proof.
  intros v u. pose proof (N_ascii_bounded a). pose proof (N_ascii_bounded b).
  assert (u = v) as ->.
  { unfold u. rewrite val4_sum by (try apply N.mod_upper_bound; lia).
    unfold v. divlia. }
  rewrite !byte_of_spec. pow2. split.
  - replace ((v / 65536) mod 256)%N with (N_of_ascii a)
      by (unfold v; divlia).
    apply ascii_N_embedding.
  - replace ((v / 256) mod 256)%N with (N_of_ascii b)
      by (unfold v; divlia).
    apply ascii_N_embedding.
Qed.

Lemma quantum3 a b c :
  let v := (N_of_ascii a * 65536 + N_of_ascii b * 256 + N_of_ascii c)%N in
  let u := val4 ((v / 262144) mod 64) ((v / 4096) mod 64)
                ((v / 64) mod 64) (v mod 64) in
  byte_of u 16 = a ∧ byte_of u 8 = b ∧ byte_of u 0 = c.
Proof.
  intros v u.
  pose proof (N_ascii_bounded a). pose proof (N_ascii_bounded b).
  pose proof (N_ascii_bounded c).
  assert (u = v) as ->.
  { unfold u. rewrite val4_sum by (apply N.mod_upper_bound; lia).
    unfold v. divlia. }
  rewrite !byte_of_spec. pow2. change (2 ^ 0)%N with 1%N.
  repeat split.
  - replace ((v / 65536) mod 256)%N with (N_of_ascii a)
      by (unfold v; divlia).
    apply ascii_N_embedding.
  - replace ((v / 256) mod 256)%N with (N_of_ascii b)
      by (unfold v; divlia).
    apply ascii_N_embedding.
  - replace ((v / 1) mod 256)%N with (N_of_ascii c)
      by (unfold v; divlia).
    apply ascii_N_embedding.
Qed.

Lemma decode_quanta_encode b :
  decode_quanta (EncodeToString b) = Some b
  ∧ (∀ a, decode_quanta (EncodeToString (a :: b)) = Some (a :: b))
  ∧ (∀ a a', decode_quanta (EncodeToString (a :: a' :: b))
             = Some (a :: a' :: b)).
Proof.
  induction b as [|c b (IH1 & IH2 & IH3)].
  - split; [done|]. split.
    + intros a. cbn [EncodeToString decode_quanta].
      rewrite !dec6_enc6, dec6_padChar.
      rewrite bool_decide_true by done.
      rewrite N.shiftl_mul_pow2, !N.shiftr_div_pow2. pow2.
      f_equal. f_equal. apply quantum1.
    + intros a a'. cbn [EncodeToString decode_quanta].
      rewrite !dec6_enc6, dec6_padChar.
      rewrite bool_decide_true by done.
      rewrite pack2, !N.shiftr_div_pow2. pow2.
      destruct (quantum2 a a') as [-> ->]. reflexivity.
  - split; [apply IH2|]. split; [intros a; apply IH3|].
    intros a a'. cbn [EncodeToString decode_quanta].
    rewrite !dec6_enc6, IH1.
    rewrite pack3, !N.shiftr_div_pow2. pow2.
    cbn [fmap option_fmap option_map].
    destruct (quantum3 a a' c) as (Ha & Hb & Hc). cbn zeta in *.
    by rewrite Ha, Hb, Hc.
Qed.

Lemma EncodeToString_no_newline b :
  Forall (λ c, c ≠ "010"%char ∧ c ≠ "013"%char) (EncodeToString b).
Proof.
  assert (padChar ≠ "010"%char ∧ padChar ≠ "013"%char) as Hp by done.
  cut (Forall (λ c, c ≠ "010"%char ∧ c ≠ "013"%char) (EncodeToString b)
       ∧ (∀ a, Forall (λ c, c ≠ "010"%char ∧ c ≠ "013"%char)
                 (EncodeToString (a :: b)))
       ∧ (∀ a a', Forall (λ c, c ≠ "010"%char ∧ c ≠ "013"%char)
                    (EncodeToString (a :: a' :: b)))); [tauto|].
  induction b as [|c b (IH1 & IH2 & IH3)].
  - repeat split; [constructor|intros a|intros a a'];
      cbn [EncodeToString];
      repeat (apply Forall_cons; split;
              [first [apply enc6_plain | exact Hp]|]);
      constructor.
  - split; [apply IH2|]. split; [intros a; apply IH3|]. intros a a'.
    cbn [EncodeToString].
    repeat (apply Forall_cons; split; [apply enc6_plain|]). exact IH1.
Qed.

Lemma filter_all {A} (P : A → Prop) `{∀ x, Decision (P x)} (l : list A) :
  Forall P l → filter P l = l.
Proof.
  induction 1 as [|x l Hx _ IH]; [done|].
  by rewrite filter_cons_True, IH.
Qed.

(** Decoding an encoding gives the bytes back. *)
Lemma DecodeString_EncodeToString b :
  DecodeString (EncodeToString b) = Some b.
Proof.
  unfold DecodeString.
  rewrite filter_all by apply EncodeToString_no_newline.
  apply decode_quanta_encode.
Qed.

Lemma enc6_ascii n : (N_of_ascii (enc6 n) < 128)%N.
Proof.
  unfold enc6. change 63%N with (N.ones 6). rewrite N.land_ones.
  change (2 ^ 6)%N with 64%N.
  assert (∀ i, (i < 64)%nat →
            (N_of_ascii (nth i alphabet padChar) < 128)%N) as H.
  { intros i Hi.
    do 64 (destruct i as [|i]; [by vm_compute|]). lia. }
  apply H. pose proof (N.mod_upper_bound n 64). lia.
Qed.

Lemma EncodeToString_ascii b : ascii_text (EncodeToString b).
Proof.
  assert (N_of_ascii padChar < 128)%N as Hp by (by vm_compute).
  unfold ascii_text.
  cut (Forall (λ c, (N_of_ascii c < 128)%N) (EncodeToString b)
       ∧ (∀ a, Forall (λ c, (N_of_ascii c < 128)%N)
                 (EncodeToString (a :: b)))
       ∧ (∀ a a', Forall (λ c, (N_of_ascii c < 128)%N)
                    (EncodeToString (a :: a' :: b)))); [tauto|].
  induction b as [|c b (IH1 & IH2 & IH3)].
  - repeat split; [constructor|intros a|intros a a'];
      cbn [EncodeToString];
      repeat (apply Forall_cons; split;
              [first [apply enc6_ascii | exact Hp]|]);
      constructor.
  - split; [apply IH2|]. split; [intros a; apply IH3|]. intros a a'.
    cbn [EncodeToString].
    repeat (apply Forall_cons; split; [apply enc6_ascii|]). exact IH1.
Qed.

(** ASCII text crosses the JSON coding unchanged, and no string
    becomes empty or stops being empty. *)
Lemma text_ascii s : ascii_text s → JSON.text s = s.
Proof. intros H. by apply JSON_text_valid, ValidString_ascii_text. Qed.

Lemma text_nil s : JSON.text s = [] ↔ s = [].
Proof.
  split; [|by intros ->]. unfold JSON.text.
  destruct s as [|c s]; [done|]. cbn [length JSON.coerce].
  destruct (Utf8.DecodeRuneInString (c :: s)) as [w|] eqn:Hw; [|done].
  apply DecodeRuneInString_width in Hw.
  destruct w as [|w]; [lia|]. done.
Qed.

(** The body of an envelope, base64 text, crosses the JSON coding
    unchanged and decodes to the bytes that were encoded. *)
Lemma body_crosses b :
  DecodeString (JSON.text (EncodeToString b)) = Some b.
Proof.
  rewrite text_ascii by apply EncodeToString_ascii.
  apply DecodeString_EncodeToString.
Qed.

End base64_coding.

(** ** The pending response slots *)

Section pending_slots.
Import Strings Protocol Server.

Lemma slots_ok_step sl e :
  pending_ok sl ∧ answered_once sl →
  pending_ok (slotStep sl e) ∧ answered_once (slotStep sl e).
Proof.
  intros [Hp Ha]. destruct e as [id|id|env]; cbn [slotStep].
  - unfold awaitResponse, AddPending. split.
    + intros id' ch. cbn [pending chans].
      destruct (decide (id' = id)) as [->|Hne].
      * rewrite lookup_insert_eq. intros [= <-].
        by rewrite lookup_app_r, Nat.sub_diag.
      * rewrite lookup_insert_ne by done. intros Hl.
        apply Hp in Hl. by apply lookup_app_l_Some.
    + intros ch id' l. cbn [chans]. intros Hl.
      apply lookup_app_Some in Hl as [Hl|[_ Hl]].
      * by eapply Ha.
      * destruct (ch - length (chans sl))%nat; [|done].
        injection Hl as <- <-. by left.
  - unfold RemovePending. split; [|exact Ha].
    intros id' ch. cbn [pending chans].
    destruct (decide (id' = id)) as [->|Hne].
    + by rewrite lookup_delete_eq.
    + rewrite lookup_delete_ne by done. apply Hp.
  - unfold deliver. case_bool_decide as Hreg; [done|].
    case_bool_decide as Hresp; [|done].
    case_bool_decide as Hid; [done|].
    unfold PopPending.
    destruct (pending sl !! RequestID env) as [ch|] eqn:Hch; [|done].
    pose proof (Hp _ _ Hch) as Hc.
    unfold chanSend. split.
    + intros id' ch'. cbn [pending chans].
      destruct (decide (id' = RequestID env)) as [->|Hne].
      * by rewrite lookup_delete_eq.
      * rewrite lookup_delete_ne by done. intros Hl.
        pose proof (Hp _ _ Hl) as Hc'.
        destruct (decide (ch' = ch)) as [->|Hnc]; [congruence|].
        by rewrite list_lookup_alter_ne.
    + intros ch' id' l. cbn [pending chans].
      destruct (decide (ch' = ch)) as [->|Hnc].
      * rewrite list_lookup_alter, decide_True, Hc by done.
        intros Heq. injection Heq as <- <-. right. by exists env.
      * rewrite list_lookup_alter_ne by done. apply Ha.
Qed.

Lemma slots_ok_run es :
  pending_ok (foldl slotStep noSlots es)
  ∧ answered_once (foldl slotStep noSlots es).
Proof.
  induction es as [|e es IH] using rev_ind.
  - split; intros ? ?; cbn; [by rewrite lookup_empty|done].
  - rewrite foldl_app. cbn [foldl]. by apply slots_ok_step.
Qed.

Lemma deliver_unknown env sl :
  RequestID env = [] ∨ pending sl !! RequestID env = None →
  deliver env sl = sl.
Proof.
  intros H. unfold deliver, PopPending.
  repeat case_bool_decide; try done.
  destruct H as [H|H]; [done|]. by rewrite H.
Qed.

(** Property X1.  Whatever handlers wait and return and whatever the
    agent sends, on each response channel nothing, or exactly one
    envelope, is ever sent: a [proxy_response] that carries the request
    id under which the channel was registered.  The channel has room
    for one envelope, so the reader of the session never blocks on it.
    A response whose request id is empty or not pending changes
    nothing. *)
Theorem one_response_per_request es ch id l :
  chans (foldl slotStep noSlots es) !! ch = Some (id, l) →
  (l = [] ∨ ∃ env, l = [env] ∧ RequestID env = id
                   ∧ Type_ env = TypeProxyResponse)
  ∧ (∀ env, RequestID env = []
            ∨ pending (foldl slotStep noSlots es) !! RequestID env = None →
            deliver env (foldl slotStep noSlots es)
            = foldl slotStep noSlots es).
Proof.
  intros Hch. split; [|intros env; apply deliver_unknown].
  by apply (proj2 (slots_ok_run es) ch id l).
Qed.

Lemma one_response_per_request_witness :
  chans (foldl slotStep noSlots
           [Await (go "1"); Reads (response 200 []); Finished (go "1");
            Reads (response 200 [])]) !! 0%nat
  = Some (go "1", [response 200 []])
  ∧ ([response 200 []] = []
     ∨ ∃ env, [response 200 []] = [env] ∧ RequestID env = go "1"
              ∧ Type_ env = TypeProxyResponse).
Proof.
  assert (chans (foldl slotStep noSlots
                   [Await (go "1"); Reads (response 200 []);
                    Finished (go "1"); Reads (response 200 [])]) !! 0%nat
          = Some (go "1", [response 200 []])) as H by reflexivity.
  split; [exact H|].
  exact (proj1 (one_response_per_request _ _ _ _ H)).
Defined.

End pending_slots.

(** ** The public path *)

Section tunnel_legs.
Import Strings Protocol Server.

Lemma go_inj (a b : string) : go a = go b → a = b.
Proof.
  unfold go. intros H.
  by rewrite <- (string_of_list_ascii_of_string a),
             <- (string_of_list_ascii_of_string b), H.
Qed.

Lemma FormatUint_inj n m :
  0 ≤ n → 0 ≤ m → FormatUint n = FormatUint m → n = m.
Proof.
  intros Hn Hm H. unfold FormatUint in H.
  apply go_inj in H.
  apply (f_equal NilEmpty.uint_of_string) in H.
  rewrite !NilEmpty.usu in H. injection H as H.
  apply (f_equal N.of_uint) in H.
  rewrite !DecimalN.Unsigned.of_to in H. lia.
Qed.

(** The envelope of a public request that reaches the tunnel. *)
Lemma public_envelope s t r env :
  sent (HandlePublicHTTP s t r) = Some env →
  ∃ b a body,
    normalizeHost (Host r) ≠ []
    ∧ routes s !! normalizeHost (Host r) = Some b
    ∧ agents s !! Token b = Some a
    ∧ IO.ReadAllLimit (ReqBody r) maxBodySize = Ok body
    ∧ env = {| Type_ := TypeProxyRequest;
               RequestID := FormatUint ((requestSeq s + 1) mod 2 ^ 64);
               Method := ReqMethod r;
               Path := URLPath r;
               Query := RawQuery r;
               Headers := appendXForwarded
                            (stripHopHeaders (CloneHeaders (Header r))) r;
               Body := Base64.EncodeToString body;
               Status := 0;
               EnvHostname := normalizeHost (Host r);
               EnvTarget := Target b;
               Routes := [];
               Message := [] |}.
Proof.
  unfold HandlePublicHTTP.
  case_bool_decide as Hh; [cbn [sent]; intros ?; discriminate|].
  destruct (routes s !! normalizeHost (Host r)) as [b|] eqn:Hb;
    [|cbn [sent]; intros ?; discriminate].
  destruct (agents s !! Token b) as [a|] eqn:Ha;
    [|cbn [sent]; intros ?; discriminate].
  destruct (IO.ReadAllLimit _ _) as [body|] eqn:Hbody;
    [|cbn [sent]; intros ?; discriminate].
  intros Hs. exists b, a, body.
  split; [done|]. split; [done|]. split; [done|]. split; [done|].
  destruct (write_ok t); cbn [negb] in Hs; [destruct (arrival t)|];
    by injection Hs as <-.
Qed.

Lemma public_sent s t r :
  (sent (HandlePublicHTTP s t r) = None ∧ after (HandlePublicHTTP s t r) = s)
  ∨ (∃ env, sent (HandlePublicHTTP s t r) = Some env
       ∧ RequestID env = FormatUint ((requestSeq s + 1) mod 2 ^ 64)
       ∧ requestSeq (after (HandlePublicHTTP s t r))
         = (requestSeq s + 1) mod 2 ^ 64).
Proof.
  unfold HandlePublicHTTP.
  case_bool_decide; [by left|].
  destruct (routes s !! _); [|by left].
  destruct (agents s !! _); [|by left].
  destruct (IO.ReadAllLimit _ _); [|by left].
  right. destruct (write_ok t); cbn [negb].
  - destruct (arrival t); eexists; done.
  - eexists; done.
Qed.

Lemma serve_ids rs : ∀ s,
  ∃ m, (m ≤ length rs)%nat ∧
    RequestID <$> serve s rs
    = (λ k, FormatUint ((requestSeq s + Z.of_nat k) mod 2 ^ 64)) <$> seq 1 m.
Proof.
  induction rs as [|[t r] rs IH]; intros s.
  - exists 0%nat. done.
  - cbn [serve].
    destruct (public_sent s t r) as [[Hs Ha]|(env & Hs & Hid & Hq)];
      rewrite Hs.
    + rewrite Ha. destruct (IH s) as (m & Hm & ->).
      exists m. split; [cbn; lia|done].
    + destruct (IH (after (HandlePublicHTTP s t r))) as (m & Hm & Hids).
      exists (S m). split; [cbn; lia|].
      rewrite fmap_cons, Hids, Hid. cbn [seq]. rewrite fmap_cons.
      f_equal. rewrite <- (fmap_S_seq 1 m), <- list_fmap_compose.
      apply list_fmap_ext. intros _ k _. cbn [compose]. rewrite Hq.
      f_equal. rewrite Z.add_mod_idemp_l by lia. f_equal. lia.
Qed.

(** Property X2.  The request ids that the gateway gives to public
    requests handled one after the other are pairwise different, as
    long as no more than 2^64 requests are handled: no response can be
    delivered to the handler of another request of the sequence. *)
Theorem request_ids_distinct s rs :
  Z.of_nat (length rs) ≤ 2 ^ 64 →
  NoDup (RequestID <$> serve s rs).
Proof.
  intros Hlen. destruct (serve_ids rs s) as (m & Hm & ->).
  apply NoDup_fmap_2_strong; [|apply NoDup_seq].
  intros k1 k2 H1 H2 Heq.
  apply elem_of_seq in H1, H2.
  apply FormatUint_inj in Heq; try (apply Z.mod_pos_bound; lia).
  set (a := requestSeq s) in *.
  pose proof (Z.div_mod (a + Z.of_nat k1) (2 ^ 64) ltac:(lia)) as E1.
  pose proof (Z.div_mod (a + Z.of_nat k2) (2 ^ 64) ltac:(lia)) as E2.
  rewrite Heq in E1.
  assert ((a + Z.of_nat k1) `div` 2 ^ 64 = (a + Z.of_nat k2) `div` 2 ^ 64)
    by nia.
  lia.
Qed.

Lemma request_ids_distinct_witness :
  Z.of_nat (length [(answered 200, request "a.b" ∅ (bytes "x"));
                    (answered 200, request "nowhere" ∅ (bytes ""));
                    (answered 504, request "A.B:80" ∅ (bytes "y"))])
  ≤ 2 ^ 64
  ∧ RequestID <$> serve oneTunnel
                    [(answered 200, request "a.b" ∅ (bytes "x"));
                     (answered 200, request "nowhere" ∅ (bytes ""));
                     (answered 504, request "A.B:80" ∅ (bytes "y"))]
    = [go "1"; go "2"]
  ∧ NoDup (RequestID <$> serve oneTunnel
                           [(answered 200, request "a.b" ∅ (bytes "x"));
                            (answered 200, request "nowhere" ∅ (bytes ""));
                            (answered 504, request "A.B:80" ∅ (bytes "y"))]).
Proof.
  assert (Z.of_nat (length [(answered 200, request "a.b" ∅ (bytes "x"));
                            (answered 200, request "nowhere" ∅ (bytes ""));
                            (answered 504, request "A.B:80" ∅ (bytes "y"))])
          ≤ 2 ^ 64) as H by (by vm_compute).
  split; [exact H|]. split; [vm_compute; reflexivity|].
  exact (request_ids_distinct oneTunnel _ H).
Defined.

(** Property X3.  In the envelope that the gateway sends for a public
    request, [X-Forwarded-Host] is the normalized host of the request
    and [X-Forwarded-Proto] is [https] or [http], both replacing what
    the client sent under these names; the address of the client is
    appended to the values of [X-Forwarded-For] that the request
    carried, unless that address is empty; every other header of the
    request is passed on unchanged, except the hop-by-hop names that
    [stripHopHeaders] deletes. *)
Theorem forwarded_headers s t r env :
  sent (HandlePublicHTTP s t r) = Some env →
  Headers env !! go "X-Forwarded-Host" = Some [normalizeHost (Host r)]
  ∧ Headers env !! go "X-Forwarded-Proto"
    = Some [if TLS r then go "https" else go "http"]
  ∧ Headers env !! go "X-Forwarded-For"
    = (if bool_decide (extractClientIP (RemoteAddr r) ≠ [])
       then Some (default [] (Header r !! go "X-Forwarded-For")
                  ++ [extractClientIP (RemoteAddr r)])
       else Header r !! go "X-Forwarded-For")
  ∧ (∀ k, k ≠ go "X-Forwarded-For" → k ≠ go "X-Forwarded-Host" →
          k ≠ go "X-Forwarded-Proto" →
          Headers env !! k
          = if decide (is_hop_spelling k) then None else Header r !! k).
Proof.
  intros (b & a & body & _ & _ & _ & _ & ->)%public_envelope.
  cbn [Headers]. unfold appendXForwarded.
  assert (stripHopHeaders (CloneHeaders (Header r)) !! go "X-Forwarded-For"
          = Header r !! go "X-Forwarded-For") as Hxff.
  { rewrite server_strip_lookup, CloneHeaders_lookup.
    rewrite decide_False; [done|].
    apply (bool_decide_eq_false_1 _). by vm_compute. }
  split; [|split; [|split]].
  - rewrite lookup_insert_ne by done. by rewrite lookup_insert_eq.
  - by rewrite lookup_insert_eq.
  - rewrite !lookup_insert_ne by done.
    case_bool_decide; [by rewrite lookup_insert_eq, Hxff|done].
  - intros k H1 H2 H3. rewrite !lookup_insert_ne by done.
    case_bool_decide; [rewrite lookup_insert_ne by done|];
      by rewrite server_strip_lookup, CloneHeaders_lookup.
Qed.

Lemma forwarded_headers_witness :
  ∃ env,
    sent (HandlePublicHTTP oneTunnel (answered 200)
            (request "A.B:80"
               (<[go "X-Forwarded-For" := [go "9.9.9.9"]]>
                  {[ go "X-Forwarded-Host" := [go "evil"] ]})
               (bytes ""))) = Some env
    ∧ Headers env !! go "X-Forwarded-Host" = Some [go "a.b"]
    ∧ Headers env !! go "X-Forwarded-For" = Some [go "9.9.9.9"; go "1.2.3.4"].
Proof.
  destruct (sent (HandlePublicHTTP oneTunnel (answered 200)
                    (request "A.B:80"
                       (<[go "X-Forwarded-For" := [go "9.9.9.9"]]>
                          {[ go "X-Forwarded-Host" := [go "evil"] ]})
                       (bytes "")))) as [env|] eqn:Hsent;
    [|by vm_compute in Hsent].
  exists env. split; [done|].
  destruct (forwarded_headers _ _ _ _ Hsent) as (Hh & _ & Hf & _).
  split; [exact Hh|exact Hf].
Defined.

Lemma forwardToLocal_call side req :
  Service.forwardToLocal side req
  = match Service.localCall side req with
    | Some lr =>
        match Service.Do side lr with
        | Err e => (HTTP.StatusBadGateway, Service.plain,
                    go "local request failed: " ++ go e)
        | Ok localResp =>
            match IO.ReadAllLimit (Service.RespBody localResp)
                                  Service.maxProxyBodySize with
            | Err _ => (HTTP.StatusBadGateway, Service.plain,
                        go "read local response failed")
            | Ok respBody =>
                (Service.StatusCode localResp,
                 Service.stripHopHeaders
                   ((λ v, v) <$> Service.RespHeader localResp),
                 respBody)
            end
        end
    | None =>
        if bool_decide (EnvTarget req = []) then
          (HTTP.StatusBadGateway, Service.plain, go "missing target")
        else if bool_decide (Base64.DecodeString (Body req) = None) then
          (HTTP.StatusBadRequest, Service.plain, go "invalid request body")
        else (HTTP.StatusBadGateway, Service.plain,
              go "build local request failed")
    end.
Proof.
  unfold Service.forwardToLocal, Service.localCall.
  case_bool_decide; [done|].
  destruct (Base64.DecodeString (Body req)) as [body|]; [|done].
  destruct (Service.NewRequest side _ _); [done|].
  by rewrite bool_decide_eq_false_2.
Qed.

(** Property X4.  When the envelope that the gateway sends for a public
    request has crossed the control connection and the agent gets as
    far as calling the local target, the request it puts to the local
    target has exactly the body that the gateway read from the public
    request: the base64 coding is undone exactly, whatever the bytes of
    the body.  Its method, its [Host] and its URL are the method of the
    public request, the normalized host of the public request, and
    [http://] followed by the target bound to that host, the path and
    the query of the public request, each as the JSON coding of the
    connection carries it ([JSON.text], the identity on valid UTF-8).
    The agent answers with what the local target gives to that
    request. *)
Theorem request_reaches_local_target s t r env side lr :
  sent (HandlePublicHTTP s t r) = Some env →
  Service.localCall side (Wire.envelope env) = Some lr →
  (∃ b body,
     routes s !! normalizeHost (Host r) = Some b
     ∧ IO.ReadAllLimit (ReqBody r) maxBodySize = Ok body
     ∧ Service.LocalBody lr = body
     ∧ Service.LocalMethod lr = JSON.text (ReqMethod r)
     ∧ Service.LocalHost lr = JSON.text (normalizeHost (Host r))
     ∧ Service.LocalURL lr
       = go "http://" ++ JSON.text (Target b) ++ JSON.text (URLPath r)
         ++ (if bool_decide (RawQuery r ≠ [])
             then go "?" ++ JSON.text (RawQuery r) else []))
  ∧ Service.forwardToLocal side (Wire.envelope env)
    = match Service.Do side lr with
      | Err e => (HTTP.StatusBadGateway, Service.plain,
                  go "local request failed: " ++ go e)
      | Ok localResp =>
          match IO.ReadAllLimit (Service.RespBody localResp)
                                Service.maxProxyBodySize with
          | Err _ => (HTTP.StatusBadGateway, Service.plain,
                      go "read local response failed")
          | Ok respBody =>
              (Service.StatusCode localResp,
               Service.stripHopHeaders
                 ((λ v, v) <$> Service.RespHeader localResp),
               respBody)
          end
      end.
Proof.
  intros Hsent Hcall. split; [|by rewrite forwardToLocal_call, Hcall].
  revert Hcall.
  apply public_envelope in Hsent as (b & a & body & Hh & Hb & _ & Hbody & ->).
  unfold Service.localCall, Wire.envelope. cbn [EnvTarget Body Method].
  case_bool_decide; [done|].
  rewrite body_crosses.
  destruct (Service.NewRequest side _ _) as [urlHost|]; [|done].
  intros [= <-]. exists b, body.
  split; [done|]. split; [done|]. split; [done|]. split; [done|].
  unfold Service.localRequest.
  cbn [Service.LocalHost Service.LocalURL EnvHostname EnvTarget Path Query].
  rewrite bool_decide_eq_true_2 by (by rewrite text_nil). split; [done|].
  rewrite (bool_decide_ext (JSON.text (RawQuery r) ≠ []) (RawQuery r ≠ []))
    by (by rewrite text_nil).
  case_bool_decide;
    [by rewrite <- !(assoc_L (++))|by rewrite (right_id_L [] (++))].
Qed.

Lemma request_reaches_local_target_witness :
  ∃ env lr,
    sent (HandlePublicHTTP oneTunnel (answered 200)
            (request "A.B:80" ∅ (bytes "hello"))) = Some env
    ∧ Service.localCall (localTarget ∅ (go "ok")) (Wire.envelope env)
      = Some lr
    ∧ Service.forwardToLocal (localTarget ∅ (go "ok")) (Wire.envelope env)
      = match Service.Do (localTarget ∅ (go "ok")) lr with
        | Err e => (HTTP.StatusBadGateway, Service.plain,
                    go "local request failed: " ++ go e)
        | Ok localResp =>
            match IO.ReadAllLimit (Service.RespBody localResp)
                                  Service.maxProxyBodySize with
            | Err _ => (HTTP.StatusBadGateway, Service.plain,
                        go "read local response failed")
            | Ok respBody =>
                (Service.StatusCode localResp,
                 Service.stripHopHeaders
                   ((λ v, v) <$> Service.RespHeader localResp),
                 respBody)
            end
        end.
Proof.
  assert (is_Some
            (sent (HandlePublicHTTP oneTunnel (answered 200)
                     (request "A.B:80" ∅ (bytes "hello")))
             ≫= λ env, Service.localCall (localTarget ∅ (go "ok"))
                         (Wire.envelope env))) as H
    by (apply (bool_decide_unpack _); vm_compute; exact I).
  destruct (sent (HandlePublicHTTP oneTunnel (answered 200)
                    (request "A.B:80" ∅ (bytes "hello"))))
    as [env|] eqn:Hsent; [|by destruct H].
  cbn [mbind option_bind] in H.
  destruct (Service.localCall (localTarget ∅ (go "ok")) (Wire.envelope env))
    as [lr|] eqn:Hcall; [|by destruct H].
  exists env, lr. split; [done|]. split; [done|].
  exact (proj2 (request_reaches_local_target _ _ _ _ _ _ Hsent Hcall)).
Defined.

(** Property X5.  The [proxy_response] that the agent writes for a
    request, as the gateway reads it from the control connection, is
    of type [proxy_response], carries the request id of the request
    (as the JSON coding carries it) and the status that
    [forwardToLocal] returned, and has a body whose base64 decoding,
    which the gateway performs in [writeResponse], succeeds and gives
    exactly the bytes that [forwardToLocal] returned, whatever these
    bytes are. *)
Theorem response_envelope_faithful side req :
  Type_ (Wire.envelope (Service.handleProxyRequest side req))
  = TypeProxyResponse
  ∧ RequestID (Wire.envelope (Service.handleProxyRequest side req))
    = JSON.text (RequestID req)
  ∧ Status (Wire.envelope (Service.handleProxyRequest side req))
    = (Service.forwardToLocal side req).1.1
  ∧ Base64.DecodeString
      (Body (Wire.envelope (Service.handleProxyRequest side req)))
    = Some (Service.forwardToLocal side req).2.
Proof.
  unfold Service.handleProxyRequest, Wire.envelope.
  destruct (Service.forwardToLocal side req) as [[status headers] body].
  cbn [Type_ RequestID Status Headers Body fst snd].
  split; [by vm_compute|]. split; [done|]. split; [done|].
  apply body_crosses.
Qed.

Lemma normalizeHost_shape x :
  lowered (normalizeHost x) ∧ trimmed (normalizeHost x).
Proof.
  assert (lowered [] ∧ trimmed []) as Hnil by (split; [constructor|done]).
  unfold normalizeHost.
  case_bool_decide; [done|].
  destruct (Contains _ _); [|by destruct (lower_trim_fix x) as (? & ? & _)].
  destruct (Net.SplitHostPort _) as [[h p]|e].
  - by destruct (lower_trim_fix h) as (? & ? & _).
  - case_bool_decide.
    + by destruct (lower_trim_fix
                     (default [] (Split (TrimSpace (ToLower x)) ":" !! 0%nat)))
        as (? & ? & _).
    + by destruct (lower_trim_fix x) as (? & ? & _).
Qed.

Lemma table_ok_step s e : table_ok s → table_ok (step s e).
Proof.
  intros Hs. destruct e as [rawToken upgrade|a env|a]; cbn [step].
  - unfold HandleConnect. case_bool_decide; [done|].
    destruct upgrade as [c|]; [|done]. unfold swapAgent.
    by destruct (agents s !! TrimSpace rawToken).
  - unfold dispatch. case_bool_decide; [|done].
    intros h b [Hp|(Hb & _)]%applyRoutes_table; [|by apply Hs].
    destruct Hp as (rs1 & r' & rs2 & _ & (Hn & Hh & Ht) & -> & _).
    split; [done|]. rewrite <- Hn.
    split; [apply normalizeHost_shape|]. split; [apply normalizeHost_shape|].
    cbn [bindingOf Target]. split; [done|apply TrimSpace_trimmed].
  - unfold readLoopExit, cleanupAgent. case_bool_decide; [|done].
    intros h b [Hb _]%purge_lookup. by apply Hs.
Qed.

(** Property X6.  On every state that the gateway reaches, each entry
    of the routing table has a key that is not empty, holds no ASCII
    capital letter and neither starts nor ends with white space, and a
    target that is not empty and neither starts nor ends with white
    space. *)
Theorem table_entries_clean es : table_ok (run es).
Proof.
  unfold run. induction es as [|e es IH] using rev_ind.
  - intros h b. cbn. by rewrite lookup_empty.
  - rewrite foldl_app. by apply table_ok_step.
Qed.

(** Property X7.  The routing table changes only when a
    [register_routes] message is read or when the reader of the session
    that is registered for its token exits: accepting or refusing a
    connection, any other message, and the exit of the reader of a
    session that has been replaced leave the table as it is.  When the
    reader of the registered session [a] exits, the session leaves the
    registry, its connection is closed, and the table loses exactly the
    bindings of its token. *)
Theorem table_changes s e :
  (∀ rawToken upgrade, e = Connect rawToken upgrade →
     routes (step s e) = routes s)
  ∧ (∀ a env, e = Receive a env → Type_ env ≠ TypeRegisterRoutes →
       step s e = s)
  ∧ (∀ a, e = ReadFailed a → agents s !! SessionToken a ≠ Some a →
       routes (step s e) = routes s ∧ agents (step s e) = agents s)
  ∧ (∀ a, e = ReadFailed a → agents s !! SessionToken a = Some a →
       agents (step s e) = delete (SessionToken a) (agents s)
       ∧ Conn a ∈ closed (step s e)
       ∧ ∀ h b, routes (step s e) !! h = Some b
                ↔ routes s !! h = Some b ∧ Token b ≠ SessionToken a).
Proof.
  split; [|split; [|split]].
  - intros rawToken upgrade ->. cbn [step]. unfold HandleConnect.
    case_bool_decide; [done|]. destruct upgrade as [c|]; [|done].
    unfold swapAgent. by destruct (agents s !! TrimSpace rawToken).
  - intros a env -> Hty. cbn [step]. unfold dispatch.
    by rewrite bool_decide_eq_false_2.
  - intros a -> Hne. cbn [step]. unfold readLoopExit.
    by rewrite cleanupAgent_successor.
  - intros a -> Hcur. cbn [step]. unfold readLoopExit, cleanupAgent.
    rewrite bool_decide_eq_true_2 by done.
    cbn [closeConn agents routes closed]. split; [done|].
    split; [set_solver|]. intros h b. apply purge_lookup.
Qed.

Lemma table_changes_witness :
  agents oneTunnel !! SessionToken (session "t" 1) = Some (session "t" 1)
  ∧ routes oneTunnel !! go "a.b" = Some (binding "t" "x:1")
  ∧ routes (step oneTunnel (ReadFailed (session "t" 1))) !! go "a.b" = None.
Proof.
  assert (agents oneTunnel !! SessionToken (session "t" 1)
          = Some (session "t" 1)) as H by reflexivity.
  split; [exact H|]. split; [reflexivity|].
  destruct (table_changes oneTunnel (ReadFailed (session "t" 1)))
    as (_ & _ & _ & Hexit).
  destruct (Hexit _ eq_refl H) as (_ & _ & Hr).
  apply eq_None_not_Some. intros [b Hb].
  apply Hr in Hb as [Hb Hne]. apply Hne.
  assert (routes oneTunnel !! go "a.b" = Some (binding "t" "x:1")) as Hb'
    by reflexivity.
  rewrite Hb' in Hb. by injection Hb as <-.
Defined.

End tunnel_legs.

(** * Further properties of the agent *)

(** ** The configuration store *)

Section store_properties.
Import Strings Protocol Agent.

Lemma NormalizeTarget_Ok x t :
  NormalizeTarget x = Ok t ↔
  t = TrimSpace x ∧ t ≠ []
  ∧ Contains t (go "http://") = false ∧ Contains t (go "https://") = false
  ∧ Contains t (go ":") = true.
Proof.
  unfold NormalizeTarget.
  case_bool_decide as Ht.
  { split; [done|]. intros (-> & ? & _). done. }
  destruct (Contains (TrimSpace x) (go "http://")) eqn:H1; cbn [orb].
  { split; [done|]. intros (-> & _ & ? & _). congruence. }
  destruct (Contains (TrimSpace x) (go "https://")) eqn:H2.
  { split; [done|]. intros (-> & _ & _ & ? & _). congruence. }
  destruct (Contains (TrimSpace x) (go ":")) eqn:H3; cbn [negb].
  - split; [by intros [= <-]|by intros (-> & _)].
  - split; [done|]. intros (-> & _ & _ & _ & ?). congruence.
Qed.

Lemma NormalizeHostname_checked x h :
  NormalizeHostname x = Ok h → checked_host h.
Proof.
  intros (Hh & Hne & Hsp & Hco & Hdot)%NormalizeHostname_Ok.
  assert (h `prefix_of` TrimSpace (ToLower x)) as Hpre
    by (rewrite Hh; apply TrimSuffix_prefix).
  destruct (lower_trim_fix x) as (Hlow & [Hst _] & _). cbn zeta in *.
  split; [done|]. split; [|split; [|split; [|split]]].
  - eapply segment_lowered; [by apply prefix_segment|done].
  - by eapply starts_clean_prefix.
  - by apply Contains_byte_false.
  - by apply Contains_byte_false.
  - by apply Contains_byte.
Qed.

Lemma NormalizeTarget_checked x t :
  NormalizeTarget x = Ok t → checked_target t.
Proof.
  intros (-> & Hne & H1 & H2 & H3)%NormalizeTarget_Ok.
  split; [done|]. split; [apply TrimSpace_trimmed|].
  split; [by apply Contains_byte|done].
Qed.

Lemma checked_map_insert m x y h t :
  checked_map m → NormalizeHostname x = Ok h → NormalizeTarget y = Ok t →
  checked_map (<[h := {| Hostname := h; Target := t |}]> m).
Proof.
  intros Hm Hh Ht h' r. rewrite lookup_insert. case_decide as Heq.
  - subst h'. intros [= <-]. cbn [Hostname Target].
    split; [done|].
    split; [by eapply NormalizeHostname_checked
           |by eapply NormalizeTarget_checked].
  - apply Hm.
Qed.

Lemma checked_map_delete m h : checked_map m → checked_map (delete h m).
Proof.
  intros Hm h' r. rewrite lookup_delete. case_decide; [done|apply Hm].
Qed.

Lemma checked_map_loadRoute m r : checked_map m → checked_map (loadRoute m r).
Proof.
  intros Hm. unfold loadRoute.
  destruct (NormalizeHostname (Hostname r)) as [h|] eqn:Hh; [|done].
  destruct (NormalizeTarget (Target r)) as [t|] eqn:Ht; [|done].
  by eapply checked_map_insert.
Qed.

Lemma checked_map_load m rs : checked_map m → checked_map (foldl loadRoute m rs).
Proof.
  revert m. induction rs as [|r rs IH]; intros m Hm; cbn [foldl]; [done|].
  by apply IH, checked_map_loadRoute.
Qed.

Lemma checked_map_buildNext rs m next :
  checked_map m → buildNext m rs = Ok next → checked_map next.
Proof.
  revert m. induction rs as [|r rs IH]; intros m Hm; cbn [buildNext].
  - by intros [= <-].
  - destruct (NormalizeHostname (Hostname r)) as [h|] eqn:Hh; [|done].
    destruct (NormalizeTarget (Target r)) as [t|] eqn:Ht; [|done].
    apply IH. by eapply checked_map_insert.
Qed.

Lemma checked_map_empty : checked_map ∅.
Proof. intros h r. by rewrite lookup_empty. Qed.

Lemma checked_store_step sd call :
  checked_store sd.1 → checked_store (storeStep sd call).1.
Proof.
  destruct sd as [s d], call as [fault op]. cbn [fst snd]. intros Hs.
  unfold storeStep. cbn [fst snd].
  set (d1 := {| files := files d; failing := fault |}).
  destruct op as [hostname target|hostname|rs].
  - unfold Upsert.
    destruct (NormalizeHostname hostname) as [h|] eqn:Hh; [|done].
    destruct (NormalizeTarget target) as [t|] eqn:Ht; [|done].
    destruct (saveLocked _ d1) as [err d']. cbn [fst].
    by eapply (checked_map_insert (routes s)).
  - unfold Delete.
    destruct (NormalizeHostname hostname) as [h|] eqn:Hh; [|done].
    destruct (saveLocked _ d1) as [err d']. cbn [fst].
    by apply (checked_map_delete (routes s)).
  - unfold ReplaceAll.
    destruct (buildNext ∅ rs) as [next|] eqn:Hn; [|done].
    destruct (sameRoutes next (routes s)); [done|].
    destruct (saveLocked _ d1) as [[e|] d']; cbn [fst];
      apply (checked_map_buildNext rs ∅ next checked_map_empty Hn).
Qed.

Lemma checked_store_run calls sd :
  checked_store sd.1 → checked_store (foldl storeStep sd calls).1.
Proof.
  induction calls as [|call calls IH] using rev_ind; intros H0; [done|].
  rewrite foldl_app. cbn [foldl]. by apply checked_store_step, IH.
Qed.

Lemma valid_store_checked st : valid_store st → checked_store st.
Proof.
  intros Hv h r Hr. destruct (Hv h r Hr) as [<- [Hh Ht]].
  split; [done|].
  split; [by eapply NormalizeHostname_checked|by eapply NormalizeTarget_checked].
Qed.

Lemma twoRoutes_valid : valid_store twoRoutes.
Proof.
  intros h r Hr. cbn [twoRoutes routes] in Hr.
  apply lookup_insert_Some in Hr as [[<- <-]|[_ Hr]].
  - split; [reflexivity|]. split; by vm_compute.
  - apply lookup_singleton_Some in Hr as [<- <-].
    split; [reflexivity|]. split; by vm_compute.
Qed.

(** Property X8.  A store opened on any disk, and then changed by any
    sequence of [Upsert], [Delete] and [ReplaceAll] calls, whatever
    system call fails during each of them, holds every route under its
    own hostname, and holds only hostnames and targets that have passed
    the checks of the normalizers: a hostname is not empty, has no
    ASCII capital letter, does not start with white space, has no
    space and no colon and has a dot; a target is not empty, has no
    white space at its ends, has a colon and holds neither [http://]
    nor [https://]. *)
Theorem store_always_checked p d0 s0 calls :
  NewConfigStore p d0 = Ok s0 →
  checked_store (foldl storeStep (s0, d0) calls).1.
Proof.
  intros Hnew. apply checked_store_run. cbn [fst].
  revert Hnew. unfold NewConfigStore, load. cbn [path routes].
  destruct (files d0 !! p) as [c|].
  - case_bool_decide; [done|]. destruct c as [cfg|]; [|done].
    intros [= <-]. apply (checked_map_load ∅), checked_map_empty.
  - intros [= <-]. apply checked_map_empty.
Qed.

Lemma store_always_checked_witness :
  ∃ s0,
    NewConfigStore (go "/etc/agent.json")
      {| files := {[ go "/etc/agent.json" :=
                       Json {| FileRoutes := [route " A.B. " "x:1";
                                              route "localhost" "y:2"] |} ]};
         failing := None |} = Ok s0
    ∧ routes s0 = {[ go "a.b" := route "a.b" "x:1" ]}
    ∧ checked_store
        (foldl storeStep
           (s0, {| files := {[ go "/etc/agent.json" :=
                                 Json {| FileRoutes :=
                                           [route " A.B. " "x:1";
                                            route "localhost" "y:2"] |} ]};
                   failing := None |})
           [(None, DoUpsert (go "C.D") (go " z:3 "));
            (Some Rename, DoDelete (go "a.b"));
            (None, DoReplaceAll [route "e.f" "w:4"])]).1.
Proof.
  destruct (NewConfigStore (go "/etc/agent.json")
              {| files := {[ go "/etc/agent.json" :=
                               Json {| FileRoutes := [route " A.B. " "x:1";
                                                      route "localhost" "y:2"] |} ]};
                 failing := None |}) as [s0|] eqn:Hnew;
    [|by vm_compute in Hnew].
  exists s0. split; [done|].
  split; [|exact (store_always_checked _ _ _ _ Hnew)].
  revert Hnew. vm_compute. by intros [= <-].
Defined.

Lemma tmp_ne (p : list ascii) : p ++ go ".tmp" ≠ p.
Proof.
  intros H%(f_equal length). rewrite length_app in H. cbn in H. lia.
Qed.

Lemma saveLocked_effect s d err d' :
  saveLocked s d = (err, d') →
  (err ≠ None → files d' !! path s = files d !! path s)
  ∧ (err = None →
     files d' !! path s
     = Some (Json {| FileRoutes := jsonRoute <$> snapshotLocked s |})
     ∧ files d' !! (path s ++ go ".tmp") = None)
  ∧ (∀ p, p ≠ path s → p ≠ path s ++ go ".tmp" →
          files d' !! p = files d !! p)
  ∧ failing d' = failing d.
Proof.
  unfold saveLocked.
  case_bool_decide; [intros [= <- <-]; by repeat split|].
  case_bool_decide; [intros [= <- <-]; by repeat split|].
  case_bool_decide; intros [= <- <-]; cbn [files failing].
  - split; [intros _; rewrite lookup_insert_ne; [done|apply tmp_ne]|].
    split; [done|]. split; [|done].
    intros p _ Hp. by rewrite lookup_insert_ne.
  - split; [done|]. split; [intros _; split|split; [|done]].
    + by rewrite lookup_insert_eq.
    + rewrite lookup_insert_ne by (intros E; by apply (tmp_ne (path s))).
      by rewrite lookup_delete_eq.
    + intros p Hp Hp'.
      rewrite lookup_insert_ne, lookup_delete_ne, lookup_insert_ne; done.
Qed.

Lemma saveLocked_healthy s d :
  healthy d →
  ∃ d', saveLocked s d = (None, d')
        ∧ files d' !! path s
          = Some (Json {| FileRoutes := jsonRoute <$> List s |})
        ∧ healthy d'.
Proof.
  unfold healthy. intros Hd.
  destruct (saveLocked s d) as [err d'] eqn:Hs.
  destruct (saveLocked_effect s d err d' Hs) as (_ & Hok & _ & Hf).
  assert (err = None) as ->.
  { revert Hs. unfold saveLocked. rewrite Hd.
    rewrite !bool_decide_eq_false_2 by done. by intros [= <- _]. }
  exists d'. split; [done|]. split; [by apply Hok|congruence].
Qed.

(** Property X9.  Saving is atomic on the configuration file: when
    [saveLocked] returns an error, whichever call failed, the file of
    the store is what it was; when it returns no error, the file holds
    the routes of the store and the temporary file is gone.  In both
    cases no file other than these two is touched. *)
Theorem saveLocked_atomic s d err d' :
  saveLocked s d = (err, d') →
  (err ≠ None → files d' !! path s = files d !! path s)
  ∧ (err = None →
     files d' !! path s
     = Some (Json {| FileRoutes := jsonRoute <$> snapshotLocked s |})
     ∧ files d' !! (path s ++ go ".tmp") = None)
  ∧ (∀ p, p ≠ path s → p ≠ path s ++ go ".tmp" →
          files d' !! p = files d !! p).
Proof.
  intros Hs. destruct (saveLocked_effect s d err d' Hs) as (H1 & H2 & H3 & _).
  done.
Qed.

Lemma saveLocked_atomic_witness :
  ∃ err d',
    saveLocked twoRoutes
      {| files := {[ go "/etc/agent.json" := Corrupt ]};
         failing := Some Rename |} = (err, d')
    ∧ err ≠ None
    ∧ files d' !! go "/etc/agent.json" = Some Corrupt.
Proof.
  destruct (saveLocked twoRoutes
              {| files := {[ go "/etc/agent.json" := Corrupt ]};
                 failing := Some Rename |}) as [err d'] eqn:Hs.
  exists err, d'. split; [done|].
  assert (err ≠ None) as Hne.
  { revert Hs. unfold saveLocked. cbn [failing].
    rewrite !bool_decide_eq_false_2 by done.
    rewrite bool_decide_eq_true_2 by done. by intros [= <- _]. }
  split; [exact Hne|].
  destruct (saveLocked_atomic _ _ _ _ Hs) as (Hfail & _).
  etransitivity; [exact (Hfail Hne)|reflexivity].
Defined.

Lemma N_of_ascii_inj x y : N_of_ascii x = N_of_ascii y → x = y.
Proof.
  intros H. by rewrite <- (ascii_N_embedding x), <- (ascii_N_embedding y), H.
Qed.

Lemma bytes_lt_cons x a y b :
  bytes_lt (x :: a) (y :: b) = true
  ↔ (N_of_ascii x < N_of_ascii y)%N ∨ (x = y ∧ bytes_lt a b = true).
Proof.
  cbn [bytes_lt]. rewrite orb_true_iff, andb_true_iff, N.ltb_lt.
  by rewrite bool_decide_eq_true.
Qed.

Lemma bytes_lt_irrefl a : bytes_lt a a = false.
Proof.
  induction a as [|x a IH]; [done|].
  apply not_true_is_false. rewrite bytes_lt_cons.
  intros [?|[_ ?]]; [lia|congruence].
Qed.

Lemma bytes_lt_trans a b c :
  bytes_lt a b = true → bytes_lt b c = true → bytes_lt a c = true.
Proof.
  revert b c. induction a as [|x a IH]; intros [|y b] [|z c]; try done.
  rewrite !bytes_lt_cons.
  intros [H1|[-> H1]] [H2|[-> H2]]; [left; lia|by left|by left|].
  right. split; [done|]. by eapply IH.
Qed.

Lemma bytes_lt_trichotomy a b :
  bytes_lt a b = true ∨ a = b ∨ bytes_lt b a = true.
Proof.
  revert b. induction a as [|x a IH]; intros [|y b];
    [by right; left|by left|by right; right|].
  rewrite !bytes_lt_cons.
  destruct (N.lt_trichotomy (N_of_ascii x) (N_of_ascii y))
    as [?|[Heq%N_of_ascii_inj|?]];
    [by left; left| |by right; right; left].
  subst y. destruct (IH b) as [?|[->|?]];
    [left; by right|by right; left|right; right; by right].
Qed.

Lemma hostname_le_total : Total hostname_le.
Proof.
  intros r1 r2. unfold hostname_le.
  destruct (bytes_lt_trichotomy (Hostname r1) (Hostname r2)) as [H|[H|H]].
  - left. apply not_true_is_false. intros H'.
    pose proof (bytes_lt_trans _ _ _ H H') as Hc.
    by rewrite bytes_lt_irrefl in Hc.
  - left. rewrite H. apply bytes_lt_irrefl.
  - right. apply not_true_is_false. intros H'.
    pose proof (bytes_lt_trans _ _ _ H H') as Hc.
    by rewrite bytes_lt_irrefl in Hc.
Qed.

Lemma hostname_le_trans : Transitive hostname_le.
Proof.
  intros r1 r2 r3. unfold hostname_le. intros H12 H23.
  apply not_true_is_false. intros H31.
  destruct (bytes_lt_trichotomy (Hostname r1) (Hostname r2)) as [H|[H|H]].
  - pose proof (bytes_lt_trans _ _ _ H31 H). congruence.
  - rewrite H in H31. congruence.
  - congruence.
Qed.

Lemma strictly_sorted l :
  StronglySorted hostname_le l → NoDup (Hostname <$> l) →
  StronglySorted (λ r1 r2, bytes_lt (Hostname r1) (Hostname r2) = true) l.
Proof.
  induction 1 as [|r l Hl IH Hr]; [constructor|].
  rewrite fmap_cons. intros [Hnin Hnd]%NoDup_cons.
  constructor; [by apply IH|].
  apply Forall_forall. intros r' Hin.
  rewrite Forall_forall in Hr. specialize (Hr r' Hin).
  unfold hostname_le in Hr.
  destruct (bytes_lt_trichotomy (Hostname r) (Hostname r')) as [H|[H|H]];
    [done| |congruence].
  destruct Hnin. rewrite H. by apply list_elem_of_fmap_2.
Qed.

Lemma List_spec s :
  checked_store s →
  (∀ r, r ∈ List s ↔ routes s !! Hostname r = Some r)
  ∧ StronglySorted (λ r1 r2, bytes_lt (Hostname r1) (Hostname r2) = true)
                   (List s).
Proof.
  intros Hs. unfold List.
  assert (Hostname <$> (map_to_list (routes s)).*2
          = (map_to_list (routes s)).*1) as Hkeys.
  { rewrite <- list_fmap_compose.
    apply Forall_fmap_ext, Forall_forall.
    intros [h r] Hin%elem_of_map_to_list. cbn. by destruct (Hs h r Hin). }
  split.
  - intros r. rewrite merge_sort_Permutation, list_elem_of_fmap. split.
    + intros ([h r'] & -> & Hin%elem_of_map_to_list). cbn.
      by destruct (Hs h r' Hin) as [-> _].
    + intros Hr. exists (Hostname r, r). split; [done|].
      by apply elem_of_map_to_list.
  - apply strictly_sorted.
    + apply StronglySorted_merge_sort;
        [apply hostname_le_trans|apply hostname_le_total].
    + rewrite merge_sort_Permutation, Hkeys. apply NoDup_fst_map_to_list.
Qed.

(** Property X10.  [List] returns exactly the routes of the store, and
    returns them in strictly ascending order of their hostnames in the
    bytewise order of Go strings; in particular no route is listed
    twice.  The store is one that the program can reach: every route is
    held under its hostname and has passed the checks. *)
Theorem List_sorted s :
  checked_store s →
  (∀ r, r ∈ List s ↔ routes s !! Hostname r = Some r)
  ∧ StronglySorted (λ r1 r2, bytes_lt (Hostname r1) (Hostname r2) = true)
                   (List s).
Proof. apply List_spec. Qed.

Lemma List_sorted_witness :
  checked_store twoRoutes
  ∧ List twoRoutes = [route "a.b" "x:1"; route "b.c" "y:2"]
  ∧ StronglySorted (λ r1 r2, bytes_lt (Hostname r1) (Hostname r2) = true)
                   (List twoRoutes).
Proof.
  assert (checked_store twoRoutes) as H
    by apply valid_store_checked, twoRoutes_valid.
  split; [exact H|]. split; [vm_compute; reflexivity|].
  exact (proj2 (List_sorted twoRoutes H)).
Defined.

Lemma sameRoutes_iff next cur :
  checked_map next → checked_map cur →
  sameRoutes next cur = true ↔ next = cur.
Proof.
  intros Hn Hc. unfold sameRoutes.
  rewrite andb_true_iff, bool_decide_eq_true, forallb_forall. split.
  - intros [Hsize Hall]. apply map_subseteq_size_eq; [|lia].
    apply map_subseteq_spec. intros h r Hr.
    specialize (Hall (h, r)). cbn [fst snd] in Hall.
    destruct (cur !! h) as [c|] eqn:Hcur.
    + rewrite bool_decide_eq_true in Hall.
      destruct (Hn h r Hr) as [H1 _], (Hc h c Hcur) as [H2 _].
      f_equal. destruct c, r; cbn in *.
      rewrite Hall by (by apply list_elem_of_In, elem_of_map_to_list).
      congruence.
    + discriminate Hall. by apply list_elem_of_In, elem_of_map_to_list.
  - intros ->. split; [done|].
    intros [h r] Hin%list_elem_of_In%elem_of_map_to_list. cbn [fst snd].
    rewrite Hin. by apply bool_decide_eq_true.
Qed.

Lemma ReplaceAll_cases rs s d next :
  checked_store s → normalized rs next →
  checked_map next
  ∧ (next = routes s → ReplaceAll rs s d = ((false, None), s, d))
  ∧ (next ≠ routes s →
     ∃ err d',
       saveLocked {| path := path s; routes := next |} d = (err, d')
       ∧ ReplaceAll rs s d
         = ((bool_decide (err = None), err),
            {| path := path s; routes := next |}, d')).
Proof.
  intros Hs Hn. unfold normalized in Hn.
  assert (checked_map next) as Hnext
    by apply (checked_map_buildNext rs ∅ next checked_map_empty Hn).
  split; [done|]. unfold ReplaceAll. rewrite Hn.
  pose proof (sameRoutes_iff next (routes s) Hnext Hs) as Hiff.
  split.
  - intros Heq. by rewrite (proj2 Hiff Heq).
  - intros Hne. destruct (sameRoutes next (routes s));
      [by destruct Hne; apply Hiff|].
    destruct (saveLocked _ d) as [[e|] d']; by eexists _, _.
Qed.

(** Property X11.  For a list of routes that all normalize, to the map
    [next], [ReplaceAll] on a reachable store detects exactly whether
    anything changes: when [next] is the route set of the store it
    reports no change and no error and touches neither the store nor
    the disk; otherwise it replaces the route set in memory by [next]
    and saves it, and reports a change exactly when saving succeeds:
    when saving fails the error is returned with [changed = false]
    although the route set in memory has been replaced. *)
Theorem ReplaceAll_detects_change rs s d next :
  checked_store s → normalized rs next →
  (next = routes s → ReplaceAll rs s d = ((false, None), s, d))
  ∧ (next ≠ routes s →
     ∃ err d',
       saveLocked {| path := path s; routes := next |} d = (err, d')
       ∧ ReplaceAll rs s d
         = ((bool_decide (err = None), err),
            {| path := path s; routes := next |}, d')).
Proof.
  intros Hs Hn. by destruct (ReplaceAll_cases rs s d next Hs Hn) as (_ & ?).
Qed.

Lemma ReplaceAll_detects_change_witness :
  checked_store twoRoutes
  ∧ normalized [route "B.C." " y:2"; route " a.b" "x:1 "] (routes twoRoutes)
  ∧ ReplaceAll [route "B.C." " y:2"; route " a.b" "x:1 "] twoRoutes
      {| files := ∅; failing := Some MkdirAll |}
    = ((false, None), twoRoutes, {| files := ∅; failing := Some MkdirAll |}).
Proof.
  assert (checked_store twoRoutes) as H
    by apply valid_store_checked, twoRoutes_valid.
  assert (normalized [route "B.C." " y:2"; route " a.b" "x:1 "]
            (routes twoRoutes)) as Hn by (vm_compute; reflexivity).
  split; [exact H|]. split; [exact Hn|].
  exact (proj1 (ReplaceAll_detects_change _ _ _ _ H Hn) eq_refl).
Defined.

End store_properties.

(** ** From the agent's store to the gateway's table *)

Section agent_to_gateway.
Import Strings Protocol.

Lemma normal_host_gateway h :
  Agent.NormalizeHostname h = Ok h → h ≠ [] ∧ Server.normalizeHost h = h.
Proof.
  intros (Hh & Hne & _ & Hco%Contains_byte_false & _)%NormalizeHostname_Ok.
  split; [done|].
  assert (TrimSpace (ToLower h) = h) as Htr.
  { pose proof (TrimSuffix_prefix (TrimSpace (ToLower h)) ".") as Hpre.
    change ["."%char] with (go ".") in Hpre. rewrite <- Hh in Hpre.
    pose proof (lower_trim_length h) as Hlen.
    destruct Hpre as [k Hk]. rewrite Hk, length_app in Hlen.
    destruct k; [by rewrite (right_id_L [] (++)) in Hk|cbn in Hlen; lia]. }
  by apply normalizeHost_no_colon.
Qed.

Lemma normal_target_gateway t :
  Agent.NormalizeTarget t = Ok t → t ≠ [] ∧ TrimSpace t = t.
Proof. intros (Ht & Hne & _)%NormalizeTarget_Ok. done. Qed.

Lemma published_List tok st h b :
  valid_store st →
  published tok (Agent.List st) h b
  ↔ ∃ r, Agent.routes st !! h = Some r
         ∧ b = {| Server.Token := tok; Server.Target := Target r |}.
Proof.
  intros Hv.
  destruct (List_spec st (valid_store_checked st Hv)) as [Hin Hsorted].
  assert (∀ r, r ∈ Agent.List st →
            Server.normalizeHost (Hostname r) = Hostname r
            ∧ Hostname r ≠ [] ∧ TrimSpace (Target r) = Target r
            ∧ Target r ≠ []) as Hfix.
  { intros r Hr%Hin. destruct (Hv _ _ Hr) as [_ [Hh Ht]].
    destruct (normal_host_gateway _ Hh), (normal_target_gateway _ Ht). done. }
  split.
  - intros (rs1 & r & rs2 & Hl & (Hn & Hh & Ht) & -> & _).
    assert (r ∈ Agent.List st) as Hr
      by (rewrite Hl; apply elem_of_app; right; apply elem_of_cons; by left).
    destruct (Hfix r Hr) as (Hn' & _ & Ht' & _).
    exists r. split; [|by unfold bindingOf; rewrite Ht'].
    rewrite <- Hn, Hn'. by apply Hin.
  - intros (r & Hr & ->).
    destruct (Hv _ _ Hr) as [Hk _]. subst h.
    apply Hin in Hr as Hr'.
    apply list_elem_of_split in Hr' as (rs1 & rs2 & Hl).
    destruct (Hfix r) as (Hn & Hne & Ht & Htne); [by apply Hin|].
    exists rs1, r, rs2. split; [done|].
    split; [unfold claims; by rewrite Hn, Ht|].
    split; [by unfold bindingOf; rewrite Ht|].
    apply Forall_forall. intros r' Hr' (Hn' & _).
    rewrite Hl in Hsorted.
    apply StronglySorted_app_1_r in Hsorted.
    apply StronglySorted_inv in Hsorted as [_ Hall].
    rewrite Forall_forall in Hall. specialize (Hall r' Hr').
    destruct (Hfix r') as (Hn'' & _);
      [rewrite Hl; apply elem_of_app; right; apply elem_of_cons; by right|].
    rewrite <- Hn', Hn'', bytes_lt_irrefl in Hall. done.
Qed.

Lemma Wire_register st :
  utf8_store st →
  Wire.envelope (register (Agent.List st)) = register (Agent.List st).
Proof.
  intros Hu. unfold Wire.envelope, register.
  cbn [Type_ RequestID Method Path Query Headers Body Status EnvHostname
       EnvTarget Routes Message].
  f_equal. exact (snapshot_json st Hu).
Qed.

Lemma dispatch_List session st s h b :
  valid_store st →
  Server.routes (Server.dispatch session (register (Agent.List st)) s) !! h
  = Some b
  ∧ Server.Token b = Server.SessionToken session
  ↔ ∃ r, Agent.routes st !! h = Some r
         ∧ b = {| Server.Token := Server.SessionToken session;
                  Server.Target := Target r |}.
Proof.
  intros Hv. unfold Server.dispatch. cbn [register Type_ Routes].
  rewrite bool_decide_eq_true_2 by done.
  rewrite <- (published_List _ _ _ _ Hv), applyRoutes_table. split.
  - intros [[Hp|(_ & Hne & _)] Htok]; done.
  - intros Hp. split; [by left|by eapply published_token].
Qed.

(** Property X12.  What the agent publishes is what the gateway binds.
    When the agent, holding a valid store whose strings are valid
    UTF-8, publishes its routes and the write on the control connection
    succeeds, one [register_routes] envelope goes on the wire, and a
    gateway that reads this envelope from a session then holds, as the
    bindings owned by the token of that session, exactly the routes of
    the agent's store: each hostname of the store is bound to its
    target, and the token owns nothing else. *)
Theorem published_store_is_bound st st' s session h b :
  valid_store (Service.store st) → utf8_store (Service.store st) →
  Service.publishRoutes st = (None, st') →
  ∃ env,
    Service.wire st' = Service.wire st ++ [env]
    ∧ (Server.routes (Server.dispatch session (Wire.envelope env) s) !! h
       = Some b
       ∧ Server.Token b = Server.SessionToken session
       ↔ ∃ r, Agent.routes (Service.store st) !! h = Some r
              ∧ b = {| Server.Token := Server.SessionToken session;
                       Server.Target := Target r |}).
Proof.
  intros Hv Hu. unfold Service.publishRoutes, Service.writeEnvelope.
  destruct (Service.conn st) as [[|]|]; [|done|done].
  intros [= <-]. eexists. split; [done|].
  pose proof (Wire_register (Service.store st) Hu) as Hw.
  unfold register in Hw. rewrite Hw.
  by apply (dispatch_List session (Service.store st) s h b).
Qed.

Lemma twoRoutes_utf8 : utf8_store twoRoutes.
Proof.
  intros h r Hr. cbn [twoRoutes Agent.routes] in Hr.
  apply lookup_insert_Some in Hr as [[<- <-]|[_ Hr]].
  - split; by vm_compute.
  - apply lookup_singleton_Some in Hr as [<- <-]. split; by vm_compute.
Qed.

Lemma published_store_is_bound_witness :
  valid_store (Service.store (agentState "" (Some true)))
  ∧ utf8_store (Service.store (agentState "" (Some true)))
  ∧ Service.publishRoutes (agentState "" (Some true))
    = (None,
       {| Service.store := twoRoutes; Service.disk := emptyDisk;
          Service.conn := Some true; Service.routeSyncURL := [];
          Service.wire := [register [route "a.b" "x:1"; route "b.c" "y:2"]] |})
  ∧ ∃ env,
      [register [route "a.b" "x:1"; route "b.c" "y:2"]] = [] ++ [env]
      ∧ (Server.routes
           (Server.dispatch (session "t" 1) (Wire.envelope env) oneTunnel)
           !! go "b.c" = Some (binding "t" "y:2")
         ∧ Server.Token (binding "t" "y:2")
           = Server.SessionToken (session "t" 1)
         ↔ ∃ r, Agent.routes twoRoutes !! go "b.c" = Some r
                ∧ binding "t" "y:2"
                  = {| Server.Token := Server.SessionToken (session "t" 1);
                       Server.Target := Target r |}).
Proof.
  assert (valid_store (Service.store (agentState "" (Some true)))) as Hv
    by apply twoRoutes_valid.
  assert (Service.publishRoutes (agentState "" (Some true))
          = (None,
             {| Service.store := twoRoutes; Service.disk := emptyDisk;
                Service.conn := Some true; Service.routeSyncURL := [];
                Service.wire :=
                  [register [route "a.b" "x:1"; route "b.c" "y:2"]] |}))
    as Hp by (vm_compute; reflexivity).
  split; [exact Hv|]. split; [exact twoRoutes_utf8|]. split; [exact Hp|].
  exact (published_store_is_bound _ _ oneTunnel (session "t" 1)
           (go "b.c") (binding "t" "y:2") Hv twoRoutes_utf8 Hp).
Defined.

(** Property X13.  A route of a valid store that the agent has
    published is served: once the gateway has accepted the connection
    of the agent and has read from it the [register_routes] envelope
    with the listing of the store, a public request whose host is a
    hostname of the store, and whose body can be read, is put on the
    tunnel with the target that the store holds for this hostname; it
    is answered neither 400 for its host nor 404 nor 503. *)
Theorem published_route_is_served es rawToken conn st tun req r :
  TrimSpace rawToken ≠ [] →
  valid_store st → utf8_store st →
  Agent.routes st !! Server.Host req = Some r →
  is_ok (IO.ReadAllLimit (Server.ReqBody req) Server.maxBodySize) = true →
  ∃ env,
    Server.sent
      (Server.HandlePublicHTTP
         (Server.dispatch
            {| Server.SessionToken := TrimSpace rawToken;
               Server.Conn := conn |}
            (Wire.envelope (register (Agent.List st)))
            (Server.HandleConnect rawToken (Some conn) (Server.run es)).2)
         tun req) = Some env
    ∧ EnvHostname env = Server.Host req
    ∧ EnvTarget env = Target r.
Proof.
  intros Htok Hv Hu Hr Hbody. rewrite (Wire_register st Hu).
  set (a := {| Server.SessionToken := TrimSpace rawToken;
               Server.Conn := conn |}).
  set (s1 := (Server.HandleConnect rawToken (Some conn) (Server.run es)).2).
  set (s2 := Server.dispatch a (register (Agent.List st)) s1).
  destruct (Hv _ _ Hr) as [Hk [Hh _]].
  destruct (normal_host_gateway _ Hh) as [Hne Hfix]. rewrite Hk in Hne, Hfix.
  assert (Server.routes s2 !! Server.Host req
          = Some {| Server.Token := TrimSpace rawToken;
                    Server.Target := Target r |}) as Hb.
  { refine (proj1 (proj2 (dispatch_List a st s1 _ _ Hv) _)). by exists r. }
  assert (Server.agents s2 !! TrimSpace rawToken = Some a) as Ha.
  { unfold s2, Server.dispatch. cbn [register Type_ Routes].
    rewrite bool_decide_eq_true_2 by done.
    rewrite agents_applyRoutes. unfold s1, Server.HandleConnect.
    rewrite bool_decide_eq_false_2 by done. unfold Server.swapAgent.
    destruct (Server.agents (Server.run es) !! TrimSpace rawToken);
      cbn [snd Server.closeConn Server.agents]; by rewrite lookup_insert_eq. }
  destruct (IO.ReadAllLimit (Server.ReqBody req) Server.maxBodySize)
    as [body|] eqn:Hread; [|done].
  unfold Server.HandlePublicHTTP. rewrite Hfix.
  rewrite bool_decide_eq_false_2 by done.
  rewrite Hb. cbn [Server.Token Server.Target]. rewrite Ha, Hread.
  destruct (Server.write_ok tun); cbn [negb];
    [destruct (Server.arrival tun)|]; eexists; done.
Qed.

Lemma published_route_is_served_witness :
  TrimSpace (go " t ") ≠ []
  ∧ valid_store twoRoutes
  ∧ utf8_store twoRoutes
  ∧ Agent.routes twoRoutes !! Server.Host (request "b.c" ∅ (bytes "x"))
    = Some (route "b.c" "y:2")
  ∧ ∃ env,
      Server.sent
        (Server.HandlePublicHTTP
           (Server.dispatch
              {| Server.SessionToken := TrimSpace (go " t ");
                 Server.Conn := 7%nat |}
              (Wire.envelope (register (Agent.List twoRoutes)))
              (Server.HandleConnect (go " t ") (Some 7%nat)
                 (Server.run [])).2)
           (answered 200) (request "b.c" ∅ (bytes "x"))) = Some env
      ∧ EnvHostname env = Server.Host (request "b.c" ∅ (bytes "x"))
      ∧ EnvTarget env = Target (route "b.c" "y:2").
Proof.
  assert (TrimSpace (go " t ") ≠ []) as H1 by (by vm_compute).
  assert (Agent.routes twoRoutes !! Server.Host (request "b.c" ∅ (bytes "x"))
          = Some (route "b.c" "y:2")) as H3 by reflexivity.
  split; [exact H1|]. split; [exact twoRoutes_valid|].
  split; [exact twoRoutes_utf8|]. split; [exact H3|].
  apply (published_route_is_served [] (go " t ") 7%nat twoRoutes
           (answered 200) (request "b.c" ∅ (bytes "x")) (route "b.c" "y:2")
           H1 twoRoutes_valid twoRoutes_utf8 H3).
  reflexivity.
Defined.

End agent_to_gateway.

(** ** The service of the agent *)

Section agent_service.
Import Strings Protocol Agent Service.

Lemma int64_small z : - 2 ^ 63 ≤ z < 2 ^ 63 → int64 z = z.
Proof. intros Hz. unfold int64. rewrite Z.mod_small; lia. Qed.

Lemma nextBackoff_min b :
  0 < b ≤ 10 * Second → nextBackoff b = Z.min (2 * b) (10 * Second).
Proof.
  unfold nextBackoff, Second. intros Hb.
  destruct (Z.ltb_spec b (10 * 1000000000)).
  - rewrite int64_small by lia.
    destruct (b * 2 >? 10 * 1000000000) eqn:Hgt; lia.
  - lia.
Qed.

(** Property X14.  The wait of the reconnect loop after its [n+1]-th
    attempt is the smaller of [2^n] seconds and ten seconds: it starts
    at one second, doubles at each turn without overflow, never exceeds
    ten seconds, and never goes down again, whether the attempts
    succeed or fail. *)
Theorem backoff_closed_form n :
  backoffAfter n = Z.min (2 ^ Z.of_nat n * Second) (10 * Second).
Proof.
  unfold backoffAfter. induction n as [|n IH].
  - cbn. unfold Second. lia.
  - change (Nat.iter (S n) nextBackoff Second)
      with (nextBackoff (Nat.iter n nextBackoff Second)). rewrite IH.
    assert (0 < 2 ^ Z.of_nat n) by (apply Z.pow_pos_nonneg; lia).
    rewrite nextBackoff_min by (unfold Second; lia).
    rewrite Nat2Z.inj_succ, Z.pow_succ_r by lia.
    unfold Second. lia.
Qed.

(** Property X15.  The hint of a token in the status of the agent: a
    token of at most eight bytes is shown whole; of a longer token the
    hint has eleven bytes and depends only on the first four and the
    last four bytes of the token, so that two long tokens that agree
    on these eight bytes have the same hint. *)
Theorem tokenHint_reveals token token' :
  (length token ≤ 8)%nat ∧ tokenHint token = token
  ∨ (8 < length token)%nat
    ∧ length (tokenHint token) = 11%nat
    ∧ ((8 < length token')%nat → take 4 token' = take 4 token →
       drop (length token' - 4) token' = drop (length token - 4) token →
       tokenHint token' = tokenHint token).
Proof.
  unfold tokenHint.
  destruct (Nat.leb_spec (length token) 8) as [Hle|Hgt]; [by left|].
  right. split; [done|]. split.
  - rewrite !length_app, length_take, length_drop.
    change (length (go "...")) with 3%nat. lia.
  - intros Hgt' Ht Hd.
    destruct (Nat.leb_spec (length token') 8); [lia|]. by rewrite Ht, Hd.
Qed.

Lemma publishRoutes_cases st :
  publishRoutes st
  = (match conn st with
     | Some true => None
     | Some false => Some "write websocket"%string
     | None => Some "tunnel is offline"%string
     end,
     {| store := store st; disk := disk st; conn := conn st;
        routeSyncURL := routeSyncURL st;
        wire := if bool_decide (conn st = Some true)
                then wire st ++ [register (List (store st))] else wire st |}).
Proof.
  unfold publishRoutes, writeEnvelope.
  destruct st as [s d [[|]|] u w]; cbn; done.
Qed.

(** Property X16.  When the routes are managed by the control plane
    (the address of the route sync is set), the admin interface cannot
    change them: whatever the method and the body, a request on
    [/api/routes] or under [/api/routes/] leaves the store, the disk
    and the control connection as they are and publishes nothing; a
    POST and a DELETE are answered 403. *)
Theorem managed_routes_read_only st :
  routeSyncURL st ≠ [] →
  (∀ method payload,
     (handleRoutes method payload st).2 = st
     ∧ (method = go "POST" →
        (handleRoutes method payload st).1
        = errorJSON 403 "routes are managed by control plane"))
  ∧ (∀ method urlPath,
       (handleRouteByHost method urlPath st).2 = st
       ∧ (method = go "DELETE" →
          (handleRouteByHost method urlPath st).1
          = errorJSON 403 "routes are managed by control plane")).
Proof.
  intros Hm. split.
  - intros method payload. unfold handleRoutes.
    case_bool_decide as Hget; [split; [done|]; intros ->; done|].
    case_bool_decide as Hpost; [|split; [done|]; intros ->; done].
    rewrite bool_decide_eq_true_2 by done. done.
  - intros method urlPath. unfold handleRouteByHost.
    case_bool_decide as Hdel; [split; [done|]; intros ->; done|].
    rewrite bool_decide_eq_true_2 by done. done.
Qed.

Lemma managed_routes_read_only_witness :
  routeSyncURL (agentState "http://control/routes" (Some true)) ≠ []
  ∧ handleRoutes (go "POST") (Some (go "c.d", go "z:3"))
      (agentState "http://control/routes" (Some true))
    = (errorJSON 403 "routes are managed by control plane",
       agentState "http://control/routes" (Some true))
  ∧ (handleRouteByHost (go "DELETE") (go "/api/routes/a.b")
       (agentState "http://control/routes" (Some true))).2
    = agentState "http://control/routes" (Some true).
Proof.
  assert (routeSyncURL (agentState "http://control/routes" (Some true)) ≠ [])
    as H by done.
  destruct (managed_routes_read_only _ H) as [Hpost Hdel].
  split; [exact H|]. split.
  - destruct (Hpost (go "POST") (Some (go "c.d", go "z:3"))) as [H1 H2].
    rewrite <- H1 at 2. rewrite <- (H2 eq_refl). by destruct (handleRoutes _ _ _).
  - exact (proj1 (Hdel (go "DELETE") (go "/api/routes/a.b"))).
Defined.

(** Property X17.  A POST on [/api/routes] of an agent that is not
    managed, with a hostname and a target that normalize, on a disk
    where no call fails, is answered 200; the store then holds the
    normalized route under the normalized hostname and its other routes
    as before, the configuration file holds the routes of the new
    store, and the listing of the new store is published to the gateway
    if the control connection is up and its write succeeds.  The reply
    says whether it was ([sync_ok]) and lists the new store; when the
    tunnel is offline the route is stored all the same. *)
Theorem post_route hostname target st host t :
  routeSyncURL st = [] →
  NormalizeHostname hostname = Ok host → NormalizeTarget target = Ok t →
  healthy (disk st) →
  ∃ reply st',
    handleRoutes (go "POST") (Some (hostname, target)) st = (reply, st')
    ∧ adminStatus reply = 200
    ∧ adminBody reply
      = MutationJSON (bool_decide (conn st = Some true)) (List (store st'))
          (match conn st with
           | Some true => []
           | Some false => go "write websocket"
           | None => go "tunnel is offline"
           end)
    ∧ routes (store st')
      = <[host := {| Hostname := host; Target := t |}]> (routes (store st))
    ∧ files (disk st') !! path (store st)
      = Some (Json {| FileRoutes := jsonRoute <$> List (store st') |})
    ∧ wire st'
      = (if bool_decide (conn st = Some true)
         then wire st ++ [register (List (store st'))] else wire st).
Proof.
  intros Hu Hh Ht Hd. unfold handleRoutes.
  rewrite bool_decide_eq_false_2 by done.
  rewrite bool_decide_eq_true_2 by done.
  rewrite bool_decide_eq_false_2 by (by rewrite Hu; intros ?).
  unfold Upsert. rewrite Hh, Ht.
  set (s' := {| path := path (store st);
                routes := <[host := {| Hostname := host; Target := t |}]>
                            (routes (store st)) |}).
  destruct (saveLocked_healthy s' (disk st) Hd) as (d' & -> & Hfile & _).
  unfold mutated, SyncRoutes. rewrite publishRoutes_cases.
  eexists _, _. split; [reflexivity|].
  cbn [adminStatus adminBody store disk wire withStore conn].
  split; [done|]. split.
  - by destruct (conn st) as [[|]|].
  - done.
Qed.

Lemma post_route_witness :
  routeSyncURL (agentState "" None) = []
  ∧ NormalizeHostname (go " C.D. ") = Ok (go "c.d")
  ∧ NormalizeTarget (go " z:3") = Ok (go "z:3")
  ∧ healthy (disk (agentState "" None))
  ∧ ∃ reply st',
      handleRoutes (go "POST") (Some (go " C.D. ", go " z:3"))
        (agentState "" None) = (reply, st')
      ∧ adminStatus reply = 200
      ∧ routes (store st')
        = <[go "c.d" := {| Hostname := go "c.d"; Target := go "z:3" |}]>
            (routes (store (agentState "" None)))
      ∧ wire st' = [].
Proof.
  assert (NormalizeHostname (go " C.D. ") = Ok (go "c.d")) as Hh
    by (by vm_compute).
  assert (NormalizeTarget (go " z:3") = Ok (go "z:3")) as Ht
    by (by vm_compute).
  split; [reflexivity|]. split; [exact Hh|]. split; [exact Ht|].
  split; [reflexivity|].
  destruct (post_route (go " C.D. ") (go " z:3") (agentState "" None)
              (go "c.d") (go "z:3") eq_refl Hh Ht eq_refl)
    as (reply & st' & Hr & Hs & _ & Hroutes & _ & Hw).
  exists reply, st'. split; [exact Hr|]. split; [exact Hs|].
  split; [exact Hroutes|exact Hw].
Defined.

(** Property X18.  A POST on [/api/routes] of an agent that is not
    managed is answered 400 in three cases.  When the body is not the
    JSON of a route, and when the hostname or the target does not
    normalize, nothing changes.  When the route normalizes but a call
    of the save fails, the route is in the store in memory all the
    same, the configuration file is what it was, and nothing is
    published. *)
Theorem post_route_refused hostname target st :
  routeSyncURL st = [] →
  (is_ok (NormalizeHostname hostname) && is_ok (NormalizeTarget target) = false →
   ∃ e, handleRoutes (go "POST") (Some (hostname, target)) st
        = (errorJSON 400 e, st))
  ∧ handleRoutes (go "POST") None st = (errorJSON 400 "invalid json", st)
  ∧ (∀ host t call, NormalizeHostname hostname = Ok host →
       NormalizeTarget target = Ok t →
       failing (disk st) = Some call → call ≠ ReadFile →
       ∃ e st',
         handleRoutes (go "POST") (Some (hostname, target)) st
         = (errorJSON 400 e, st')
         ∧ routes (store st')
           = <[host := {| Hostname := host; Target := t |}]>
               (routes (store st))
         ∧ files (disk st') !! path (store st)
           = files (disk st) !! path (store st)
         ∧ wire st' = wire st).
Proof.
  intros Hu. unfold handleRoutes.
  rewrite bool_decide_eq_false_2 by done.
  rewrite bool_decide_eq_true_2 by done.
  rewrite bool_decide_eq_false_2 by (by rewrite Hu; intros ?).
  split; [|split; [done|]].
  - unfold Upsert. intros Hok.
    assert (withStore st (store st) (disk st) = st) as Hsame
      by (by destruct st).
    destruct (NormalizeHostname hostname) as [host|e];
      [|exists e; by rewrite Hsame].
    destruct (NormalizeTarget target) as [t|e];
      [done|exists e; by rewrite Hsame].
  - intros host t call Hh Ht Hf Hcall. unfold Upsert. rewrite Hh, Ht.
    destruct (saveLocked _ (disk st)) as [err d'] eqn:Hs.
    destruct (saveLocked_effect _ _ _ _ Hs) as (Hfail & _ & _ & _).
    assert (err ≠ None) as Hne.
    { intros ->. revert Hs. unfold saveLocked. rewrite Hf.
      destruct call; [done|..];
        repeat (case_bool_decide; try done). }
    destruct err as [e|]; [|done].
    eexists _, _. split; [reflexivity|].
    cbn [store disk wire withStore routes path].
    split; [done|]. split; [by apply Hfail|done].
Qed.

Lemma post_route_refused_witness :
  routeSyncURL (agentState "" (Some true)) = []
  ∧ ∃ e, handleRoutes (go "POST") (Some (go "localhost", go "z:3"))
           (agentState "" (Some true))
         = (errorJSON 400 e, agentState "" (Some true)).
Proof.
  split; [reflexivity|].
  apply (proj1 (post_route_refused (go "localhost") (go "z:3")
                  (agentState "" (Some true)) eq_refl)).
  by vm_compute.
Defined.

Lemma TrimPrefix_app p s : TrimPrefix (p ++ s) p = s.
Proof.
  unfold TrimPrefix.
  assert (HasPrefix (p ++ s) p = true) as ->.
  { induction p as [|c p IH]; [by destruct s|].
    cbn. by rewrite bool_decide_eq_true_2, IH. }
  by rewrite drop_app_length.
Qed.

(** Property X19.  A DELETE under [/api/routes/] of an agent that is
    not managed, whose path segment unescapes to a hostname that is not
    empty and normalizes, on a disk where no call fails, is answered
    200; the store no longer holds a route under the normalized
    hostname and holds its other routes as before, the configuration
    file holds the routes of the new store, and the listing of the new
    store is published if the control connection is up and its write
    succeeds. *)
Theorem delete_route seg hostname st host :
  routeSyncURL st = [] →
  URL.PathUnescape seg = Some hostname → hostname ≠ [] →
  NormalizeHostname hostname = Ok host →
  healthy (disk st) →
  ∃ reply st',
    handleRouteByHost (go "DELETE") (go "/api/routes/" ++ seg) st
    = (reply, st')
    ∧ adminStatus reply = 200
    ∧ routes (store st') = delete host (routes (store st))
    ∧ files (disk st') !! path (store st)
      = Some (Json {| FileRoutes := jsonRoute <$> List (store st') |})
    ∧ wire st'
      = (if bool_decide (conn st = Some true)
         then wire st ++ [register (List (store st'))] else wire st).
Proof.
  intros Hu Hseg Hne Hh Hd. unfold handleRouteByHost.
  rewrite bool_decide_eq_false_2 by (intros H; by apply H).
  rewrite bool_decide_eq_false_2 by (by rewrite Hu; intros ?).
  rewrite TrimPrefix_app, Hseg.
  change (default [] (Some hostname)) with hostname.
  rewrite bool_decide_eq_false_2 by done.
  unfold Delete. rewrite Hh.
  set (s' := {| path := path (store st);
                routes := delete host (routes (store st)) |}).
  destruct (saveLocked_healthy s' (disk st) Hd) as (d' & -> & Hfile & _).
  unfold mutated, SyncRoutes. rewrite publishRoutes_cases.
  eexists _, _. split; [reflexivity|].
  cbn [adminStatus adminBody store disk wire withStore conn]. done.
Qed.

Lemma delete_route_witness :
  routeSyncURL (agentState "" (Some true)) = []
  ∧ URL.PathUnescape (go "A%2eB") = Some (go "A.B")
  ∧ go "A.B" ≠ []
  ∧ NormalizeHostname (go "A.B") = Ok (go "a.b")
  ∧ healthy (disk (agentState "" (Some true)))
  ∧ ∃ reply st',
      handleRouteByHost (go "DELETE") (go "/api/routes/" ++ go "A%2eB")
        (agentState "" (Some true)) = (reply, st')
      ∧ adminStatus reply = 200
      ∧ routes (store st')
        = delete (go "a.b") (routes (store (agentState "" (Some true)))).
Proof.
  assert (URL.PathUnescape (go "A%2eB") = Some (go "A.B")) as Hs
    by (by vm_compute).
  assert (go "A.B" ≠ []) as Hne by done.
  assert (NormalizeHostname (go "A.B") = Ok (go "a.b")) as Hh
    by (by vm_compute).
  split; [reflexivity|]. split; [exact Hs|]. split; [exact Hne|].
  split; [exact Hh|]. split; [reflexivity|].
  destruct (delete_route (go "A%2eB") (go "A.B") (agentState "" (Some true))
              (go "a.b") eq_refl Hs Hne Hh eq_refl)
    as (reply & st' & Hr & Hst & Hroutes & _).
  exists reply, st'. split; [exact Hr|]. split; [exact Hst|exact Hroutes].
Defined.

(** Property X20.  One round of the route sync.  Nothing changes, and
    nothing is published, when the control plane gives no answer, an
    answer whose status is not 200, a body that cannot be decoded, a
    list in which some route does not normalize, or a list that
    normalizes to the route set the store already holds.  Otherwise the
    route set of the store is replaced by the normalized list and
    saved; if saving succeeds and the control connection is up and its
    write succeeds, the listing of the new store is published; if
    saving fails, the new route set stays in memory and nothing is
    published. *)
Theorem sync_from_control answer st :
  checked_store (store st) →
  (∀ status payload, answer = Answer status payload → status ≠ 200 →
     syncRoutesFromControl answer st = st)
  ∧ (answer = NoAnswer ∨ answer = Answer 200 None →
     syncRoutesFromControl answer st = st)
  ∧ (∀ rs, answer = Answer 200 (Some rs) → Exists invalid rs →
       syncRoutesFromControl answer st = st)
  ∧ (∀ rs, answer = Answer 200 (Some rs) →
       normalized rs (routes (store st)) →
       syncRoutesFromControl answer st = st)
  ∧ (∀ rs next, answer = Answer 200 (Some rs) → normalized rs next →
       next ≠ routes (store st) →
       ∃ err d',
         saveLocked {| path := path (store st); routes := next |} (disk st)
         = (err, d')
         ∧ syncRoutesFromControl answer st
           = {| store := {| path := path (store st); routes := next |};
                disk := d'; conn := conn st; routeSyncURL := routeSyncURL st;
                wire := if bool_decide (err = None ∧ conn st = Some true)
                        then wire st
                             ++ [register
                                   (List {| path := path (store st);
                                            routes := next |})]
                        else wire st |}).
Proof.
  intros Hs.
  assert (withStore st (store st) (disk st) = st) as Hsame by (by destruct st).
  split; [|split; [|split; [|split]]].
  - intros status payload -> Hne. unfold syncRoutesFromControl.
    by rewrite bool_decide_eq_true_2.
  - intros [-> | ->]; [done|]. unfold syncRoutesFromControl.
    by rewrite bool_decide_eq_false_2 by (intros H; by apply H).
  - intros rs -> Hex. unfold syncRoutesFromControl.
    rewrite bool_decide_eq_false_2 by (intros H; by apply H).
    destruct (ReplaceAll_rejects rs (store st) (disk st) Hex) as [e ->].
    exact Hsame.
  - intros rs -> Hn. unfold syncRoutesFromControl.
    rewrite bool_decide_eq_false_2 by (intros H; by apply H).
    destruct (ReplaceAll_cases rs (store st) (disk st) _ Hs Hn)
      as (_ & Heq & _).
    rewrite Heq by done. exact Hsame.
  - intros rs next -> Hn Hne. unfold syncRoutesFromControl.
    rewrite bool_decide_eq_false_2 by (intros H; by apply H).
    destruct (ReplaceAll_cases rs (store st) (disk st) _ Hs Hn)
      as (_ & _ & Hch).
    destruct (Hch Hne) as (err & d' & Hsave & ->).
    exists err, d'. split; [done|].
    destruct err as [e|].
    + rewrite bool_decide_eq_false_2 by done.
      rewrite bool_decide_eq_false_2 by (by intros [? _]). done.
    + rewrite bool_decide_eq_true_2 by done.
      rewrite publishRoutes_cases.
      cbn [snd store disk conn routeSyncURL wire withStore].
      destruct (conn st) as [[|]|].
      * by rewrite !bool_decide_eq_true_2.
      * rewrite bool_decide_eq_false_2 by done.
        by rewrite bool_decide_eq_false_2 by (by intros [_ ?]).
      * rewrite bool_decide_eq_false_2 by done.
        by rewrite bool_decide_eq_false_2 by (by intros [_ ?]).
Qed.

Lemma sync_from_control_witness :
  checked_store (store (agentState "http://control/routes" (Some true)))
  ∧ syncRoutesFromControl (Answer 503 None)
      (agentState "http://control/routes" (Some true))
    = agentState "http://control/routes" (Some true)
  ∧ syncRoutesFromControl
      (Answer 200 (Some [route "a.b" "x:1"; route "localhost" "y:2"]))
      (agentState "http://control/routes" (Some true))
    = agentState "http://control/routes" (Some true).
Proof.
  assert (checked_store
            (store (agentState "http://control/routes" (Some true)))) as H
    by apply valid_store_checked, twoRoutes_valid.
  split; [exact H|]. split.
  - destruct (sync_from_control (Answer 503 None) _ H) as (H1 & _).
    by apply (H1 503 None).
  - destruct (sync_from_control
                (Answer 200 (Some [route "a.b" "x:1"; route "localhost" "y:2"]))
                _ H) as (_ & _ & H3 & _).
    apply (H3 _ eq_refl).
    apply Exists_cons_tl, Exists_cons_hd. left. by vm_compute.
Defined.

End agent_service.
